(** * gas-aws: AWS Signature Version 4 request signing for Google Apps Script

    A shallow embedding of [src/main.ts] (the signing module [AWS.request] and
    the [AWS.Lambda] client) and [src/config.ts] (the default configuration),
    with the properties the specification states about them.

    Modelling conventions.

    - A JavaScript string is a [string]: a sequence of 8-bit characters, read
      as UTF-16 code units below 256.  On such strings [trim], [toLowerCase],
      [encodeURIComponent], [encodeURI], the relational operators and the
      regular expressions of the source are modelled exactly.
    - A JavaScript object used as a mapping is an association list in
      property enumeration order ([JSObject]).
    - A number is a safe integer ([Number.isSafeInteger]), which [ToString]
      prints in decimal; a number of a JSON text is the double nearest to
      the decimal the text denotes.
    - An exception is a value of [exn]; a computation that may throw returns
      an [Outcome].
    - A [Date] is a valid date, given by what its [toISOString()] returns;
      an object that is only serialised is given by its [JSON.stringify].
    - The configuration may lack, against its declared type, the
      [credentials] object, a credential or the region: each is then
      [None].
    - What the Apps Script host provides ([UrlFetchApp.fetch], [Utilities],
      [new Date()]) is the class [Runtime]; calls to the transport and to the
      console are recorded in a trace. *)

From Stdlib Require Import List String Ascii ZArith NArith Bool Lia.
From Stdlib Require Import Permutation DecimalString Sorted.
Import ListNotations.

Set Warnings "-register-all".

Local Open Scope list_scope.
Local Open Scope string_scope.

(* ================================================================== *)
(** ** The language: strings, arrays, objects, exceptions              *)
(* ================================================================== *)

Module JS.

(** *** Characters *)

Definition code (c : ascii) : N := N_of_ascii c.

Definition between (lo hi : N) (c : ascii) : bool :=
  ((lo <=? code c) && (code c <=? hi))%N.

Definition is_digit (c : ascii) : bool := between 48 57 c.
Definition is_upper (c : ascii) : bool := between 65 90 c.
Definition is_lower (c : ascii) : bool := between 97 122 c.
Definition is_alnum (c : ascii) : bool := is_digit c || is_upper c || is_lower c.

(** [\s] of a regular expression and the white space [trim] removes: TAB, LF,
    VT, FF, CR, SP and NBSP are the ones below 256. *)
Definition is_space (c : ascii) : bool :=
  between 9 13 c || (code c =? 32)%N || (code c =? 160)%N.

(** One of the characters of the literal [set]. *)
Fixpoint char_in (set : string) (c : ascii) : bool :=
  match set with
  | EmptyString => false
  | String d rest => Ascii.eqb c d || char_in rest c
  end.

(** *** Strings *)

Fixpoint smap (f : ascii -> ascii) (s : string) : string :=
  match s with
  | EmptyString => EmptyString
  | String c rest => String (f c) (smap f rest)
  end.

Fixpoint sflat (f : ascii -> string) (s : string) : string :=
  match s with
  | EmptyString => EmptyString
  | String c rest => f c ++ sflat f rest
  end.

Fixpoint sforall (p : ascii -> bool) (s : string) : bool :=
  match s with
  | EmptyString => true
  | String c rest => p c && sforall p rest
  end.

Definition is_empty (s : string) : bool :=
  match s with EmptyString => true | _ => false end.

(** [String.prototype.toLowerCase]: A-Z and the capital letters of Latin-1
    (U+00C0..U+00DE but the multiplication sign U+00D7) move up by 32. *)
Definition lower_char (c : ascii) : ascii :=
  if is_upper c || (between 192 222 c && negb (code c =? 215)%N)
  then ascii_of_N (code c + 32)
  else c.

Definition toLowerCase (s : string) : string := smap lower_char s.

(** [String.prototype.toUpperCase], exact on the strings that hold none of
    U+00B5, U+00DF and U+00FF (their capitals are not below 256). *)
Definition upper_char (c : ascii) : ascii :=
  if is_lower c || (between 224 254 c && negb (code c =? 247)%N)
  then ascii_of_N (code c - 32)
  else c.

Definition toUpperCase (s : string) : string := smap upper_char s.

(** [String.prototype.trim]. *)
Fixpoint trimStart (s : string) : string :=
  match s with
  | EmptyString => EmptyString
  | String c rest => if is_space c then trimStart rest else s
  end.

Fixpoint trimEnd (s : string) : string :=
  match s with
  | EmptyString => EmptyString
  | String c rest =>
      let rest' := trimEnd rest in
      if is_space c && is_empty rest' then EmptyString else String c rest'
  end.

Definition trim (s : string) : string := trimEnd (trimStart s).

(** [s.replace(/\s{2,}/g, ' ')]: scanning from the left, a maximal run of two
    or more white space characters is replaced by one space; a white space
    character standing alone is kept as it is. *)
Fixpoint replace_space_runs (s : string) : string :=
  match s with
  | EmptyString => EmptyString
  | String c rest =>
      if is_space c then
        match rest with
        | EmptyString => String c EmptyString
        | String d rest' =>
            if is_space d then
              String " "
                ((fix skip (u : string) : string :=
                    match u with
                    | EmptyString => EmptyString
                    | String e u' =>
                        if is_space e then skip u'
                        else String e (replace_space_runs u')
                    end) rest')
            else String c (replace_space_runs rest)
        end
      else String c (replace_space_runs rest)
  end.

(** [s.split(/\//g)] and, in general, splitting at every occurrence of one
    character: the result is never empty. *)
Fixpoint split (sep : ascii) (s : string) : list string :=
  match s with
  | EmptyString => [EmptyString]
  | String c rest =>
      if Ascii.eqb c sep then EmptyString :: split sep rest
      else match split sep rest with
           | [] => [String c EmptyString]
           | seg :: segs => String c seg :: segs
           end
  end.

(** The line feed, ['\n']. *)
Definition LF : string := String (ascii_of_N 10) EmptyString.

(** [Array.prototype.join] on an array of strings. *)
Definition join (sep : string) (parts : list string) : string :=
  String.concat sep parts.

(** [a > b] and [a === b] on strings: code units, left to right. *)
Definition gt (a b : string) : bool :=
  match String.compare a b with Gt => true | _ => false end.

Definition strict_eq (a b : string) : bool := String.eqb a b.

(** A string is truthy when it is not empty. *)
Definition truthy (s : string) : bool := negb (is_empty s).

(** *** Numbers *)

(** The decimal digits of an integer, after [-] when it is negative. *)
Definition decimal (z : Z) : string :=
  NilZero.string_of_int (Z.to_int z).

(** A number: an integer from -(2^53 - 1) to 2^53 - 1, which a double holds
    exactly ([Number.isSafeInteger]). *)
Record SafeInteger : Type :=
  { integer : Z;
    is_safe : (Z.abs integer <=? 9007199254740991)%Z = true }.

(** The number [z]. *)
Definition number (z : Z) (safe : (Z.abs z <=? 9007199254740991)%Z = true)
  : SafeInteger :=
  {| integer := z; is_safe := safe |}.

(** [ToString] of a number: below 10^21 an integer is printed with all its
    decimal digits. *)
Definition Number_toString (n : SafeInteger) : string := decimal (integer n).

(** *** Percent-encoding *)

Definition hex_upper (n : N) : ascii :=
  ascii_of_N (if (n <? 10)%N then 48 + n else 55 + n).

Definition hex_lower (n : N) : ascii :=
  ascii_of_N (if (n <? 10)%N then 48 + n else 87 + n).

Definition percent (byte : N) : string :=
  String "%" (String (hex_upper (byte / 16)) (String (hex_upper (byte mod 16)) EmptyString)).

(** The UTF-8 octets of one code unit below 256. *)
Definition utf8_char (c : ascii) : list N :=
  let n := code c in
  if (n <? 128)%N then [n] else [192 + n / 64; 128 + n mod 64]%N.

Fixpoint utf8 (s : string) : list N :=
  match s with
  | EmptyString => []
  | String c rest => utf8_char c ++ utf8 rest
  end.

Definition escape_char (c : ascii) : string :=
  String.concat EmptyString (map percent (utf8_char c)).

(** [uriUnescaped] of ECMA-262: letters, digits and [- _ . ! ~ * ' ( )]. *)
Definition uri_unescaped (c : ascii) : bool :=
  is_alnum c || char_in "-_.!~*'()" c.

(** [uriReserved] of ECMA-262 plus [#]. *)
Definition uri_reserved (c : ascii) : bool := char_in ";/?:@&=+$,#" c.

Definition encodeURIComponent (s : string) : string :=
  sflat (fun c => if uri_unescaped c then String c EmptyString else escape_char c) s.

Definition encodeURI (s : string) : string :=
  sflat (fun c => if uri_unescaped c || uri_reserved c
                  then String c EmptyString else escape_char c) s.

(** *** Arrays *)

Section Sort.
Context {A : Type}.
(** The comparator's result: negative, zero or positive. *)
Variable cmp : A -> A -> Z.

Fixpoint insert (x : A) (l : list A) : list A :=
  match l with
  | [] => [x]
  | y :: rest => if (cmp x y <=? 0)%Z then x :: l else y :: insert x rest
  end.

(** [Array.prototype.sort] with a consistent comparator: the stable
    sort. *)
Fixpoint sort (l : list A) : list A :=
  match l with
  | [] => []
  | x :: rest => insert x (sort rest)
  end.
End Sort.

(** *** Objects as mappings *)

Definition JSObject (V : Type) : Type := list (string * V).

Section Objects.
Context {V : Type}.

(** [Object.keys(o)]. *)
Definition keys (o : JSObject V) : list string := map fst o.

(** [o.hasOwnProperty(k)] of [Object.prototype]. *)
Fixpoint hasOwn (o : JSObject V) (k : string) : bool :=
  match o with
  | [] => false
  | (k', _) :: rest => String.eqb k' k || hasOwn rest k
  end.

(** [o[k]] for an own property. *)
Fixpoint get (o : JSObject V) (k : string) : option V :=
  match o with
  | [] => None
  | (k', v) :: rest => if String.eqb k' k then Some v else get rest k
  end.

Fixpoint replace (o : JSObject V) (k : string) (v : V) : JSObject V :=
  match o with
  | [] => []
  | (k', v') :: rest =>
      if String.eqb k' k then (k', v) :: rest else (k', v') :: replace rest k v
  end.

(** [o[k] = v] for a key that is not an array index: an existing property
    keeps its place, a new one goes last. *)
Definition set (o : JSObject V) (k : string) (v : V) : JSObject V :=
  if hasOwn o k then replace o k v else (o ++ [(k, v)])%list.

(** [delete o[k]]. *)
Definition delete (o : JSObject V) (k : string) : JSObject V :=
  filter (fun kv => negb (String.eqb (fst kv) k)) o.
End Objects.

(** The property names every object inherits from [Object.prototype]; each
    of them holds a function or an object, so is truthy and is no string. *)
Definition Object_prototype : list string :=
  [ "constructor"; "__defineGetter__"; "__defineSetter__"; "hasOwnProperty";
    "__lookupGetter__"; "__lookupSetter__"; "isPrototypeOf";
    "propertyIsEnumerable"; "toString"; "valueOf"; "__proto__";
    "toLocaleString" ].

Definition inherited (k : string) : bool :=
  existsb (String.eqb k) Object_prototype.

(** What [o[k]] gives on an object literal whose own values are strings:
    the own value, or the member of [Object.prototype] of that name. *)
Inductive member : Type :=
| Own (s : string)
| Inherited (name : string).

Definition lookup (o : JSObject string) (k : string) : option member :=
  match get o k with
  | Some v => Some (Own v)
  | None => if inherited k then Some (Inherited k) else None
  end.

Definition member_truthy (m : member) : bool :=
  match m with
  | Own s => truthy s
  | Inherited _ => true
  end.

(** [String(m)]; a built-in function prints as V8 prints it. *)
Definition member_toString (m : member) : string :=
  match m with
  | Own s => s
  | Inherited name =>
      if String.eqb name "__proto__" then "[object Object]"
      else "function " ++ (if String.eqb name "constructor" then "Object" else name)
           ++ "() { [native code] }"
  end.

End JS.

(* ================================================================== *)
(** ** The Crypto library                                              *)
(* ================================================================== *)

(** Modelled from the spec: the global [Crypto] object ([Crypto.SHA256],
    [Crypto.HmacSHA256]) is a library that is not under [src/].  The spec
    names the functions (SHA-256 and HMAC-SHA256), the conversion of a string
    to its UTF-8 octets and the lowercase hex rendering of a digest; the
    functions themselves are FIPS 180-4 and RFC 2104. *)
Module Crypto.

Local Open Scope list_scope.
Local Open Scope N_scope.

Definition mask32 : N := 4294967295.
Definition add32 (x y : N) : N := N.land (x + y) mask32.
Definition rotr (n x : N) : N :=
  N.lor (N.shiftr x n) (N.land (N.shiftl x (32 - n)) mask32).
Definition xor3 (x y z : N) : N := N.lxor (N.lxor x y) z.

Definition Ch (x y z : N) : N :=
  N.lxor (N.land x y) (N.land (N.lxor x mask32) z).
Definition Maj (x y z : N) : N :=
  xor3 (N.land x y) (N.land x z) (N.land y z).
Definition Sigma0 (x : N) : N := xor3 (rotr 2 x) (rotr 13 x) (rotr 22 x).
Definition Sigma1 (x : N) : N := xor3 (rotr 6 x) (rotr 11 x) (rotr 25 x).
Definition sigma0 (x : N) : N := xor3 (rotr 7 x) (rotr 18 x) (N.shiftr x 3).
Definition sigma1 (x : N) : N := xor3 (rotr 17 x) (rotr 19 x) (N.shiftr x 10).

(** The round constants and the initial hash value, in decimal. *)
Definition K : list N :=
  [ 1116352408; 1899447441; 3049323471; 3921009573; 961987163; 1508970993;
    2453635748; 2870763221; 3624381080; 310598401; 607225278; 1426881987;
    1925078388; 2162078206; 2614888103; 3248222580; 3835390401; 4022224774;
    264347078; 604807628; 770255983; 1249150122; 1555081692; 1996064986;
    2554220882; 2821834349; 2952996808; 3210313671; 3336571891; 3584528711;
    113926993; 338241895; 666307205; 773529912; 1294757372; 1396182291;
    1695183700; 1986661051; 2177026350; 2456956037; 2730485921; 2820302411;
    3259730800; 3345764771; 3516065817; 3600352804; 4094571909; 275423344;
    430227734; 506948616; 659060556; 883997877; 958139571; 1322822218;
    1537002063; 1747873779; 1955562222; 2024104815; 2227730452; 2361852424;
    2428436474; 2756734187; 3204031479; 3329325298 ].

Record state : Type := State
  { sa : N; sb : N; sc : N; sd : N; se : N; sf : N; sg : N; sh : N }.

Definition H0 : state :=
  State 1779033703 3144134277 1013904242 2773480762
        1359893119 2600822924 528734635 1541459225.

(** Padding: the bit 1, zeros up to 56 modulo 64 octets, then the length in
    bits as 8 octets, most significant first. *)
Definition be_octets (n : nat) (x : N) : list N :=
  map (fun i => (N.shiftr x (8 * N.of_nat i)) mod 256) (rev (List.seq 0 n)).

Definition pad (msg : list N) : list N :=
  let len := N.of_nat (List.length msg) in
  let zeros := N.to_nat ((64 - (len + 9) mod 64) mod 64) in
  msg ++ [128] ++ repeat 0 zeros ++ be_octets 8 (8 * len).

Fixpoint words (octets : list N) : list N :=
  match octets with
  | a :: b :: c :: d :: rest =>
      (((a * 256 + b) * 256 + c) * 256 + d) :: words rest
  | _ => []
  end.

Fixpoint blocks (fuel : nat) (ws : list N) : list (list N) :=
  match fuel, ws with
  | S fuel', _ :: _ => firstn 16 ws :: blocks fuel' (skipn 16 ws)
  | _, _ => []
  end.

(** The message schedule, most recent word first while it is built. *)
Fixpoint extend (n : nat) (w : list N) : list N :=
  match n with
  | O => w
  | S n' =>
      let next :=
        add32 (add32 (sigma1 (nth 1 w 0)) (nth 6 w 0))
              (add32 (sigma0 (nth 14 w 0)) (nth 15 w 0)) in
      extend n' (next :: w)
  end.

Definition schedule (block : list N) : list N := rev (extend 48 (rev block)).

Definition round (s : state) (kw : N * N) : state :=
  let t1 := add32 (add32 (add32 (sh s) (Sigma1 (se s))) (Ch (se s) (sf s) (sg s)))
                  (add32 (fst kw) (snd kw)) in
  let t2 := add32 (Sigma0 (sa s)) (Maj (sa s) (sb s) (sc s)) in
  State (add32 t1 t2) (sa s) (sb s) (sc s) (add32 (sd s) t1) (se s) (sf s) (sg s).

Definition compress (h : state) (block : list N) : state :=
  let s := fold_left round (combine K (schedule block)) h in
  State (add32 (sa h) (sa s)) (add32 (sb h) (sb s)) (add32 (sc h) (sc s))
        (add32 (sd h) (sd s)) (add32 (se h) (se s)) (add32 (sf h) (sf s))
        (add32 (sg h) (sg s)) (add32 (sh h) (sh s)).

Definition state_octets (s : state) : list N :=
  flat_map (be_octets 4) [sa s; sb s; sc s; sd s; se s; sf s; sg s; sh s].

(** SHA-256 of a sequence of octets: 32 octets. *)
Definition sha256 (msg : list N) : list N :=
  let ws := words (pad msg) in
  state_octets (fold_left compress (blocks (List.length ws) ws) H0).

(** HMAC-SHA256 (RFC 2104, block size 64). *)
Definition hmac_sha256 (key data : list N) : list N :=
  let k := if (64 <? N.of_nat (List.length key)) then sha256 key else key in
  let k := k ++ repeat 0 (64 - List.length k) in
  sha256 (map (N.lxor 92) k ++ sha256 (map (N.lxor 54) k ++ data)).

(** A digest as a lowercase hex string. *)
Definition bytesToHex (octets : list N) : string :=
  string_of_list_ascii
    (flat_map (fun b => [JS.hex_lower (b / 16); JS.hex_lower (b mod 16)]) octets).

(** What the library takes as a key and returns as a digest: a string or an
    array of octets. *)
Inductive value : Type :=
| Str (s : string)
| Bytes (octets : list N).

Definition toBytes (v : value) : list N :=
  match v with
  | Str s => JS.utf8 s
  | Bytes octets => octets
  end.

(** [String(v)]: an array prints as its elements joined by commas. *)
Definition toString (v : value) : string :=
  match v with
  | Str s => s
  | Bytes octets =>
      JS.join "," (map (fun b => JS.decimal (Z.of_N b)) octets)
  end.

(** [Crypto.SHA256(message)]: the hex digest of the message's UTF-8 octets. *)
Definition SHA256 (message : string) : string :=
  bytesToHex (sha256 (JS.utf8 message)).

(** [Crypto.HmacSHA256(message, key, { asBytes })]: a string (message or key)
    stands for its UTF-8 octets; the digest is returned as octets when
    [asBytes] is set, as a hex string otherwise. *)
Definition HmacSHA256 (message : string) (key : value) (asBytes : bool) : value :=
  let mac := hmac_sha256 (toBytes key) (JS.utf8 message) in
  if asBytes then Bytes mac else Str (bytesToHex mac).

End Crypto.

(* ================================================================== *)
(** ** JSON values, exceptions                                         *)
(* ================================================================== *)

Module JSON.

(** A string of a JSON value: any UTF-16 code units (an escape [\uXXXX] may
    name one above 255). *)
Definition text : Type := list N.

Definition units (s : string) : text := map JS.code (list_ascii_of_string s).

(** A JSON value.  A number is kept as the decimal the text denotes,
    [(-1)^negative * coefficient * 10^exponent], and stands for the double
    nearest to it; the members of an object are in the order in which its
    properties are enumerated. *)
Inductive json : Type :=
| JNull
| JBool (b : bool)
| JNumber (negative : bool) (coefficient : N) (exponent : Z)
| JString (s : text)
| JArray (items : list json)
| JObject (members : list (text * json)).

Definition text_eqb (a b : text) : bool :=
  if list_eq_dec N.eq_dec a b then true else false.

(** Whether the double nearest to [c * 10^e] is a zero: the decimals up to
    2^-1075, half of the least positive double, are rounded to zero. *)
Definition rounds_to_zero (c : N) (e : Z) : bool :=
  (c =? 0)%N || ((e <? 0)%Z && (Z.of_N c * 2 ^ 1075 <=? 10 ^ (- e))%Z).

(** [ToBoolean]; [None] is [undefined]. *)
Definition truthy (v : option json) : bool :=
  match v with
  | None | Some JNull => false
  | Some (JBool b) => b
  | Some (JNumber _ c e) => negb (rounds_to_zero c e)
  | Some (JString s) => match s with [] => false | _ => true end
  | Some (JArray _) | Some (JObject _) => true
  end.

Fixpoint lookup (members : list (text * json)) (k : text) : option json :=
  match members with
  | [] => None
  | (k', v) :: rest => if text_eqb k' k then Some v else lookup rest k
  end.

(** [v?.name] for a property name that no prototype defines (such as
    [errorMessage] and [message]): the own property of an object, and
    [undefined] on [null], on a primitive and on an array. *)
Definition member (v : json) (name : string) : option json :=
  match v with
  | JObject members => lookup members (units name)
  | _ => None
  end.

(** [a || b]. *)
Definition or_else (a b : option json) : option json :=
  if truthy a then a else b.

End JSON.

Import JSON.

(** What a [throw] carries. *)
Inductive exn : Type :=
| Error (message : option json)     (* [new Error(message)] *)
| TypeError
| SyntaxError
| HostError (what : string).        (* thrown by a service of the host *)

Inductive Outcome (A : Type) : Type :=
| Ok (a : A)
| Throw (e : exn).

Arguments Ok {A} a.
Arguments Throw {A} e.

Definition bindO {A B : Type} (o : Outcome A) (k : A -> Outcome B) : Outcome B :=
  match o with
  | Ok a => k a
  | Throw e => Throw e
  end.

Notation "x <~ e ;; k" := (bindO e (fun x => k))
  (at level 61, e at next level, right associativity).

Fixpoint mapO {A B : Type} (f : A -> Outcome B) (l : list A) : Outcome (list B) :=
  match l with
  | [] => Ok []
  | x :: rest => y <~ f x ;; ys <~ mapO f rest ;; Ok (y :: ys)
  end.

(** [new Error(msg)] with a string. *)
Definition error (msg : string) : exn := Error (Some (JString (units msg))).

Module JSONParse.

Local Open Scope N_scope.

Definition is_ws (c : ascii) : bool :=
  let n := JS.code c in (n =? 32) || (n =? 9) || (n =? 10) || (n =? 13).

Fixpoint skip_ws (s : string) : string :=
  match s with
  | EmptyString => EmptyString
  | String c rest => if is_ws c then skip_ws rest else s
  end.

Definition hex_value (c : ascii) : option N :=
  let n := JS.code c in
  if JS.is_digit c then Some (n - 48)
  else if JS.between 65 70 c then Some (n - 55)
  else if JS.between 97 102 c then Some (n - 87)
  else None.

Definition hex4 (a b c d : ascii) : option N :=
  match hex_value a, hex_value b, hex_value c, hex_value d with
  | Some x, Some y, Some z, Some w => Some (((x * 16 + y) * 16 + z) * 16 + w)
  | _, _, _, _ => None
  end.

(** The characters of a string after its opening quote, up to the closing
    one. *)
Fixpoint chars (s : string) (acc : text) : option (text * string) :=
  match s with
  | EmptyString => None
  | String c rest =>
      let n := JS.code c in
      if n =? 34 then Some (rev acc, rest)
      else if n =? 92 then
        match rest with
        | EmptyString => None
        | String e rest' =>
            let m := JS.code e in
            if (m =? 34) || (m =? 92) || (m =? 47) then chars rest' (m :: acc)
            else if m =? 98 then chars rest' (8 :: acc)
            else if m =? 102 then chars rest' (12 :: acc)
            else if m =? 110 then chars rest' (10 :: acc)
            else if m =? 114 then chars rest' (13 :: acc)
            else if m =? 116 then chars rest' (9 :: acc)
            else if m =? 117 then
              match rest' with
              | String h1 (String h2 (String h3 (String h4 rest''))) =>
                  match hex4 h1 h2 h3 h4 with
                  | Some u => chars rest'' (u :: acc)
                  | None => None
                  end
              | _ => None
              end
            else None
        end
      else if n <? 32 then None
      else chars rest (n :: acc)
  end.

(** A maximal run of digits: its value, its length, what follows. *)
Fixpoint digits (s : string) (acc : N) (len : nat) : N * nat * string :=
  match s with
  | String c rest =>
      if JS.is_digit c then digits rest (acc * 10 + (JS.code c - 48)) (S len)
      else (acc, len, s)
  | EmptyString => (acc, len, s)
  end.

Definition starts (c : N) (s : string) : option string :=
  match s with
  | String d rest => if JS.code d =? c then Some rest else None
  | EmptyString => None
  end.

Definition one_of (c1 c2 : N) (s : string) : option string :=
  match starts c1 s with Some r => Some r | None => starts c2 s end.

Definition exponent_part (s : string) : option (Z * string) :=
  match one_of 101 69 s with
  | None => Some (0%Z, s)
  | Some r =>
      let '(neg, r) :=
        match starts 45 r with
        | Some r' => (true, r')
        | None => match starts 43 r with Some r' => (false, r') | None => (false, r) end
        end in
      let '(e, len, r) := digits r 0 O in
      match len with
      | O => None
      | _ => Some ((if neg then - Z.of_N e else Z.of_N e)%Z, r)
      end
  end.

Definition number (s : string) : option (json * string) :=
  let '(neg, s) := match starts 45 s with Some r => (true, r) | None => (false, s) end in
  let '(int, ilen, r) := digits s 0 O in
  let leading_zero := match starts 48 s with Some _ => true | None => false end in
  match ilen with
  | O => None
  | _ =>
      if leading_zero && negb (Nat.eqb ilen 1) then None
      else
        match starts 46 r with
        | None =>
            match exponent_part r with
            | Some (e, r') => Some (JNumber neg int e, r')
            | None => None
            end
        | Some r1 =>
            let '(coeff, flen, r2) := digits r1 int O in
            match flen with
            | O => None
            | _ =>
                match exponent_part r2 with
                | Some (e, r') => Some (JNumber neg coeff (e - Z.of_nat flen)%Z, r')
                | None => None
                end
            end
        end
  end.

Fixpoint literal (word : string) (s : string) : option string :=
  match word, s with
  | EmptyString, _ => Some s
  | String c w, String d rest => if Ascii.eqb c d then literal w rest else None
  | String _ _, EmptyString => None
  end.

(** The value of a run of decimal digits. *)
Fixpoint digits_value (k : text) (acc : N) : option N :=
  match k with
  | [] => Some acc
  | d :: rest =>
      if (48 <=? d) && (d <=? 57) then digits_value rest (acc * 10 + (d - 48))
      else None
  end.

(** A property name that is an array index: the canonical decimal of an
    integer from 0 to 2^32 - 2. *)
Definition array_index (k : text) : option N :=
  match k with
  | [] => None
  | d :: rest =>
      if (d =? 48) && negb (match rest with [] => true | _ => false end)
      then None
      else
        match digits_value k 0 with
        | Some n => if n <=? 4294967294 then Some n else None
        | None => None
        end
  end.

(** Whether the property [k] is enumerated before the property [k'] when
    [k] is created after it: an array index comes before a greater one and
    before every other name. *)
Definition goes_before (k k' : text) : bool :=
  match array_index k, array_index k' with
  | Some i, Some j => i <? j
  | Some _, None => true
  | None, _ => false
  end.

(** The member [k: v] of the text, added to the object under construction.
    A later member of the same name replaces the value of the earlier one;
    the properties stay in enumeration order: the array indices in ascending
    order, then the other names in the order of their creation. *)
Fixpoint define (members : list (text * json)) (k : text) (v : json)
  : list (text * json) :=
  match members with
  | [] => [(k, v)]
  | (k', v') :: rest =>
      if text_eqb k' k then (k', v) :: rest
      else if goes_before k k' then (k, v) :: members
      else (k', v') :: define rest k v
  end.

Section Composite.
(** The parser of one value. *)
Variable value : string -> option (json * string).

(** The elements of an array after one [[], up to the closing [[]]. *)
Fixpoint items (fuel : nat) (s : string) : option (list json * string) :=
  match fuel with
  | O => None
  | S fuel' =>
      match value s with
      | None => None
      | Some (v, r) =>
          let r := skip_ws r in
          match starts 44 r with
          | Some r' =>
              match items fuel' r' with
              | Some (vs, r'') => Some (v :: vs, r'')
              | None => None
              end
          | None =>
              match starts 93 r with
              | Some r' => Some ([v], r')
              | None => None
              end
          end
      end
  end.

Fixpoint members (fuel : nat) (s : string) (acc : list (text * json))
  : option (list (text * json) * string) :=
  match fuel with
  | O => None
  | S fuel' =>
      match starts 34 (skip_ws s) with
      | None => None
      | Some r =>
          match chars r [] with
          | None => None
          | Some (k, r) =>
              match starts 58 (skip_ws r) with
              | None => None
              | Some r =>
                  match value r with
                  | None => None
                  | Some (v, r) =>
                      let acc := define acc k v in
                      let r := skip_ws r in
                      match starts 44 r with
                      | Some r' => members fuel' r' acc
                      | None =>
                          match starts 125 r with
                          | Some r' => Some (acc, r')
                          | None => None
                          end
                      end
                  end
              end
          end
      end
  end.
End Composite.

Fixpoint value (fuel : nat) (s : string) : option (json * string) :=
  match fuel with
  | O => None
  | S fuel' =>
      let s := skip_ws s in
      match s with
      | EmptyString => None
      | String c rest =>
          let n := JS.code c in
          if n =? 110 then option_map (pair JNull) (literal "null" s)
          else if n =? 116 then option_map (pair (JBool true)) (literal "true" s)
          else if n =? 102 then option_map (pair (JBool false)) (literal "false" s)
          else if n =? 34 then
            match chars rest [] with
            | Some (t, r) => Some (JString t, r)
            | None => None
            end
          else if n =? 91 then
            match starts 93 (skip_ws rest) with
            | Some r => Some (JArray [], r)
            | None =>
                match items (value fuel') (String.length rest) rest with
                | Some (vs, r) => Some (JArray vs, r)
                | None => None
                end
            end
          else if n =? 123 then
            match starts 125 (skip_ws rest) with
            | Some r => Some (JObject [], r)
            | None =>
                match members (value fuel') (String.length rest) rest [] with
                | Some (ms, r) => Some (JObject ms, r)
                | None => None
                end
            end
          else number s
      end
  end.

(** [JSON.parse(text)]. *)
Definition parse (s : string) : Outcome json :=
  match value (S (String.length s)) s with
  | Some (v, r) => if JS.is_empty (skip_ws r) then Ok v else Throw SyntaxError
  | None => Throw SyntaxError
  end.

End JSONParse.

(* ================================================================== *)
(** ** The Apps Script host                                            *)
(* ================================================================== *)

(** A [Date], by what [toISOString()] gives for it. *)
Record Date : Type := { toISOString : string }.

Module UrlFetchApp.
(** The [params] of [UrlFetchApp.fetch(url, params)]. *)
Record Options : Type :=
  { method : string;
    headers : JS.JSObject JS.member;
    muteHttpExceptions : bool;
    payload : string }.

Record HTTPResponse : Type :=
  { getResponseCode : Z;
    getAllHeaders : JS.JSObject string;
    getContentText : string }.
End UrlFetchApp.

(** The value [Lambda.invoke] returns. *)
Module InvokeResult.
Record t : Type :=
  { StatusCode : Z;
    ExecutedVersion : option string;
    LogResult : option (list Z);
    Payload : json }.
End InvokeResult.

(** What the host and the engine provide. *)
Class Runtime : Type :=
  { (** [new Date()] *)
    new_Date : Date;
    (** the response of [UrlFetchApp.fetch], or what it throws *)
    fetch : string -> UrlFetchApp.Options -> Outcome UrlFetchApp.HTTPResponse;
    (** [Utilities.base64Encode] and [Utilities.base64Decode] *)
    base64Encode : string -> string;
    base64Decode : string -> Outcome (list Z) }.

(** What a call does to the world outside. *)
Inductive Event : Type :=
| Fetched (uri : string) (options : UrlFetchApp.Options)
| ConsoleError (result : InvokeResult.t).

(** A computation: its outcome and the events it caused, in order. *)
Definition M (A : Type) : Type := (Outcome A * list Event)%type.

Definition ret {A : Type} (a : A) : M A := (Ok a, []).

Definition lift {A : Type} (o : Outcome A) : M A := (o, []).

Definition bind {A B : Type} (m : M A) (k : A -> M B) : M B :=
  match m with
  | (Ok a, t) => let (r, t') := k a in (r, (t ++ t')%list)
  | (Throw e, t) => (Throw e, t)
  end.

Notation "x <- e ;; k" := (bind e (fun x => k))
  (at level 61, e at next level, right associativity).

Definition outcome {A : Type} (m : M A) : Outcome A := fst m.
Definition trace {A : Type} (m : M A) : list Event := snd m.

(** The requests handed to the transport. *)
Fixpoint fetches (t : list Event) : list (string * UrlFetchApp.Options) :=
  match t with
  | [] => []
  | Fetched uri options :: rest => (uri, options) :: fetches rest
  | ConsoleError _ :: rest => fetches rest
  end.

(* ================================================================== *)
(** ** src/config.ts and src/main.ts                                   *)
(* ================================================================== *)

Module AWS.

Module Config.
Record Credentials : Type :=
  { accessKeyId : option string;
    secretAccessKey : option string }.

(** [AWSConfig]; a field the application has set to [null] or [undefined]
    is [None], and so is the [credentials] object. *)
Record AWSConfig : Type :=
  { apiVersions : JS.JSObject string;
    credentials : option Credentials;
    region : option string }.
End Config.

(** [AWS.config] as [src/config.ts] initialises it. *)
Definition config : Config.AWSConfig :=
  {| Config.apiVersions := [("lambda", "2015-03-31")];
     Config.credentials :=
       Some {| Config.accessKeyId := Some ""; Config.secretAccessKey := Some "" |};
     Config.region := Some "us-west-1" |}.

Inductive HttpMethod : Type := get | delete | patch | post | put.

Definition HttpMethod_string (m : HttpMethod) : string :=
  match m with
  | get => "get"
  | delete => "delete"
  | patch => "patch"
  | post => "post"
  | put => "put"
  end.

Definition assert (cond : bool) (msg : string) : Outcome unit :=
  if cond then Ok tt else Throw (error msg).

(** [assert(v != null, msg)], after which [v] is a value. *)
Definition assert_not_null {A : Type} (v : option A) (msg : string) : Outcome A :=
  match v with
  | Some a => Ok a
  | None => Throw (error msg)
  end.

(** [a ?? b]: [b] is evaluated only when [a] is [null] or [undefined]. *)
Definition nullish {A : Type} (a : option A) (b : Outcome (option A))
  : Outcome (option A) :=
  match a with
  | Some _ => Ok a
  | None => b
  end.

Definition calculateSignature
  (key dateStamp regionName serviceName stringToSign : string) : Crypto.value :=
  let HmacSHA256 := Crypto.HmacSHA256 in
  let kDate := HmacSHA256 dateStamp (Crypto.Str ("AWS4" ++ key)) true in
  let kRegion := HmacSHA256 regionName kDate true in
  let kService := HmacSHA256 serviceName kRegion true in
  let kSigning := HmacSHA256 "aws4_request" kService true in
  HmacSHA256 stringToSign kSigning false.

(** *** [DATE_VALUES_REGEX] *)

(** [n] digits at the head of [s], and what follows them. *)
Fixpoint digits (n : nat) (s : string) : option (string * string) :=
  match n with
  | O => Some (EmptyString, s)
  | S n' =>
      match s with
      | String c rest =>
          if JS.is_digit c then
            match digits n' rest with
            | Some (ds, r) => Some (String c ds, r)
            | None => None
            end
          else None
      | EmptyString => None
      end
  end.

Definition lit (c : ascii) (s : string) : option string :=
  match s with
  | String d rest => if Ascii.eqb c d then Some rest else None
  | EmptyString => None
  end.

Definition bindOpt {A B : Type} (o : option A) (k : A -> option B) : option B :=
  match o with
  | Some a => k a
  | None => None
  end.

(** [(\d{4})-(\d{2})-(\d{2})T(\d{2}):(\d{2}):(\d{2})] at the head of [s]: the
    six groups. *)
Definition match_here (s : string) : option (list string) :=
  bindOpt (digits 4 s) (fun '(g1, s) =>
  bindOpt (lit "-" s) (fun s =>
  bindOpt (digits 2 s) (fun '(g2, s) =>
  bindOpt (lit "-" s) (fun s =>
  bindOpt (digits 2 s) (fun '(g3, s) =>
  bindOpt (lit "T" s) (fun s =>
  bindOpt (digits 2 s) (fun '(g4, s) =>
  bindOpt (lit ":" s) (fun s =>
  bindOpt (digits 2 s) (fun '(g5, s) =>
  bindOpt (lit ":" s) (fun s =>
  bindOpt (digits 2 s) (fun '(g6, _) =>
  Some [g1; g2; g3; g4; g5; g6]))))))))))).

(** [DATE_VALUES_REGEX.exec(s)]: the groups of the leftmost match, or
    [null]. *)
Fixpoint DATE_VALUES_REGEX_exec (s : string) : option (list string) :=
  match match_here s with
  | Some groups => Some groups
  | None =>
      match s with
      | EmptyString => None
      | String _ rest => DATE_VALUES_REGEX_exec rest
      end
  end.

(** [match[i]] for [i] in 1..6; on [null] it throws. *)
Definition group (m : option (list string)) (i : nat) : Outcome string :=
  match m with
  | Some groups => Ok (nth (i - 1) groups EmptyString)
  | None => Throw TypeError
  end.

Definition getCanonicalFullDate (date : Date) : Outcome string :=
  let m := DATE_VALUES_REGEX_exec (toISOString date) in
  m1 <~ group m 1 ;; m2 <~ group m 2 ;; m3 <~ group m 3 ;;
  m4 <~ group m 4 ;; m5 <~ group m 5 ;; m6 <~ group m 6 ;;
  Ok (m1 ++ m2 ++ m3 ++ "T" ++ m4 ++ m5 ++ m6 ++ "Z").

Definition getCanonicalShortDate (date : Date) : Outcome string :=
  let m := DATE_VALUES_REGEX_exec (toISOString date) in
  m1 <~ group m 1 ;; m2 <~ group m 2 ;; m3 <~ group m 3 ;;
  Ok (m1 ++ m2 ++ m3).

(** *** [getCanonicalQueryString] *)

(** A value of the query mapping. *)
Inductive qvalue : Type :=
| QString (s : string)
| QNumber (n : JS.SafeInteger)
| QNull
| QUndefined.

(** [query[key]]. *)
Definition query_get (query : JS.JSObject qvalue) (key : string) : qvalue :=
  match JS.get query key with
  | Some v => v
  | None => QUndefined
  end.

(** [query.hasOwnProperty(key)]: an own property of that name hides the
    method of [Object.prototype], and no value of the mapping is a function. *)
Definition hasOwnProperty_call (query : JS.JSObject qvalue) (key : string)
  : Outcome bool :=
  if JS.hasOwn query "hasOwnProperty" then Throw TypeError
  else Ok (JS.hasOwn query key).

(** The [for (key in query)] loop over the enumerable property names. *)
Fixpoint queryParts (query : JS.JSObject qvalue) (names : list string)
  : Outcome (list (string * qvalue)) :=
  match names with
  | [] => Ok []
  | key :: rest =>
      own <~ hasOwnProperty_call query key ;;
      if negb own then queryParts query rest
      else parts <~ queryParts query rest ;; Ok ((key, query_get query key) :: parts)
  end.

(** [String(v)] as [encodeURIComponent] applies it. *)
Definition qvalue_toString (v : qvalue) : string :=
  match v with
  | QString s => s
  | QNumber n => JS.Number_toString n
  | QNull => "null"
  | QUndefined => "undefined"
  end.

Definition not_null (v : qvalue) : bool :=
  match v with
  | QNull | QUndefined => false
  | _ => true
  end.

Definition compare_tokens (a b : string) : Z :=
  if JS.strict_eq a b then 0%Z
  else if JS.gt a b then 1%Z else (-1)%Z.

Definition getCanonicalQueryString (query : JS.JSObject qvalue) : Outcome string :=
  queryParts <~ queryParts query (JS.keys query) ;;
  Ok (JS.join "&"
        (JS.sort compare_tokens
           (map (fun part : string * qvalue =>
                   let value :=
                     if not_null (snd part) then qvalue_toString (snd part)
                     else EmptyString in
                   JS.encodeURIComponent (JS.trim (fst part)) ++ "="
                   ++ JS.encodeURIComponent value)
                queryParts))).

(** *** [getCanonicalRequestHash] *)

Record CanonicalRequestHash : Type :=
  { hashedCanonicalRequest : string;
    signedHeaders : string }.

(** [header => [header[0].trim().toLowerCase(),
                header[1].trim().replace(/\s{2,}/g, ' ')]]: a value that is
    no string has no [trim]. *)
Definition canonical_header (header : string * JS.member)
  : Outcome (string * string) :=
  match snd header with
  | JS.Own value =>
      Ok (JS.toLowerCase (JS.trim (fst header)),
          JS.replace_space_runs (JS.trim value))
  | JS.Inherited _ => Throw TypeError
  end.

Definition compare_headers (a b : string * string) : Z :=
  if JS.strict_eq (fst a) (fst b) then 0%Z
  else if JS.gt (fst a) (fst b) then 1%Z else (-1)%Z.

(** The arrays [canonicalHeaders] and [signedHeaders] as the [forEach] of
    [getCanonicalRequestHash] leaves them. *)
Definition headerArrays (headers : JS.JSObject JS.member)
  : Outcome (list string * list string) :=
  pairs <~ mapO canonical_header headers ;;
  let sorted := JS.sort compare_headers pairs in
  Ok (map (fun header => fst header ++ ":" ++ snd header ++ JS.LF) sorted,
      map (fun header : string * string => fst header) sorted).

(** The [normalizedPath] of [getCanonicalRequestHash]. *)
Definition normalizedPath (path : string) : string :=
  JS.join "/" (map (fun part => JS.encodeURIComponent part) (JS.split "/" path)).

Definition getCanonicalRequestHash
  (method path : string) (headers : JS.JSObject JS.member)
  (queryString payloadString : string) : Outcome CanonicalRequestHash :=
  arrays <~ headerArrays headers ;;
  let canonicalHeaders := fst arrays in
  let signedHeaders := snd arrays in
  let canonicalHeadersStr := JS.join "" canonicalHeaders in
  let signedHeadersStr := JS.join ";" signedHeaders in
  let normalizedPath := normalizedPath path in
  let canonicalRequest :=
    JS.join JS.LF
      [ method; normalizedPath; queryString; canonicalHeadersStr;
        signedHeadersStr; Crypto.SHA256 payloadString ] in
  Ok {| hashedCanonicalRequest := Crypto.SHA256 canonicalRequest;
        signedHeaders := signedHeadersStr |}.

Definition HASH_ALGORITHM : string := "AWS4-HMAC-SHA256".

Definition AWS_SINGLE_ENDPOINT : JS.JSObject string :=
  [ ("cloudfront", "cloudfront.amazonaws.com");
    ("health", "health.us-east-1.amazonaws.com");
    ("iam", "iam.amazonaws.com");
    ("importexport", "importexport.amazonaws.com");
    ("shield", "shield.us-east-1.amazonaws.com");
    ("waf", "waf.amazonaws.com") ].

(** An object that is passed on as JSON, by what [JSON.stringify] gives for
    it. *)
Record object : Type := { JSON_stringify : string }.

(** [payload: string | object] *)
Inductive payload_value : Type :=
| PString (s : string)
| PObject (o : object).

Record RequestParams : Type :=
  { accessKeyId : option string;
    secretAccessKey : option string;
    service : string;
    region : option string;
    path : option string;
    query : option (JS.JSObject qvalue);
    method : option HttpMethod;
    headers : option (JS.JSObject string);
    payload : option payload_value }.

(** [AWS_SINGLE_ENDPOINT[service] ? AWS_SINGLE_ENDPOINT[service]
      : service + '.' + region + '.amazonaws.com'] *)
Definition resolve_host (service region : string) : JS.member :=
  match JS.lookup AWS_SINGLE_ENDPOINT service with
  | Some endpoint =>
      if JS.member_truthy endpoint then endpoint
      else JS.Own (service ++ "." ++ region ++ ".amazonaws.com")
  | None => JS.Own (service ++ "." ++ region ++ ".amazonaws.com")
  end.

(** *** The local constants of [request] *)

(** [AWS.config.credentials.accessKeyId] and
    [AWS.config.credentials.secretAccessKey]: without a [credentials] object
    the property is read from [undefined], which throws. *)
Definition default_credential (cfg : Config.AWSConfig)
  (field : Config.Credentials -> option string) : Outcome (option string) :=
  match Config.credentials cfg with
  | Some credentials => Ok (field credentials)
  | None => Throw TypeError
  end.

(** [params.accessKeyId ?? AWS.config.credentials.accessKeyId] and
    [params.secretAccessKey ?? AWS.config.credentials.secretAccessKey] *)
Definition request_accessKeyId (cfg : Config.AWSConfig) (params : RequestParams)
  : Outcome (option string) :=
  nullish (accessKeyId params) (default_credential cfg Config.accessKeyId).

Definition request_secretAccessKey (cfg : Config.AWSConfig) (params : RequestParams)
  : Outcome (option string) :=
  nullish (secretAccessKey params) (default_credential cfg Config.secretAccessKey).

(** [params.region ? params.region.toLowerCase() : AWS.config.region] *)
Definition request_region (cfg : Config.AWSConfig) (params : RequestParams)
  : option string :=
  match region params with
  | Some r => if JS.truthy r then Some (JS.toLowerCase r) else Config.region cfg
  | None => Config.region cfg
  end.

(** [path]: [params.path ?? '/'], with a slash put before it when it starts
    with none. *)
Definition request_path (params : RequestParams) : string :=
  let path := match path params with Some p => p | None => "/" end in
  if negb (String.eqb (substring 0 1 path) "/") then "/" ++ path else path.

(** [params.query ?? {}] *)
Definition request_query (params : RequestParams) : JS.JSObject qvalue :=
  match query params with Some q => q | None => [] end.

(** [(params.method ?? 'get').toUpperCase()] *)
Definition request_method (params : RequestParams) : string :=
  JS.toUpperCase
    (HttpMethod_string (match method params with Some m => m | None => get end)).

(** [params.headers ?? {}]: the caller's object, whose values are
    strings. *)
Definition request_headers (params : RequestParams) : JS.JSObject JS.member :=
  match headers params with
  | Some h => map (fun kv => (fst kv, JS.Own (snd kv))) h
  | None => []
  end.

(** [payloadString]: [params.payload ?? ''], serialised when it is no
    string. *)
Definition request_payloadString (params : RequestParams) : string :=
  match (match payload params with Some p => p | None => PString "" end) with
  | PString s => s
  | PObject o => JSON_stringify o
  end.

Definition credentialScope (dateStringShort region service : string) : string :=
  dateStringShort ++ "/" ++ region ++ "/" ++ service ++ "/aws4_request".

Definition stringToSign
  (dateStringFull credentialScope hashedCanonicalRequest : string) : string :=
  JS.join JS.LF
    [HASH_ALGORITHM; dateStringFull; credentialScope; hashedCanonicalRequest].

(** The value of [headers['Authorization']]. *)
Definition authorization
  (accessKeyId credentialScope signedHeaders signature : string) : string :=
  JS.join ", "
    [ HASH_ALGORITHM ++ " Credential=" ++ accessKeyId ++ "/" ++ credentialScope;
      "SignedHeaders=" ++ signedHeaders;
      "Signature=" ++ signature ].

(** ['https://' + host + path + (queryString ? '?' + queryString : '')] *)
Definition request_uri (host : JS.member) (path queryString : string) : string :=
  "https://" ++ JS.member_toString host ++ path
  ++ (if JS.truthy queryString then "?" ++ queryString else "").

Section WithRuntime.
Context {RT : Runtime}.

Definition getCurrentDate : Date := new_Date.

(** [UrlFetchApp.fetch(uri, options)] *)
Definition UrlFetchApp_fetch (uri : string) (options : UrlFetchApp.Options)
  : M UrlFetchApp.HTTPResponse :=
  (fetch uri options, [Fetched uri options]).

(** [AWS.request(params)], reading the configuration [cfg]. *)
Definition request (cfg : Config.AWSConfig) (params : RequestParams)
  : M UrlFetchApp.HTTPResponse :=
  accessKeyId <- lift (request_accessKeyId cfg params) ;;
  accessKeyId <- lift (assert_not_null accessKeyId
                         "AWS access key id not specified") ;;
  secretAccessKey <- lift (request_secretAccessKey cfg params) ;;
  secretAccessKey <- lift (assert_not_null secretAccessKey
                             "AWS secret access key not specified") ;;
  service <- lift (assert_not_null (Some (JS.toLowerCase (service params)))
                     "AWS service not specified") ;;
  region <- lift (assert_not_null (request_region cfg params)
                    "AWS region not specified") ;;
  let path := request_path params in
  let query := request_query params in
  let method := request_method params in
  let headers := request_headers params in
  let host := resolve_host service region in
  let payloadString := request_payloadString params in
  let curDate := getCurrentDate in
  dateStringFull <- lift (getCanonicalFullDate curDate) ;;
  dateStringShort <- lift (getCanonicalShortDate curDate) ;;
  queryString <- lift (getCanonicalQueryString query) ;;
  let headers := JS.set headers "Host" host in
  let headers := JS.set headers "X-Amz-Date" (JS.Own dateStringFull) in
  temp <- lift (getCanonicalRequestHash method path headers queryString payloadString) ;;
  let hashedCanonicalRequest := hashedCanonicalRequest temp in
  let signedHeaders := signedHeaders temp in
  let credentialScope := credentialScope dateStringShort region service in
  let stringToSign := stringToSign dateStringFull credentialScope hashedCanonicalRequest in
  let signature :=
    calculateSignature secretAccessKey dateStringShort region service stringToSign in
  let headers :=
    JS.set headers "Authorization"
      (JS.Own (authorization accessKeyId credentialScope signedHeaders
                 (Crypto.toString signature))) in
  let headers := JS.delete headers "Host" in
  let fetchOptions :=
    {| UrlFetchApp.method := method;
       UrlFetchApp.headers := headers;
       UrlFetchApp.muteHttpExceptions := true;
       UrlFetchApp.payload := payloadString |} in
  let uri := request_uri host path queryString in
  UrlFetchApp_fetch uri fetchOptions.

End WithRuntime.

(** *** [AWS.Lambda] *)

Module Lambda.

Inductive invocation_type : Type :=
| InvocationEvent | InvocationRequestResponse | InvocationDryRun.

Inductive log_type : Type := LogNone | LogTail.

Definition InvocationType_string (t : invocation_type) : string :=
  match t with
  | InvocationEvent => "Event"
  | InvocationRequestResponse => "RequestResponse"
  | InvocationDryRun => "DryRun"
  end.

Definition LogType_string (t : log_type) : string :=
  match t with
  | LogNone => "None"
  | LogTail => "Tail"
  end.

Record LambdaInvokeParams : Type :=
  { ClientContext : option object;
    FunctionName : string;
    Payload : payload_value;
    InvocationType : option invocation_type;
    LogType : option log_type;
    Qualifier : option string }.

(** [${value}] in a template literal. *)
Definition template (value : option string) : string :=
  match value with
  | Some s => s
  | None => "undefined"
  end.

(** [if (value) query[name] = value] *)
Definition set_if_truthy (query : JS.JSObject string) (name : string)
  (value : option string) : JS.JSObject string :=
  match value with
  | Some v => if JS.truthy v then JS.set query name v else query
  | None => query
  end.

Definition console_error (result : InvokeResult.t) : M unit :=
  (Ok tt, [ConsoleError result]).

Section WithRuntime.
Context {RT : Runtime}.

(** The [path] of [invoke]. *)
Definition invoke_path (cfg : Config.AWSConfig) (params : LambdaInvokeParams)
  : string :=
  "/" ++ template (JS.get (Config.apiVersions cfg) "lambda") ++ "/functions/"
  ++ JS.encodeURI (FunctionName params) ++ "/invocations".

(** The [query] of [invoke]. *)
Definition invoke_query (params : LambdaInvokeParams) : JS.JSObject string :=
  let query : JS.JSObject string := [] in
  let query :=
    match ClientContext params with
    | Some context =>
        JS.set query "ClientContext" (base64Encode (JSON_stringify context))
    | None => query
    end in
  let query :=
    set_if_truthy query "InvocationType"
      (option_map InvocationType_string (InvocationType params)) in
  let query :=
    set_if_truthy query "LogType" (option_map LogType_string (LogType params)) in
  set_if_truthy query "Qualifier" (Qualifier params).

(** The [requestParams] of [invoke]. *)
Definition requestParams (cfg : Config.AWSConfig) (params : LambdaInvokeParams)
  : RequestParams :=
  let path := invoke_path cfg params in
  let headers := [("Content-Type", "application/json; charset=utf-8")] in
  let query := invoke_query params in
  {| accessKeyId := None;
     secretAccessKey := None;
     service := "lambda";
     region := None;
     path := Some path;
     query := Some (map (fun kv => (fst kv, QString (snd kv))) query);
     method := Some post;
     headers := Some headers;
     payload := Some (Payload params) |}.

(** [logResult ? Utilities.base64Decode(logResult) : undefined] *)
Definition decode_log (logResult : option string) : Outcome (option (list Z)) :=
  match logResult with
  | Some text =>
      if JS.truthy text then bytes <~ base64Decode text ;; Ok (Some bytes)
      else Ok None
  | None => Ok None
  end.

(** [new AWS.Lambda().invoke(params)], reading the configuration [cfg]. *)
Definition invoke (cfg : Config.AWSConfig) (params : LambdaInvokeParams)
  : M InvokeResult.t :=
  response <- request cfg (requestParams cfg params) ;;
  let respCode := UrlFetchApp.getResponseCode response in
  let respHeaders := UrlFetchApp.getAllHeaders response in
  respPayload <- lift (JSONParse.parse (UrlFetchApp.getContentText response)) ;;
  let logResult := JS.get respHeaders "X-Amz-Log-Result" in
  decoded <- lift (decode_log logResult) ;;
  let result :=
    {| InvokeResult.StatusCode := respCode;
       InvokeResult.ExecutedVersion := JS.get respHeaders "X-Amz-Executed-Version";
       InvokeResult.LogResult := decoded;
       InvokeResult.Payload := respPayload |} in
  if (InvokeResult.StatusCode result <? 200)%Z
     || (InvokeResult.StatusCode result >? 299)%Z
  then
    let message :=
      JSON.or_else (JSON.member (InvokeResult.Payload result) "errorMessage")
                   (JSON.member (InvokeResult.Payload result) "message") in
    _ <- console_error result ;;
    lift (Throw (Error message))
  else ret result.

End WithRuntime.

End Lambda.

End AWS.

(* ================================================================== *)
(** ** A reference host                                                *)
(* ================================================================== *)

(** A host to run the code on: standard base64 with padding, a fixed clock
    and a transport that answers every request in the same way. *)
Module Reference.

Local Open Scope N_scope.

Definition b64_char (n : N) : ascii :=
  ascii_of_N
    (if n <? 26 then 65 + n
     else if n <? 52 then 71 + n
     else if n <? 62 then n - 4
     else if n =? 62 then 43 else 47).

Definition b64_value (c : ascii) : option N :=
  let n := JS.code c in
  if JS.is_upper c then Some (n - 65)
  else if JS.is_lower c then Some (n - 71)
  else if JS.is_digit c then Some (n + 4)
  else if n =? 43 then Some 62
  else if n =? 47 then Some 63
  else None.

Definition sextets (x : N) (count : nat) : string :=
  string_of_list_ascii
    (map (fun i => b64_char ((N.shiftr x (6 * N.of_nat i)) mod 64))
         (firstn count [3; 2; 1; 0]%nat)).

Fixpoint b64_encode (octets : list N) : string :=
  match octets with
  | [] => EmptyString
  | [a] => (sextets (a * 65536) 2 ++ "==")%string
  | [a; b] => (sextets (a * 65536 + b * 256) 3 ++ "=")%string
  | a :: b :: c :: rest =>
      (sextets (a * 65536 + b * 256 + c) 4 ++ b64_encode rest)%string
  end.

(** An octet as a Java [byte]. *)
Definition signed (octet : N) : Z :=
  if octet <? 128 then Z.of_N octet else (Z.of_N octet - 256)%Z.

Definition octets_of (x : N) (count : nat) : list Z :=
  map (fun i => signed ((N.shiftr x (8 * N.of_nat i)) mod 256))
      (firstn count [2; 1; 0]%nat).

Definition is_pad (c : ascii) : bool := JS.code c =? 61.

Fixpoint b64_decode (s : string) : option (list Z) :=
  match s with
  | EmptyString => Some []
  | String c1 (String c2 (String c3 (String c4 rest))) =>
      match b64_value c1, b64_value c2 with
      | Some v1, Some v2 =>
          if is_pad c3 && is_pad c4 && JS.is_empty rest then
            Some (octets_of (v1 * 262144 + v2 * 4096) 1)
          else
            match b64_value c3 with
            | None => None
            | Some v3 =>
                if is_pad c4 && JS.is_empty rest then
                  Some (octets_of (v1 * 262144 + v2 * 4096 + v3 * 64) 2)
                else
                  match b64_value c4, b64_decode rest with
                  | Some v4, Some more =>
                      Some (octets_of (v1 * 262144 + v2 * 4096 + v3 * 64 + v4) 3
                            ++ more)%list
                  | _, _ => None
                  end
            end
      | _, _ => None
      end
  | _ => None
  end.

Definition runtime (now : string)
  (answer : Outcome UrlFetchApp.HTTPResponse) : Runtime :=
  {| new_Date := {| toISOString := now |};
     fetch := fun _ _ => answer;
     base64Encode := fun s => b64_encode (JS.utf8 s);
     base64Decode := fun s =>
       match b64_decode s with
       | Some octets => Ok octets
       | None => Throw (HostError "base64Decode")
       end |}.

End Reference.

(* ================================================================== *)
(** ** The specification's own formulations                            *)
(* ================================================================== *)

(** The functions of sections 4.1 and 4.2 of the specification, written
    after its words; the theorems below compare them with the code. *)
Module Spec.

Definition HMAC_SHA256 (key data : list N) : list N := Crypto.hmac_sha256 key data.

(** [deriveSigningKey(secretKey, dateStampShort, region, service)] *)
Definition deriveSigningKey (secretKey dateStampShort region service : string)
  : list N :=
  let key0 := JS.utf8 ("AWS4" ++ secretKey) in
  let kDate := HMAC_SHA256 key0 (JS.utf8 dateStampShort) in
  let kRegion := HMAC_SHA256 kDate (JS.utf8 region) in
  let kService := HMAC_SHA256 kRegion (JS.utf8 service) in
  HMAC_SHA256 kService (JS.utf8 "aws4_request").

(** [signature(stringToSign, signingKey)] *)
Definition signature (stringToSign : string) (signingKey : list N) : string :=
  Crypto.bytesToHex (HMAC_SHA256 signingKey (JS.utf8 stringToSign)).

Definition is_lower_hex (c : ascii) : bool := JS.is_digit c || JS.between 97 102 c.

(** Byte-wise comparison, as a comparator. *)
Definition bytewise (a b : string) : Z :=
  match String.compare a b with
  | Lt => (-1)%Z
  | Eq => 0%Z
  | Gt => 1%Z
  end.

(** [canonicalQueryString(query)] *)
Definition query_token (pair : string * AWS.qvalue) : string :=
  let value :=
    match snd pair with
    | AWS.QNull | AWS.QUndefined => EmptyString
    | v => AWS.qvalue_toString v
    end in
  JS.encodeURIComponent (JS.trim (fst pair)) ++ "=" ++ JS.encodeURIComponent value.

Definition canonicalQueryString (query : JS.JSObject AWS.qvalue) : string :=
  JS.join "&" (JS.sort bytewise (map query_token query)).

(** [canonicalHeaders(headers)] *)
Definition canonical_pair (header : string * string) : string * string :=
  (JS.trim (JS.toLowerCase (fst header)),
   JS.replace_space_runs (JS.trim (snd header))).

Definition sorted_pairs (headers : JS.JSObject string) : list (string * string) :=
  JS.sort (fun a b => bytewise (fst a) (fst b)) (map canonical_pair headers).

Definition header_line (p : string * string) : string :=
  fst p ++ ":" ++ snd p ++ JS.LF.

Definition canonicalHeaders (headers : JS.JSObject string) : string :=
  String.concat EmptyString (map header_line (sorted_pairs headers)).

Definition signedHeaders (headers : JS.JSObject string) : string :=
  JS.join ";" (map fst (sorted_pairs headers)).

(** [normalizedPath(path)] *)
Definition normalizedPath (path : string) : string :=
  JS.join "/" (map JS.encodeURIComponent (JS.split "/" path)).

(** [canonicalRequestHash(method, path, headers, queryString, payload)] *)
Definition canonicalRequest
  (method path : string) (headers : JS.JSObject string)
  (queryString payload : string) : string :=
  JS.join JS.LF
    [ method; normalizedPath path; queryString; canonicalHeaders headers;
      signedHeaders headers; Crypto.SHA256 payload ].

Definition canonicalRequestHash
  (method path : string) (headers : JS.JSObject string)
  (queryString payload : string) : string * string :=
  (Crypto.SHA256 (canonicalRequest method path headers queryString payload),
   signedHeaders headers).

(** The unreserved characters of RFC 3986. *)
Definition unreserved (c : ascii) : bool := JS.is_alnum c || JS.char_in "-._~" c.

Definition path_char (c : ascii) : bool := unreserved c || Ascii.eqb c "/".

(** Two keys that differ only by letter case. *)
Definition differ_only_by_case (k1 k2 : string) : Prop :=
  k1 <> k2 /\ JS.toLowerCase k1 = JS.toLowerCase k2.

(** A caller's header mapping, as [request] holds it. *)
Definition own (headers : JS.JSObject string) : JS.JSObject JS.member :=
  map (fun kv => (fst kv, JS.Own (snd kv))) headers.

(** "Duplicate keys differing only by case collapse to one entry", for one
    header mapping: the name of two such keys is signed once. *)
Definition collapses (headers : JS.JSObject string) : Prop :=
  forall k1 k2 signed block,
    In k1 (JS.keys headers) -> In k2 (JS.keys headers) ->
    differ_only_by_case k1 k2 ->
    AWS.headerArrays (own headers) = Ok (block, signed) ->
    count_occ string_dec signed (JS.toLowerCase (JS.trim k1)) = 1%nat.

(** White space only, at least two characters of it. *)
Definition space_run (w : string) : Prop :=
  JS.sforall JS.is_space w = true /\ (2 <= String.length w)%nat.

(** No white space at the end, none at the start. *)
Definition no_trailing_space (s : string) : Prop := JS.trimEnd s = s.
Definition no_leading_space (s : string) : Prop := JS.trimStart s = s.

(** The order of the canonical headers: by name. *)
Definition name_le (a b : string * string) : Prop :=
  String.compare (fst a) (fst b) <> Gt.

(** The default of a credential, when the configuration gives one. *)
Definition default_of (cfg : AWS.Config.AWSConfig)
  (field : AWS.Config.Credentials -> option string) : option string :=
  match AWS.Config.credentials cfg with
  | Some credentials => field credentials
  | None => None
  end.

(** A credential that neither the call nor the configuration gives. *)
Definition credential_missing (cfg : AWS.Config.AWSConfig) (params : AWS.RequestParams)
  : Prop :=
  (AWS.accessKeyId params = None /\ default_of cfg AWS.Config.accessKeyId = None)
  \/ (AWS.secretAccessKey params = None
      /\ default_of cfg AWS.Config.secretAccessKey = None).

(** The errors the spec calls [ConfigurationError], for a credential. *)
Definition credentials_error (e : exn) : Prop :=
  e = error "AWS access key id not specified"
  \/ e = error "AWS secret access key not specified".

(** [cfg] with another [credentials] object, or with none. *)
Definition with_credentials (creds : option AWS.Config.Credentials)
  (cfg : AWS.Config.AWSConfig) : AWS.Config.AWSConfig :=
  {| AWS.Config.apiVersions := AWS.Config.apiVersions cfg;
     AWS.Config.credentials := creds;
     AWS.Config.region := AWS.Config.region cfg |}.

(** [cfg] with another default access key id, with another default secret
    access key: the other field of the [credentials] object stays. *)
Definition with_accessKeyId (default : option string) (cfg : AWS.Config.AWSConfig)
  : AWS.Config.AWSConfig :=
  with_credentials
    (option_map
       (fun c => {| AWS.Config.accessKeyId := default;
                    AWS.Config.secretAccessKey := AWS.Config.secretAccessKey c |})
       (AWS.Config.credentials cfg))
    cfg.

Definition with_secretAccessKey (default : option string)
  (cfg : AWS.Config.AWSConfig) : AWS.Config.AWSConfig :=
  with_credentials
    (option_map
       (fun c => {| AWS.Config.accessKeyId := AWS.Config.accessKeyId c;
                    AWS.Config.secretAccessKey := default |})
       (AWS.Config.credentials cfg))
    cfg.

(** Exactly [n] digits. *)
Definition digits_of_length (n : nat) (s : string) : Prop :=
  String.length s = n /\ JS.sforall JS.is_digit s = true.

(** No two white space characters in a row. *)
Fixpoint no_space_run (s : string) : bool :=
  match s with
  | String c ((String d _) as rest) =>
      negb (JS.is_space c && JS.is_space d) && no_space_run rest
  | _ => true
  end.

(** The HTTP methods, as the transport takes them. *)
Definition methods : list string := ["GET"; "DELETE"; "PATCH"; "POST"; "PUT"].

(** The status codes of success. *)
Definition is_2xx (code : Z) : bool := ((200 <=? code) && (code <=? 299))%Z.

End Spec.

(* ================================================================== *)
(** ** Predicates of the statements                                    *)
(* ================================================================== *)

(** An octet. *)
Definition octet (b : N) : Prop := (b < 256)%N.

(** [a] may stand before [b] in an array sorted with the comparator
    [cmp]. *)
Definition cmp_le {A : Type} (cmp : A -> A -> Z) (a b : A) : Prop :=
  (cmp a b <= 0)%Z.

(** The characters a path keeps: those [encodeURIComponent] leaves alone,
    and the slash. *)
Definition path_kept (c : ascii) : bool := JS.uri_unescaped c || Ascii.eqb c "/".

(** What one character of a path becomes: itself when it is kept, its
    percent escape otherwise. *)
Definition path_escape (c : ascii) : string :=
  if path_kept c then String c EmptyString else JS.escape_char c.

(* ================================================================== *)
(** ** Sample inputs                                                   *)
(* ================================================================== *)

(** Concrete calls, configurations and answers of the transport, on which
    the statements below are run. *)
Module Sample.

Definition now : string := "2015-08-30T12:36:00.000Z".

(** The double quote. *)
Definition dq : string := String (ascii_of_N 34) EmptyString.

(** [{"errorMessage":"not found"}] *)
Definition not_found_body : string :=
  "{" ++ dq ++ "errorMessage" ++ dq ++ ":" ++ dq ++ "not found" ++ dq ++ "}".

Definition response (code : Z) (headers : JS.JSObject string) (body : string)
  : UrlFetchApp.HTTPResponse :=
  {| UrlFetchApp.getResponseCode := code;
     UrlFetchApp.getAllHeaders := headers;
     UrlFetchApp.getContentText := body |}.

(** A host whose transport answers [404] with the body above. *)
Definition host_404 : Runtime :=
  Reference.runtime now
    (Ok (response 404 [("X-Amz-Executed-Version", "$LATEST")] not_found_body)).

(** A host whose transport answers [202] with an empty body, as the
    service does to an [Event] invocation. *)
Definition host_202 : Runtime :=
  Reference.runtime now (Ok (response 202 [] EmptyString)).

(** A host whose transport answers [200] with the body [{"ok":true}] and a
    log tail. *)
Definition host_200 : Runtime :=
  Reference.runtime now
    (Ok (response 200
           [("X-Amz-Executed-Version", "7"); ("X-Amz-Log-Result", "aGk=")]
           ("{" ++ dq ++ "ok" ++ dq ++ ":true}"))).

(** A configuration without credentials. *)
Definition unconfigured : AWS.Config.AWSConfig :=
  {| AWS.Config.apiVersions := [("lambda", "2015-03-31")];
     AWS.Config.credentials :=
       Some {| AWS.Config.accessKeyId := None; AWS.Config.secretAccessKey := None |};
     AWS.Config.region := Some "us-west-1" |}.

(** A configuration without [credentials] object. *)
Definition without_credentials : AWS.Config.AWSConfig :=
  {| AWS.Config.apiVersions := [("lambda", "2015-03-31")];
     AWS.Config.credentials := None;
     AWS.Config.region := Some "us-west-1" |}.

(** A configuration with credentials and no default region. *)
Definition regionless : AWS.Config.AWSConfig :=
  {| AWS.Config.apiVersions := [("lambda", "2015-03-31")];
     AWS.Config.credentials :=
       Some {| AWS.Config.accessKeyId := Some "AKIDEXAMPLE";
               AWS.Config.secretAccessKey := Some "secret" |};
     AWS.Config.region := None |}.

(** [AWS.request({ service, payload: '' })] *)
Definition call (service : string) : AWS.RequestParams :=
  {| AWS.accessKeyId := None;
     AWS.secretAccessKey := None;
     AWS.service := service;
     AWS.region := None;
     AWS.path := None;
     AWS.query := None;
     AWS.method := None;
     AWS.headers := None;
     AWS.payload := Some (AWS.PString "") |}.

(** A call with credentials, a region, a query and headers of its own. *)
Definition signed_call : AWS.RequestParams :=
  {| AWS.accessKeyId := Some "AKIDEXAMPLE";
     AWS.secretAccessKey := Some "wJalrXUtnFEMI/K7MDENG+bPxRfiCYEXAMPLEKEY";
     AWS.service := "Lambda";
     AWS.region := Some "US-WEST-2";
     AWS.path := Some "2015-03-31/functions/foo/invocations";
     AWS.query :=
       Some [("b", AWS.QNumber (JS.number 2 eq_refl));
             ("a", AWS.QNumber (JS.number 1 eq_refl))];
     AWS.method := Some AWS.post;
     AWS.headers := Some [("Content-Type", "application/json"); ("Host", "example.org")];
     AWS.payload := Some (AWS.PString "{}") |}.

(** [new AWS.Lambda().invoke({ FunctionName: 'foo', Payload: '{}' })] *)
Definition invocation : AWS.Lambda.LambdaInvokeParams :=
  {| AWS.Lambda.ClientContext := None;
     AWS.Lambda.FunctionName := "foo";
     AWS.Lambda.Payload := AWS.PString "{}";
     AWS.Lambda.InvocationType := None;
     AWS.Lambda.LogType := None;
     AWS.Lambda.Qualifier := None |}.

(** [new AWS.Lambda().invoke({ FunctionName: 'foo', Payload: '{}',
      InvocationType: 'Event' })] *)
Definition event_invocation : AWS.Lambda.LambdaInvokeParams :=
  {| AWS.Lambda.ClientContext := None;
     AWS.Lambda.FunctionName := "foo";
     AWS.Lambda.Payload := AWS.PString "{}";
     AWS.Lambda.InvocationType := Some AWS.Lambda.InvocationEvent;
     AWS.Lambda.LogType := None;
     AWS.Lambda.Qualifier := None |}.


(** A host whose transport answers [502] with a page of a gateway. *)
Definition host_502 : Runtime :=
  Reference.runtime now (Ok (response 502 [] "<html>Bad Gateway</html>")).

(** A host whose transport answers [500] with the body
    [{"errorMessage":1e-400,"message":"m"}], whose first number is read as
    zero. *)
Definition host_500 : Runtime :=
  Reference.runtime now
    (Ok (response 500 []
           ("{" ++ dq ++ "errorMessage" ++ dq ++ ":1e-400," ++ dq ++ "message"
            ++ dq ++ ":" ++ dq ++ "m" ++ dq ++ "}"))).

(** A host whose transport throws. *)
Definition host_down : Runtime :=
  Reference.runtime now (Throw (HostError "Address unavailable")).

End Sample.

(* ================================================================== *)
(** ** Properties                                                      *)
(* ================================================================== *)

Section StringFacts.

Lemma append_empty_r (s : string) : s ++ "" = s.
Proof. induction s as [|c s IH]; simpl; [reflexivity | now rewrite IH]. Qed.

Lemma append_assoc (a b c : string) : (a ++ b) ++ c = a ++ (b ++ c).
Proof. induction a as [|x a IH]; simpl; [reflexivity | now rewrite IH]. Qed.

Lemma length_append (a b : string) :
  String.length (a ++ b) = (String.length a + String.length b)%nat.
Proof. induction a as [|x a IH]; simpl; [reflexivity | now rewrite IH]. Qed.

Lemma sforall_append (p : ascii -> bool) (a b : string) :
  JS.sforall p (a ++ b) = JS.sforall p a && JS.sforall p b.
Proof.
  induction a as [|x a IH]; simpl; [reflexivity |].
  now rewrite IH, andb_assoc.
Qed.

Lemma length_string_of_list_ascii (l : list ascii) :
  String.length (string_of_list_ascii l) = List.length l.
Proof. induction l as [|x l IH]; simpl; [reflexivity | now rewrite IH]. Qed.

End StringFacts.

Section DigestFacts.

Local Open Scope N_scope.

Lemma hex_lower_is_hex (n : N) : n < 16 -> Spec.is_lower_hex (JS.hex_lower n) = true.
Proof.
  intros H. destruct n as [|p]; [reflexivity |].
  do 4 (try destruct p as [p | p |]); try reflexivity; exfalso; lia.
Qed.

Lemma bytesToHex_length (octets : list N) :
  String.length (Crypto.bytesToHex octets) = (2 * List.length octets)%nat.
Proof.
  unfold Crypto.bytesToHex. rewrite length_string_of_list_ascii.
  induction octets as [|b l IH]; simpl; [reflexivity | rewrite IH; lia].
Qed.

Lemma bytesToHex_lower (octets : list N) :
  Forall octet octets ->
  JS.sforall Spec.is_lower_hex (Crypto.bytesToHex octets) = true.
Proof.
  unfold Crypto.bytesToHex.
  induction 1 as [|b l Hb _ IH]; simpl; [reflexivity |].
  unfold octet in Hb.
  rewrite !hex_lower_is_hex, IH; [reflexivity | |].
  - apply N.mod_lt; lia.
  - apply N.Div0.div_lt_upper_bound; lia.
Qed.

Lemma be_octets_4 (x : N) : Forall octet (Crypto.be_octets 4 x).
Proof.
  unfold Crypto.be_octets. apply Forall_forall. intros y Hy.
  apply in_map_iff in Hy. destruct Hy as (i & <- & _).
  unfold octet. apply N.mod_lt. lia.
Qed.

Lemma sha256_octets (msg : list N) :
  List.length (Crypto.sha256 msg) = 32%nat /\ Forall octet (Crypto.sha256 msg).
Proof.
  unfold Crypto.sha256.
  generalize (fold_left Crypto.compress
                (Crypto.blocks (List.length (Crypto.words (Crypto.pad msg)))
                   (Crypto.words (Crypto.pad msg))) Crypto.H0).
  intros s. unfold Crypto.state_octets. split.
  - cbn [flat_map]. rewrite !length_app. unfold Crypto.be_octets.
    rewrite !length_map, !length_rev, !length_seq. reflexivity.
  - apply Forall_flat_map, Forall_forall. intros x _. apply be_octets_4.
Qed.

Lemma hmac_sha256_octets (key data : list N) :
  List.length (Crypto.hmac_sha256 key data) = 32%nat
  /\ Forall octet (Crypto.hmac_sha256 key data).
Proof. unfold Crypto.hmac_sha256. apply sha256_octets. Qed.

End DigestFacts.

(** C1. For every secret key, date stamp, region, service and
    string-to-sign, [calculateSignature] is the chain kDate, kRegion,
    kService, kSigning of HMAC-SHA256, keyed first with the UTF-8 octets of
    "AWS4" followed by the secret key, every intermediate digest passed on
    as octets, and its result is the hex rendering of
    HMAC-SHA256(kSigning, stringToSign): 64 characters among 0-9 and a-f. *)
Theorem calculateSignature_is_the_hmac_chain
  (key dateStamp regionName serviceName stringToSign : string) :
  let kSigning := Spec.deriveSigningKey key dateStamp regionName serviceName in
  AWS.calculateSignature key dateStamp regionName serviceName stringToSign
    = Crypto.Str (Spec.signature stringToSign kSigning)
  /\ String.length (Spec.signature stringToSign kSigning) = 64%nat
  /\ JS.sforall Spec.is_lower_hex (Spec.signature stringToSign kSigning) = true.
Proof.
  intros kSigning. subst kSigning. split.
  { unfold AWS.calculateSignature, Spec.signature, Spec.deriveSigningKey,
      Spec.HMAC_SHA256, Crypto.HmacSHA256, Crypto.toBytes.
    reflexivity. }
  unfold Spec.signature, Spec.HMAC_SHA256.
  set (kSigning := Spec.deriveSigningKey key dateStamp regionName serviceName).
  destruct (hmac_sha256_octets kSigning (JS.utf8 stringToSign)) as [Hlen Hoct].
  split.
  - now rewrite bytesToHex_length, Hlen.
  - now apply bytesToHex_lower.
Qed.

(* ------------------------------------------------------------------ *)
(** *** Sorting *)

Section SortFacts.
Context {A : Type}.
Variable cmp : A -> A -> Z.

Lemma insert_permutation (x : A) (l : list A) :
  Permutation (JS.insert cmp x l) (x :: l).
Proof.
  induction l as [|y l IH]; simpl; [reflexivity |].
  destruct (cmp x y <=? 0)%Z; [reflexivity |].
  rewrite IH. apply perm_swap.
Qed.

Lemma sort_permutation (l : list A) : Permutation (JS.sort cmp l) l.
Proof.
  induction l as [|x l IH]; simpl; [reflexivity |].
  rewrite insert_permutation. now constructor.
Qed.

Lemma sort_length (l : list A) : List.length (JS.sort cmp l) = List.length l.
Proof. apply Permutation_length, sort_permutation. Qed.

Hypothesis cmp_total : forall a b, cmp_le cmp a b \/ cmp_le cmp b a.

Lemma insert_sorted (x : A) (l : list A) :
  Sorted (cmp_le cmp) l -> Sorted (cmp_le cmp) (JS.insert cmp x l).
Proof.
  induction 1 as [|y l Hs IH Hd]; simpl.
  - repeat constructor.
  - destruct (Z.leb_spec (cmp x y) 0) as [Hle | Hgt].
    + constructor; [now constructor | now constructor].
    + constructor; [exact IH |].
      assert (Hyx : cmp_le cmp y x).
      { destruct (cmp_total x y) as [H | H]; [unfold cmp_le in H; lia | exact H]. }
      destruct Hd as [|z l Hyz]; simpl.
      * now constructor.
      * destruct (cmp x z <=? 0)%Z; now constructor.
Qed.

Lemma sort_sorted (l : list A) : Sorted (cmp_le cmp) (JS.sort cmp l).
Proof.
  induction l as [|x l IH]; simpl; [constructor | now apply insert_sorted].
Qed.

Hypothesis cmp_trans : forall a b c, cmp_le cmp a b -> cmp_le cmp b c -> cmp_le cmp a c.
Hypothesis cmp_antisym : forall a b, cmp_le cmp a b -> cmp_le cmp b a -> a = b.

Lemma insert_swap (x y : A) (l : list A) :
  JS.insert cmp x (JS.insert cmp y l) = JS.insert cmp y (JS.insert cmp x l).
Proof.
  induction l as [|a l IH]; simpl.
  - destruct (Z.leb_spec (cmp x y) 0) as [Hxy | Hxy];
      destruct (Z.leb_spec (cmp y x) 0) as [Hyx | Hyx]; try reflexivity.
    + now rewrite (cmp_antisym x y Hxy Hyx).
    + destruct (cmp_total x y) as [H | H]; unfold cmp_le in H; lia.
  - destruct (Z.leb_spec (cmp y a) 0) as [Hya | Hya];
      destruct (Z.leb_spec (cmp x a) 0) as [Hxa | Hxa]; simpl.
    + destruct (Z.leb_spec (cmp x y) 0) as [Hxy | Hxy];
        destruct (Z.leb_spec (cmp y x) 0) as [Hyx | Hyx].
      * now rewrite (cmp_antisym x y Hxy Hyx).
      * destruct (Z.leb_spec (cmp y a) 0); [reflexivity | lia].
      * destruct (Z.leb_spec (cmp x a) 0); [reflexivity | lia].
      * destruct (cmp_total x y) as [H | H]; unfold cmp_le in H; lia.
    + destruct (Z.leb_spec (cmp x y) 0) as [Hxy | Hxy].
      * pose proof (cmp_trans x y a Hxy Hya) as H. unfold cmp_le in H. lia.
      * simpl. destruct (Z.leb_spec (cmp x a) 0); [lia |].
        destruct (Z.leb_spec (cmp y a) 0); [reflexivity | lia].
    + destruct (Z.leb_spec (cmp y x) 0) as [Hyx | Hyx].
      * pose proof (cmp_trans y x a Hyx Hxa) as H. unfold cmp_le in H. lia.
      * simpl. destruct (Z.leb_spec (cmp y a) 0); [lia |].
        destruct (Z.leb_spec (cmp x a) 0); [reflexivity | lia].
    + destruct (Z.leb_spec (cmp x a) 0); [lia |].
      destruct (Z.leb_spec (cmp y a) 0); [lia |].
      now rewrite IH.
Qed.

Lemma sort_of_permutation (l1 l2 : list A) :
  Permutation l1 l2 -> JS.sort cmp l1 = JS.sort cmp l2.
Proof.
  induction 1 as [| x l1 l2 _ IH | x y l | l1 l2 l3 _ IH1 _ IH2]; simpl.
  - reflexivity.
  - now rewrite IH.
  - apply insert_swap.
  - now rewrite IH1.
Qed.

End SortFacts.

Lemma sort_ext {A : Type} (cmp1 cmp2 : A -> A -> Z) (l : list A) :
  (forall a b, (cmp1 a b <=? 0)%Z = (cmp2 a b <=? 0)%Z) ->
  JS.sort cmp1 l = JS.sort cmp2 l.
Proof.
  intros H. induction l as [|x l IH]; simpl; [reflexivity |].
  rewrite IH. generalize (JS.sort cmp2 l). intros s.
  induction s as [|y s IHs]; simpl; [reflexivity |].
  now rewrite H, IHs.
Qed.

(* ------------------------------------------------------------------ *)
(** *** The order of strings *)

Lemma ascii_compare_refl (c : ascii) : Ascii.compare c c = Eq.
Proof. unfold Ascii.compare. apply N.compare_refl. Qed.

Lemma string_compare_refl (s : string) : String.compare s s = Eq.
Proof.
  induction s as [|c s IH]; simpl; [reflexivity |].
  now rewrite ascii_compare_refl.
Qed.

Lemma string_compare_eq (a b : string) : String.compare a b = Eq <-> a = b.
Proof.
  split; [apply String.compare_eq_iff | intros ->; apply string_compare_refl].
Qed.

Lemma string_le_trans (a b c : string) :
  String.compare a b <> Gt -> String.compare b c <> Gt -> String.compare a c <> Gt.
Proof.
  revert b c. induction a as [|x a IH]; intros [|y b] [|z c]; simpl;
    try congruence.
  unfold Ascii.compare.
  destruct (N.compare_spec (N_of_ascii x) (N_of_ascii y)) as [Exy | Lxy | Gxy];
    destruct (N.compare_spec (N_of_ascii y) (N_of_ascii z)) as [Eyz | Lyz | Gyz];
    destruct (N.compare_spec (N_of_ascii x) (N_of_ascii z)) as [Exz | Lxz | Gxz];
    try congruence; try lia; intros H1 H2.
  now apply (IH b c).
Qed.

Lemma string_le_total (a b : string) :
  String.compare a b <> Gt \/ String.compare b a <> Gt.
Proof.
  rewrite (String.compare_antisym b a).
  destruct (String.compare a b); simpl; intuition congruence.
Qed.

Lemma string_le_antisym (a b : string) :
  String.compare a b <> Gt -> String.compare b a <> Gt -> a = b.
Proof.
  intros H1 H2. apply String.compare_eq_iff.
  rewrite (String.compare_antisym b a) in H2.
  destruct (String.compare a b); simpl in *; congruence.
Qed.

(** The comparator of [getCanonicalQueryString] is byte-wise comparison. *)
Lemma compare_tokens_bytewise (a b : string) :
  AWS.compare_tokens a b = Spec.bytewise a b.
Proof.
  unfold AWS.compare_tokens, Spec.bytewise, JS.strict_eq, JS.gt.
  destruct (String.eqb_spec a b) as [-> | Hne].
  - now rewrite string_compare_refl.
  - destruct (String.compare a b) eqn:E; try reflexivity.
    apply String.compare_eq_iff in E. contradiction.
Qed.

Lemma bytewise_le (a b : string) :
  cmp_le Spec.bytewise a b <-> String.compare a b <> Gt.
Proof.
  unfold cmp_le, Spec.bytewise.
  destruct (String.compare a b); split; intros H; try lia; congruence.
Qed.

Lemma sort_tokens_of_permutation (l1 l2 : list string) :
  Permutation l1 l2 -> JS.sort Spec.bytewise l1 = JS.sort Spec.bytewise l2.
Proof.
  apply sort_of_permutation.
  - intros a b. rewrite !bytewise_le. apply string_le_total.
  - intros a b c. rewrite !bytewise_le. apply string_le_trans.
  - intros a b. rewrite !bytewise_le. apply string_le_antisym.
Qed.

(* ------------------------------------------------------------------ *)
(** *** Splitting, joining, percent-encoding *)

Ltac each_char c :=
  destruct c as [[] [] [] [] [] [] [] []].

Lemma split_not_empty (sep : ascii) (s : string) : JS.split sep s <> [].
Proof.
  destruct s as [|c s]; simpl; [discriminate |].
  destruct (Ascii.eqb c sep); [discriminate |].
  destruct (JS.split sep s); discriminate.
Qed.

Lemma join_split (sep : ascii) (s : string) :
  JS.join (String sep EmptyString) (JS.split sep s) = s.
Proof.
  unfold JS.join. induction s as [|c s IH]; [reflexivity |].
  simpl. destruct (Ascii.eqb_spec c sep) as [-> | Hne].
  - pose proof (split_not_empty sep s) as Hs.
    destruct (JS.split sep s) as [|seg segs]; [contradiction |].
    cbn [String.concat]. cbn [String.concat] in IH. rewrite IH. reflexivity.
  - pose proof (split_not_empty sep s) as Hs.
    destruct (JS.split sep s) as [|seg segs]; [contradiction |].
    cbn [String.concat] in *. destruct segs as [|seg' segs].
    + now rewrite IH.
    + rewrite <- IH. reflexivity.
Qed.

Lemma split_segments (p : ascii -> bool) (sep : ascii) (s : string) :
  JS.sforall (fun c => p c || Ascii.eqb c sep) s = true ->
  Forall (fun seg => JS.sforall p seg = true) (JS.split sep s).
Proof.
  induction s as [|c s IH]; simpl; intros H.
  - repeat constructor.
  - apply andb_true_iff in H. destruct H as [Hc Hs]. specialize (IH Hs).
    destruct (Ascii.eqb c sep) eqn:E.
    + constructor; [reflexivity | exact IH].
    + rewrite orb_false_r in Hc.
      destruct (JS.split sep s) as [|seg segs]; [repeat constructor; simpl; now rewrite Hc |].
      inversion IH as [|? ? Hseg Hsegs]; subst.
      constructor; [simpl; now rewrite Hc, Hseg | exact Hsegs].
Qed.

Lemma encodeURIComponent_unescaped (s : string) :
  JS.sforall JS.uri_unescaped s = true -> JS.encodeURIComponent s = s.
Proof.
  unfold JS.encodeURIComponent.
  induction s as [|c s IH]; simpl; [reflexivity |]. intros H.
  apply andb_true_iff in H. destruct H as [Hc Hs].
  now rewrite Hc, IH.
Qed.

Lemma unreserved_unescaped (c : ascii) :
  Spec.unreserved c = true -> JS.uri_unescaped c = true.
Proof.
  each_char c; cbv; intros H; (reflexivity || discriminate H).
Qed.

Lemma sforall_impl (p q : ascii -> bool) (s : string) :
  (forall c, p c = true -> q c = true) ->
  JS.sforall p s = true -> JS.sforall q s = true.
Proof.
  intros Hpq. induction s as [|c s IH]; simpl; [reflexivity |]. intros H.
  apply andb_true_iff in H. destruct H as [Hc Hs].
  now rewrite (Hpq c Hc), IH.
Qed.

Lemma map_fixed {A : Type} (f : A -> A) (l : list A) :
  Forall (fun x => f x = x) l -> map f l = l.
Proof. induction 1 as [|x l Hx _ IH]; simpl; [reflexivity | now rewrite Hx, IH]. Qed.

Lemma normalizedPath_unescaped (path : string) :
  JS.sforall (fun c => JS.uri_unescaped c || Ascii.eqb c "/") path = true ->
  AWS.normalizedPath path = path.
Proof.
  intros H. unfold AWS.normalizedPath.
  rewrite map_fixed; [apply join_split |].
  eapply Forall_impl; [| apply (split_segments JS.uri_unescaped), H].
  intros seg. apply encodeURIComponent_unescaped.
Qed.

(** C7. On a path made of unreserved characters and slashes the path
    normalisation of [getCanonicalRequestHash] changes nothing, so applying
    it twice is applying it once. *)
Theorem normalizedPath_idempotent_on_unreserved (p : string) :
  JS.sforall Spec.path_char p = true ->
  AWS.normalizedPath p = p
  /\ AWS.normalizedPath (AWS.normalizedPath p) = AWS.normalizedPath p.
Proof.
  intros H.
  assert (E : AWS.normalizedPath p = p).
  { apply normalizedPath_unescaped. revert H. apply sforall_impl.
    intros c. unfold Spec.path_char. rewrite !orb_true_iff.
    intros [Hc | Hc]; [left; now apply unreserved_unescaped | now right]. }
  now rewrite !E.
Qed.

Lemma normalizedPath_idempotent_on_unreserved_witness :
  JS.sforall Spec.path_char "/2015-03-31/functions/my_fn~1//invocations/" = true
  /\ AWS.normalizedPath "/2015-03-31/functions/my_fn~1//invocations/"
     = "/2015-03-31/functions/my_fn~1//invocations/".
Proof.
  split; [reflexivity |].
  apply (normalizedPath_idempotent_on_unreserved
           "/2015-03-31/functions/my_fn~1//invocations/").
  reflexivity.
Defined.

(* ------------------------------------------------------------------ *)
(** *** White space: [trim] and [replace(/\s{2,}/g, ' ')] *)

Lemma rsr_nonspace (c : ascii) (s : string) :
  JS.is_space c = false ->
  JS.replace_space_runs (String c s) = String c (JS.replace_space_runs s).
Proof. intros H. cbn [JS.replace_space_runs]. now rewrite H. Qed.

Lemma rsr_single (c d : ascii) (s : string) :
  JS.is_space c = true -> JS.is_space d = false ->
  JS.replace_space_runs (String c (String d s))
  = String c (JS.replace_space_runs (String d s)).
Proof.
  intros Hc Hd. rewrite (rsr_nonspace d s Hd).
  cbn [JS.replace_space_runs]. now rewrite Hc, Hd.
Qed.

Lemma rsr_last (c : ascii) :
  JS.replace_space_runs (String c EmptyString) = String c EmptyString.
Proof. cbn. now destruct (JS.is_space c). Qed.

Lemma rsr_run (c d : ascii) (s : string) :
  JS.is_space c = true -> JS.is_space d = true ->
  JS.replace_space_runs (String c (String d s))
  = String " " (JS.replace_space_runs (JS.trimStart s)).
Proof.
  intros Hc Hd. cbn [JS.replace_space_runs]. rewrite Hc, Hd. f_equal.
  induction s as [|e s IH]; [reflexivity |].
  cbn [JS.trimStart]. destruct (JS.is_space e) eqn:He.
  - exact IH.
  - now rewrite (rsr_nonspace e s He).
Qed.

Lemma trimStart_spaces (w b : string) :
  JS.sforall JS.is_space w = true -> JS.trimStart (w ++ b) = JS.trimStart b.
Proof.
  induction w as [|c w IH]; simpl; [reflexivity |]. intros H.
  apply andb_true_iff in H. destruct H as [Hc Hw]. rewrite Hc. now apply IH.
Qed.

Lemma trimStart_append (a x : string) :
  JS.trimStart a <> EmptyString -> JS.trimStart (a ++ x) = JS.trimStart a ++ x.
Proof.
  induction a as [|c a IH]; simpl; [congruence |].
  destruct (JS.is_space c); [exact IH | reflexivity].
Qed.

Lemma trimStart_length (a : string) :
  (String.length (JS.trimStart a) <= String.length a)%nat.
Proof.
  induction a as [|c a IH]; simpl; [lia |].
  destruct (JS.is_space c); simpl; lia.
Qed.

Lemma no_trailing_cons (c : ascii) (a : string) :
  Spec.no_trailing_space (String c a) ->
  Spec.no_trailing_space a /\ (JS.is_space c = true -> a <> EmptyString).
Proof.
  unfold Spec.no_trailing_space. cbn [JS.trimEnd]. intros H.
  destruct (JS.is_space c && JS.is_empty (JS.trimEnd a)) eqn:E; [discriminate |].
  injection H as H. split; [exact H |].
  intros Hc ->. rewrite Hc in E. discriminate.
Qed.

Lemma no_trailing_trimStart (a : string) :
  Spec.no_trailing_space a -> Spec.no_trailing_space (JS.trimStart a).
Proof.
  induction a as [|c a IH]; [trivial |]. intros H.
  cbn [JS.trimStart]. destruct (JS.is_space c); [| exact H].
  apply IH. now apply no_trailing_cons in H.
Qed.

Lemma no_trailing_trimStart_nonempty (a : string) :
  Spec.no_trailing_space a -> a <> EmptyString -> JS.trimStart a <> EmptyString.
Proof.
  induction a as [|c a IH]; [congruence |]. intros H _.
  cbn [JS.trimStart]. destruct (JS.is_space c) eqn:Hc; [| discriminate].
  apply no_trailing_cons in H. destruct H as [Ha Hne]. apply IH; auto.
Qed.

Lemma trimEnd_idempotent (s : string) : JS.trimEnd (JS.trimEnd s) = JS.trimEnd s.
Proof.
  induction s as [|c s IH]; [reflexivity |].
  cbn [JS.trimEnd].
  destruct (JS.is_space c && JS.is_empty (JS.trimEnd s)) eqn:E; [reflexivity |].
  cbn [JS.trimEnd]. rewrite IH, E. reflexivity.
Qed.

Lemma trimStart_idempotent (s : string) : JS.trimStart (JS.trimStart s) = JS.trimStart s.
Proof.
  induction s as [|c s IH]; [reflexivity |].
  cbn [JS.trimStart]. destruct (JS.is_space c) eqn:Hc; [exact IH |].
  cbn [JS.trimStart]. now rewrite Hc.
Qed.

Lemma trimStart_trimEnd (s : string) :
  Spec.no_leading_space s -> Spec.no_leading_space (JS.trimEnd s).
Proof.
  unfold Spec.no_leading_space. destruct s as [|c s]; [trivial |].
  cbn [JS.trimStart JS.trimEnd]. destruct (JS.is_space c) eqn:Hc.
  - intros H. exfalso.
    pose proof (trimStart_length s) as L. rewrite H in L. simpl in L. lia.
  - intros _. cbn [andb JS.trimStart]. now rewrite Hc.
Qed.

(** What [trim] returns has no white space at either end. *)
Lemma trim_tight (s : string) :
  Spec.no_leading_space (JS.trim s) /\ Spec.no_trailing_space (JS.trim s).
Proof.
  unfold JS.trim. split.
  - apply trimStart_trimEnd. apply trimStart_idempotent.
  - apply trimEnd_idempotent.
Qed.

(** A run of two or more white space characters becomes one space. *)
Lemma rsr_collapses_run (a w b : string) :
  Spec.no_trailing_space a -> Spec.space_run w -> Spec.no_leading_space b ->
  JS.replace_space_runs (a ++ w ++ b)
  = JS.replace_space_runs a ++ " " ++ JS.replace_space_runs b.
Proof.
  intros Ha [Hw Hlen] Hb. revert Ha.
  remember (String.length a) as n eqn:En.
  assert (Hn : (String.length a <= n)%nat) by lia. clear En.
  revert a Hn. induction n as [|n IH]; intros a Hn Ha.
  - destruct a; [| simpl in Hn; lia]. simpl.
    destruct w as [|c [|d w]]; simpl in Hlen; try lia.
    simpl in Hw. apply andb_true_iff in Hw. destruct Hw as [Hc Hw].
    apply andb_true_iff in Hw. destruct Hw as [Hd Hw].
    cbn [append]. rewrite (rsr_run c d _ Hc Hd).
    rewrite (trimStart_spaces w b Hw), Hb. reflexivity.
  - destruct a as [|c a].
    + apply IH; [simpl; lia | exact Ha].
    + simpl in Hn. pose proof (no_trailing_cons c a Ha) as [Ha' Hne].
      destruct (JS.is_space c) eqn:Hc.
      * destruct a as [|d a]; [exfalso; now apply Hne |].
        destruct (JS.is_space d) eqn:Hd.
        -- cbn [append]. rewrite !(rsr_run c d _ Hc Hd). cbn [append]. f_equal.
           pose proof (no_trailing_cons d a Ha') as [Ha'' Hne'].
           assert (Hs : JS.trimStart a <> EmptyString).
           { apply no_trailing_trimStart_nonempty; auto. }
           rewrite (trimStart_append a _ Hs).
           apply IH.
           ++ pose proof (trimStart_length a). simpl in Hn. lia.
           ++ now apply no_trailing_trimStart.
        -- cbn [append]. rewrite !(rsr_single c d _ Hc Hd). cbn [append]. f_equal.
           apply (IH (String d a)); [lia | exact Ha'].
      * cbn [append]. rewrite !(rsr_nonspace c _ Hc). cbn [append]. f_equal.
        apply IH; [lia | exact Ha'].
Qed.


(* ------------------------------------------------------------------ *)
(** *** The canonical headers *)

Lemma is_space_lower (c : ascii) : JS.is_space (JS.lower_char c) = JS.is_space c.
Proof. each_char c; reflexivity. Qed.

Lemma is_empty_smap (f : ascii -> ascii) (s : string) :
  JS.is_empty (JS.smap f s) = JS.is_empty s.
Proof. now destruct s. Qed.

Lemma trimStart_lower (s : string) :
  JS.trimStart (JS.toLowerCase s) = JS.toLowerCase (JS.trimStart s).
Proof.
  unfold JS.toLowerCase. induction s as [|c s IH]; [reflexivity |].
  cbn [JS.smap JS.trimStart]. rewrite is_space_lower.
  destruct (JS.is_space c); [exact IH | reflexivity].
Qed.

Lemma trimEnd_lower (s : string) :
  JS.trimEnd (JS.toLowerCase s) = JS.toLowerCase (JS.trimEnd s).
Proof.
  unfold JS.toLowerCase. induction s as [|c s IH]; [reflexivity |].
  cbn [JS.smap JS.trimEnd]. rewrite is_space_lower, IH, is_empty_smap.
  destruct (JS.is_space c && JS.is_empty (JS.trimEnd s)); reflexivity.
Qed.

(** Trimming and lowercasing a key commute. *)
Lemma trim_lower (s : string) :
  JS.trim (JS.toLowerCase s) = JS.toLowerCase (JS.trim s).
Proof. unfold JS.trim. now rewrite trimStart_lower, trimEnd_lower. Qed.

Lemma canonical_headers_of_strings (headers : JS.JSObject string) :
  mapO AWS.canonical_header (Spec.own headers)
  = Ok (map Spec.canonical_pair headers).
Proof.
  induction headers as [|[k v] headers IH]; [reflexivity |].
  cbn [Spec.own map mapO] in *. unfold Spec.own in IH.
  cbn [AWS.canonical_header snd fst bindO]. rewrite IH. cbn [bindO].
  unfold Spec.canonical_pair. cbn [fst snd]. now rewrite trim_lower.
Qed.

Lemma compare_headers_bytewise (a b : string * string) :
  AWS.compare_headers a b = Spec.bytewise (fst a) (fst b).
Proof. apply compare_tokens_bytewise. Qed.

Lemma headerArrays_of_strings (headers : JS.JSObject string) :
  AWS.headerArrays (Spec.own headers)
  = Ok (map Spec.header_line (Spec.sorted_pairs headers),
        map fst (Spec.sorted_pairs headers)).
Proof.
  unfold AWS.headerArrays. rewrite canonical_headers_of_strings. cbn [bindO].
  unfold Spec.sorted_pairs.
  rewrite (sort_ext AWS.compare_headers (fun a b => Spec.bytewise (fst a) (fst b)))
    by (intros a b; now rewrite compare_headers_bytewise).
  reflexivity.
Qed.

(** C2. For every method, path, header mapping, query string and payload
    string, [getCanonicalRequestHash] returns the hex SHA-256 digest of the
    six lines method, normalised path, query string, canonical headers
    block, signed-headers string and hex SHA-256 digest of the payload,
    joined by line feeds, together with the signed-headers string; the
    specification's [canonicalRequestHash] is that pair. *)
Theorem getCanonicalRequestHash_is_the_hash_of_six_lines
  (method path : string) (headers : JS.JSObject string)
  (queryString payload : string) :
  AWS.getCanonicalRequestHash method path (Spec.own headers) queryString payload
  = Ok {| AWS.hashedCanonicalRequest :=
            Crypto.SHA256
              (JS.join JS.LF
                 [ method; Spec.normalizedPath path; queryString;
                   Spec.canonicalHeaders headers; Spec.signedHeaders headers;
                   Crypto.SHA256 payload ]);
          AWS.signedHeaders := Spec.signedHeaders headers |}
  /\ Spec.canonicalRequestHash method path headers queryString payload
     = (Crypto.SHA256
          (JS.join JS.LF
             [ method; Spec.normalizedPath path; queryString;
               Spec.canonicalHeaders headers; Spec.signedHeaders headers;
               Crypto.SHA256 payload ]),
        Spec.signedHeaders headers).
Proof.
  split; [| reflexivity].
  unfold AWS.getCanonicalRequestHash. rewrite headerArrays_of_strings.
  cbn [bindO fst snd]. reflexivity.
Qed.

Lemma sorted_pairs_permutation (headers : JS.JSObject string) :
  Permutation (Spec.sorted_pairs headers) (map Spec.canonical_pair headers).
Proof. apply sort_permutation. Qed.

Lemma sorted_pairs_sorted (headers : JS.JSObject string) :
  Sorted Spec.name_le (Spec.sorted_pairs headers).
Proof.
  unfold Spec.sorted_pairs.
  eapply Sorted_ind with (P := fun l => Sorted Spec.name_le l);
    [constructor | | apply sort_sorted].
  - intros a l _ Hl Hd. constructor; [exact Hl |].
    destruct Hd as [|b l Hab]; constructor.
    unfold Spec.name_le. now apply bytewise_le.
  - intros a b. unfold cmp_le. rewrite <- !Z.leb_le.
    pose proof (string_le_total (fst a) (fst b)) as [H | H];
      apply bytewise_le in H; unfold cmp_le in H; apply Z.leb_le in H; auto.
Qed.

(** C4, as the code has it. For every header mapping the arrays of
    [getCanonicalRequestHash] hold one entry for each key of the mapping,
    merged with no other: the entries are a permutation of the mapping's
    pairs, each with its key trimmed and in lower case and its value
    trimmed and its runs of white space collapsed, in the order of the
    names; a name stands in the signed headers as often as keys of the
    mapping have it.  A run of two or more white space characters between
    two parts of a value is replaced by exactly one space, and a trimmed
    value has no white space at either end. *)
Theorem headers_keep_one_entry_per_key_and_collapse_runs
  (headers : JS.JSObject string) :
  exists pairs : list (string * string),
    AWS.headerArrays (Spec.own headers)
      = Ok (map Spec.header_line pairs, map fst pairs)
    /\ Permutation pairs (map Spec.canonical_pair headers)
    /\ Sorted Spec.name_le pairs
    /\ List.length pairs = List.length headers
    /\ (forall name : string,
          count_occ string_dec (map fst pairs) name
          = count_occ string_dec
              (map (fun kv => JS.toLowerCase (JS.trim (fst kv))) headers) name)
    /\ (forall k v : string,
          In (k, v) headers ->
          In (JS.toLowerCase (JS.trim k), JS.replace_space_runs (JS.trim v)) pairs
          /\ Spec.no_leading_space (JS.trim v)
          /\ Spec.no_trailing_space (JS.trim v))
    /\ (forall a w b : string,
          Spec.no_trailing_space a -> Spec.space_run w -> Spec.no_leading_space b ->
          JS.replace_space_runs (a ++ w ++ b)
          = JS.replace_space_runs a ++ " " ++ JS.replace_space_runs b).
Proof.
  exists (Spec.sorted_pairs headers).
  pose proof (sorted_pairs_permutation headers) as Hp.
  split; [apply headerArrays_of_strings |].
  split; [exact Hp |].
  split; [apply sorted_pairs_sorted |].
  split; [rewrite (Permutation_length Hp); apply length_map |].
  split.
  { intros name.
    transitivity
      (count_occ string_dec (map fst (map Spec.canonical_pair headers)) name).
    - apply (proj1 (Permutation_count_occ string_dec _ _)).
      apply Permutation_map, Hp.
    - rewrite map_map. f_equal. apply map_ext. intros [k v].
      unfold Spec.canonical_pair. cbn [fst]. apply trim_lower. }
  split.
  { intros k v Hin. split; [| apply trim_tight].
    apply (Permutation_in _ (Permutation_sym (sorted_pairs_permutation headers))).
    apply in_map_iff. exists (k, v). split; [| exact Hin].
    unfold Spec.canonical_pair. cbn [fst snd]. now rewrite trim_lower. }
  exact rsr_collapses_run.
Qed.

(** C4, as the claim states it, fails: the keys [Host] and [host] give two
    entries named [host], not one. *)
Lemma keys_differing_by_case_do_not_collapse :
  ~ Spec.collapses [("Host", "a"); ("host", "b")].
Proof.
  intros H.
  specialize (H "Host" "host" ["host"; "host"] ["host:a" ++ JS.LF; "host:b" ++ JS.LF]).
  assert (E : count_occ string_dec ["host"; "host"] (JS.toLowerCase (JS.trim "Host")) = 1%nat).
  { apply H.
    - simpl; auto.
    - simpl; auto.
    - split; [discriminate | reflexivity].
    - reflexivity. }
  vm_compute in E. discriminate E.
Qed.

(* ------------------------------------------------------------------ *)
(** *** Objects *)

Section ObjectFacts.
Context {V : Type}.
Implicit Types (o : JS.JSObject V) (k : string) (v : V).

Lemma get_hasOwn o k : JS.hasOwn o k = match JS.get o k with Some _ => true | None => false end.
Proof.
  induction o as [|[k' v'] o IH]; [reflexivity |].
  cbn [JS.hasOwn JS.get]. destruct (String.eqb k' k); [reflexivity | exact IH].
Qed.

Lemma get_replace o k v k' :
  JS.get (JS.replace o k v) k'
  = if String.eqb k k' then (if JS.hasOwn o k then Some v else None) else JS.get o k'.
Proof.
  induction o as [|[k0 v0] o IH].
  - cbn. now destruct (String.eqb k k').
  - cbn [JS.replace JS.hasOwn JS.get].
    destruct (String.eqb_spec k0 k) as [-> | Hne]; cbn [JS.get orb].
    + destruct (String.eqb k k'); reflexivity.
    + rewrite IH. destruct (String.eqb_spec k0 k') as [-> | Hne']; [| reflexivity].
      destruct (String.eqb_spec k k'); [congruence | reflexivity].
Qed.

Lemma get_app o1 o2 k :
  JS.get (o1 ++ o2)%list k = match JS.get o1 k with Some v => Some v | None => JS.get o2 k end.
Proof.
  induction o1 as [|[k0 v0] o1 IH]; [reflexivity |].
  cbn [app JS.get]. destruct (String.eqb k0 k); [reflexivity | exact IH].
Qed.

(** Reading after [o[k] = v]. *)
Lemma get_set o k v k' :
  JS.get (JS.set o k v) k' = if String.eqb k k' then Some v else JS.get o k'.
Proof.
  unfold JS.set. destruct (JS.hasOwn o k) eqn:E.
  - rewrite get_replace, E. reflexivity.
  - rewrite get_app. cbn [JS.get].
    destruct (String.eqb_spec k k') as [<- | Hne].
    + rewrite get_hasOwn in E. now destruct (JS.get o k).
    + now destruct (JS.get o k').
Qed.

(** Reading after [delete o[k]]. *)
Lemma get_delete o k k' :
  JS.get (JS.delete o k) k' = if String.eqb k k' then None else JS.get o k'.
Proof.
  unfold JS.delete. induction o as [|[k0 v0] o IH].
  - cbn. now destruct (String.eqb k k').
  - cbn [filter fst negb JS.get].
    destruct (String.eqb_spec k0 k) as [-> | Hne]; cbn [negb JS.get].
    + rewrite IH. destruct (String.eqb k k'); reflexivity.
    + rewrite IH. destruct (String.eqb_spec k0 k') as [-> | Hne']; [| reflexivity].
      destruct (String.eqb_spec k k'); [congruence | reflexivity].
Qed.

Lemma hasOwn_delete o k : JS.hasOwn (JS.delete o k) k = false.
Proof. rewrite get_hasOwn, get_delete, String.eqb_refl. reflexivity. Qed.

Lemma hasOwn_In o k : JS.hasOwn o k = true <-> In k (JS.keys o).
Proof.
  induction o as [|[k0 v0] o IH]; cbn [JS.hasOwn JS.keys map fst In].
  - split; [discriminate | contradiction].
  - rewrite orb_true_iff, IH, String.eqb_eq. reflexivity.
Qed.

Lemma get_In o k v : JS.get o k = Some v -> In (k, v) o.
Proof.
  induction o as [|[k0 v0] o IH]; cbn [JS.get]; [discriminate |].
  destruct (String.eqb_spec k0 k) as [-> | Hne].
  - intros [= ->]. now left.
  - intros H. right. now apply IH.
Qed.

Lemma In_get o k v : NoDup (JS.keys o) -> In (k, v) o -> JS.get o k = Some v.
Proof.
  induction o as [|[k0 v0] o IH]; [contradiction |].
  cbn [JS.keys map fst JS.get]. intros Hnd [Heq | Hin].
  - injection Heq as -> ->. now rewrite String.eqb_refl.
  - inversion Hnd as [|? ? Hnotin Hnd']; subst.
    destruct (String.eqb_spec k0 k) as [-> | Hne].
    + exfalso. apply Hnotin. change (In k (JS.keys o)).
      apply hasOwn_In. rewrite get_hasOwn. now rewrite (IH Hnd' Hin).
    + now apply IH.
Qed.

End ObjectFacts.

Lemma get_own (headers : JS.JSObject string) (k : string) :
  JS.get (Spec.own headers) k = option_map JS.Own (JS.get headers k).
Proof.
  induction headers as [|[k0 v0] h IH]; [reflexivity |].
  cbn [Spec.own map fst snd JS.get]. destruct (String.eqb k0 k); [reflexivity | exact IH].
Qed.

(* ------------------------------------------------------------------ *)
(** *** The canonical query string *)

Lemma queryParts_own (query : JS.JSObject AWS.qvalue) (names : list string) :
  JS.hasOwn query "hasOwnProperty" = false ->
  (forall k, In k names -> In k (JS.keys query)) ->
  AWS.queryParts query names
  = Ok (map (fun k => (k, AWS.query_get query k)) names).
Proof.
  intros Hno. induction names as [|k names IH]; intros Hin; [reflexivity |].
  cbn [AWS.queryParts map]. unfold AWS.hasOwnProperty_call. rewrite Hno.
  cbn [bindO].
  assert (Hk : JS.hasOwn query k = true) by (apply hasOwn_In, Hin; now left).
  rewrite Hk. cbn [negb]. rewrite IH by (intros k' Hk'; apply Hin; now right).
  reflexivity.
Qed.

Lemma query_get_keys (query : JS.JSObject AWS.qvalue) :
  NoDup (JS.keys query) ->
  map (fun k => (k, AWS.query_get query k)) (JS.keys query) = query.
Proof.
  intros Hnd.
  assert (H : forall l, (forall kv, In kv l -> In kv query) ->
              map (fun k => (k, AWS.query_get query k)) (JS.keys l) = l).
  { induction l as [|[k v] l IH]; intros Hl; [reflexivity |].
    cbn [JS.keys map fst]. unfold AWS.query_get at 1.
    rewrite (In_get query k v Hnd) by (apply Hl; now left).
    f_equal. apply IH. intros kv Hkv. apply Hl. now right. }
  apply H. auto.
Qed.

Lemma query_token_code (part : string * AWS.qvalue) :
  (let value :=
     if AWS.not_null (snd part) then AWS.qvalue_toString (snd part)
     else EmptyString in
   JS.encodeURIComponent (JS.trim (fst part)) ++ "=" ++ JS.encodeURIComponent value)
  = Spec.query_token part.
Proof. destruct part as [k []]; reflexivity. Qed.

(** On a mapping without a key named [hasOwnProperty] the code computes the
    canonical query string of the specification. *)
Lemma getCanonicalQueryString_spec (query : JS.JSObject AWS.qvalue) :
  NoDup (JS.keys query) ->
  JS.hasOwn query "hasOwnProperty" = false ->
  AWS.getCanonicalQueryString query = Ok (Spec.canonicalQueryString query).
Proof.
  intros Hnd Hno. unfold AWS.getCanonicalQueryString.
  rewrite (queryParts_own query (JS.keys query) Hno) by auto.
  cbn [bindO]. rewrite (query_get_keys query Hnd).
  unfold Spec.canonicalQueryString. do 2 f_equal.
  rewrite (sort_ext AWS.compare_tokens Spec.bytewise)
    by (intros a b; now rewrite compare_tokens_bytewise).
  f_equal. apply map_ext. intros part. apply query_token_code.
Qed.

(** With a key named [hasOwnProperty] the call throws. *)
Lemma getCanonicalQueryString_hasOwnProperty (query : JS.JSObject AWS.qvalue) :
  JS.hasOwn query "hasOwnProperty" = true ->
  AWS.getCanonicalQueryString query = Throw TypeError.
Proof.
  intros H. unfold AWS.getCanonicalQueryString.
  destruct query as [|[k v] query]; [discriminate |].
  cbn [JS.keys map AWS.queryParts]. unfold AWS.hasOwnProperty_call.
  rewrite H. reflexivity.
Qed.

Lemma hasOwn_permutation {V : Type} (o1 o2 : JS.JSObject V) (k : string) :
  Permutation o1 o2 -> JS.hasOwn o1 k = JS.hasOwn o2 k.
Proof.
  intros Hp. apply eq_true_iff_eq. rewrite !hasOwn_In.
  assert (Hk : Permutation (JS.keys o1) (JS.keys o2)) by now apply Permutation_map.
  split; apply Permutation_in; [exact Hk | now apply Permutation_sym].
Qed.

(** The order in which the pairs of a query mapping are enumerated does not
    matter. *)
Lemma getCanonicalQueryString_permutation (q1 q2 : JS.JSObject AWS.qvalue) :
  NoDup (JS.keys q1) -> Permutation q1 q2 ->
  AWS.getCanonicalQueryString q1 = AWS.getCanonicalQueryString q2.
Proof.
  intros Hnd Hp.
  assert (Hnd2 : NoDup (JS.keys q2)).
  { eapply Permutation_NoDup; [| exact Hnd]. now apply Permutation_map. }
  pose proof (hasOwn_permutation q1 q2 "hasOwnProperty" Hp) as E.
  destruct (JS.hasOwn q1 "hasOwnProperty") eqn:H1.
  - rewrite !getCanonicalQueryString_hasOwnProperty; auto.
  - rewrite !getCanonicalQueryString_spec; auto.
    unfold Spec.canonicalQueryString. do 2 f_equal.
    apply sort_tokens_of_permutation. now apply Permutation_map.
Qed.

(** C3 at a mapping with the key [hasOwnProperty]: the code throws a
    [TypeError], where the canonical query string is
    [hasOwnProperty=x]. *)
Lemma getCanonicalQueryString_throws_on_hasOwnProperty :
  AWS.getCanonicalQueryString [("hasOwnProperty", AWS.QString "x")] = Throw TypeError
  /\ Spec.canonicalQueryString [("hasOwnProperty", AWS.QString "x")] = "hasOwnProperty=x".
Proof. split; reflexivity. Qed.

Example canonical_query_b2_a1 :
  AWS.getCanonicalQueryString [("b", AWS.QNumber (JS.number 2 eq_refl)); ("a", AWS.QNumber (JS.number 1 eq_refl))] = Ok "a=1&b=2".
Proof. reflexivity. Qed.

(* ------------------------------------------------------------------ *)
(** *** Computations *)

Lemma bind_lift {A B : Type} (o : Outcome A) (k : A -> M B) :
  bind (lift o) k = match o with Ok a => k a | Throw e => (Throw e, []) end.
Proof.
  destruct o as [a | e]; cbn [bind lift]; [| reflexivity].
  destruct (k a); reflexivity.
Qed.

Lemma bind_ok {A B : Type} (a : A) (t : list Event) (k : A -> M B) :
  bind (Ok a, t) k = (outcome (k a), (t ++ trace (k a))%list).
Proof. cbn [bind]. destruct (k a); reflexivity. Qed.

Lemma bind_throw {A B : Type} (e : exn) (t : list Event) (k : A -> M B) :
  bind (Throw e, t) k = (Throw e, t).
Proof. reflexivity. Qed.

Lemma canonical_header_of_inherited (headers : JS.JSObject JS.member) (k name : string) :
  In (k, JS.Inherited name) headers ->
  mapO AWS.canonical_header headers = Throw TypeError.
Proof.
  induction headers as [|[k0 v0] headers IH]; [contradiction |].
  intros [[= -> ->] | Hin]; cbn [mapO]; [reflexivity |].
  destruct (AWS.canonical_header (k0, v0)) as [p | e] eqn:E; cbn [bindO].
  - rewrite (IH Hin). reflexivity.
  - destruct v0; cbn in E; congruence.
Qed.

Lemma getCanonicalRequestHash_of_inherited
  (method path : string) (headers : JS.JSObject JS.member) (qs payload k name : string) :
  JS.get headers k = Some (JS.Inherited name) ->
  AWS.getCanonicalRequestHash method path headers qs payload = Throw TypeError.
Proof.
  intros H. apply get_In in H.
  unfold AWS.getCanonicalRequestHash, AWS.headerArrays.
  now rewrite (canonical_header_of_inherited headers k name H).
Qed.

Lemma own_set (headers : JS.JSObject string) (k v : string) :
  JS.set (Spec.own headers) k (JS.Own v) = Spec.own (JS.set headers k v).
Proof.
  unfold JS.set, Spec.own.
  assert (Hh : JS.hasOwn (map (fun kv => (fst kv, JS.Own (snd kv))) headers) k
               = JS.hasOwn headers k).
  { induction headers as [|[k0 v0] headers IH]; [reflexivity |].
    cbn [map JS.hasOwn fst snd]. now rewrite IH. }
  rewrite Hh. clear Hh. destruct (JS.hasOwn headers k).
  - induction headers as [|[k0 v0] headers IH]; [reflexivity |].
    cbn [map JS.replace fst snd]. destruct (String.eqb k0 k); [reflexivity |].
    cbn [map fst snd]. now rewrite IH.
  - now rewrite map_app.
Qed.

Lemma calculateSignature_string (key dateStamp regionName serviceName sts : string) :
  Crypto.toString (AWS.calculateSignature key dateStamp regionName serviceName sts)
  = Spec.signature sts (Spec.deriveSigningKey key dateStamp regionName serviceName).
Proof.
  unfold AWS.calculateSignature, Spec.signature, Spec.deriveSigningKey,
    Spec.HMAC_SHA256, Crypto.HmacSHA256, Crypto.toBytes.
  reflexivity.
Qed.

Lemma signature_length (sts : string) (key : list N) :
  String.length (Spec.signature sts key) = 64%nat.
Proof.
  unfold Spec.signature, Spec.HMAC_SHA256.
  destruct (hmac_sha256_octets key (JS.utf8 sts)) as [Hlen _].
  now rewrite bytesToHex_length, Hlen.
Qed.

(* ------------------------------------------------------------------ *)
(** *** [request] *)

Section RequestFacts.
Context {RT : Runtime}.

Ltac step :=
  rewrite bind_lift;
  match goal with
  | |- context [match ?o with Ok _ => _ | Throw _ => _ end] =>
      let E := fresh "E" in destruct o eqn:E
  end.

(** [request] either throws before it reaches the transport, or hands it
    one signed request and returns what it answers. *)
Lemma request_cases (cfg : AWS.Config.AWSConfig) (params : AWS.RequestParams) :
  (exists e, AWS.request cfg params = (Throw e, []))
  \/ (exists a s region dateFull dateShort qs temp uri options,
        let service := JS.toLowerCase (AWS.service params) in
        let host := AWS.resolve_host service region in
        let scope := AWS.credentialScope dateShort region service in
        let sts := AWS.stringToSign dateFull scope (AWS.hashedCanonicalRequest temp) in
        let auth :=
          AWS.authorization a scope (AWS.signedHeaders temp)
            (Crypto.toString (AWS.calculateSignature s dateShort region service sts)) in
        let signed :=
          JS.set (JS.set (AWS.request_headers params) "Host" host)
                 "X-Amz-Date" (JS.Own dateFull) in
        AWS.request_accessKeyId cfg params = Ok (Some a)
        /\ AWS.request_secretAccessKey cfg params = Ok (Some s)
        /\ AWS.request_region cfg params = Some region
        /\ AWS.getCanonicalFullDate new_Date = Ok dateFull
        /\ AWS.getCanonicalShortDate new_Date = Ok dateShort
        /\ AWS.getCanonicalQueryString (AWS.request_query params) = Ok qs
        /\ AWS.getCanonicalRequestHash (AWS.request_method params)
             (AWS.request_path params) signed qs (AWS.request_payloadString params)
           = Ok temp
        /\ uri = AWS.request_uri host (AWS.request_path params) qs
        /\ options
           = {| UrlFetchApp.method := AWS.request_method params;
                UrlFetchApp.headers :=
                  JS.delete (JS.set signed "Authorization" (JS.Own auth)) "Host";
                UrlFetchApp.muteHttpExceptions := true;
                UrlFetchApp.payload := AWS.request_payloadString params |}
        /\ AWS.request cfg params = (fetch uri options, [Fetched uri options])).
Proof.
  unfold AWS.request, AWS.assert_not_null, AWS.getCurrentDate.
  destruct (AWS.request_accessKeyId cfg params) as [[a |] | e] eqn:Ea;
    [| left; eexists; reflexivity | left; eexists; reflexivity].
  rewrite !bind_lift.
  destruct (AWS.request_secretAccessKey cfg params) as [[s |] | e] eqn:Es;
    [| left; eexists; reflexivity | left; eexists; reflexivity].
  rewrite !bind_lift.
  destruct (AWS.request_region cfg params) as [region |] eqn:Er;
    [| left; eexists; reflexivity].
  rewrite bind_lift.
  destruct (AWS.getCanonicalFullDate new_Date) as [dateFull | e] eqn:Ef;
    [| left; eexists; reflexivity].
  rewrite bind_lift.
  destruct (AWS.getCanonicalShortDate new_Date) as [dateShort | e] eqn:Eh;
    [| left; eexists; reflexivity].
  rewrite bind_lift.
  destruct (AWS.getCanonicalQueryString (AWS.request_query params)) as [qs | e] eqn:Eq;
    [| left; eexists; reflexivity].
  rewrite bind_lift.
  match goal with
  | |- context [match ?o with Ok _ => _ | Throw _ => _ end] =>
      destruct o as [temp | e] eqn:Et; [| left; eexists; reflexivity]
  end.
  right. exists a, s, region, dateFull, dateShort, qs, temp.
  eexists _, _. cbv zeta.
  repeat (split; [first [reflexivity | eassumption] |]).
  reflexivity.
Qed.


(** What the steps before the hand-off throw. *)
Lemma group_throws (m : option (list string)) (i : nat) (e : exn) :
  AWS.group m i = Throw e -> e = TypeError.
Proof. destruct m; cbn; congruence. Qed.

Lemma getCanonicalFullDate_throws (d : Date) (e : exn) :
  AWS.getCanonicalFullDate d = Throw e -> e = TypeError.
Proof.
  unfold AWS.getCanonicalFullDate.
  destruct (AWS.DATE_VALUES_REGEX_exec (toISOString d)); cbn; congruence.
Qed.

Lemma getCanonicalShortDate_throws (d : Date) (e : exn) :
  AWS.getCanonicalShortDate d = Throw e -> e = TypeError.
Proof.
  unfold AWS.getCanonicalShortDate.
  destruct (AWS.DATE_VALUES_REGEX_exec (toISOString d)); cbn; congruence.
Qed.

Lemma queryParts_throws (query : JS.JSObject AWS.qvalue) (names : list string) (e : exn) :
  AWS.queryParts query names = Throw e -> e = TypeError.
Proof.
  induction names as [|k names IH]; cbn [AWS.queryParts]; [discriminate |].
  unfold AWS.hasOwnProperty_call.
  destruct (JS.hasOwn query "hasOwnProperty"); cbn [bindO]; [congruence |].
  destruct (negb (JS.hasOwn query k)); [exact IH |].
  destruct (AWS.queryParts query names); cbn [bindO]; [discriminate |].
  intros [= <-]. now apply IH.
Qed.

Lemma getCanonicalQueryString_throws (query : JS.JSObject AWS.qvalue) (e : exn) :
  AWS.getCanonicalQueryString query = Throw e -> e = TypeError.
Proof.
  unfold AWS.getCanonicalQueryString.
  destruct (AWS.queryParts query (JS.keys query)) eqn:E; cbn [bindO]; [discriminate |].
  intros [= <-]. now apply (queryParts_throws query (JS.keys query)).
Qed.

Lemma mapO_canonical_header_throws (headers : JS.JSObject JS.member) (e : exn) :
  mapO AWS.canonical_header headers = Throw e -> e = TypeError.
Proof.
  induction headers as [|[k v] headers IH]; cbn [mapO]; [discriminate |].
  destruct v; cbn [AWS.canonical_header snd bindO]; [| congruence].
  destruct (mapO AWS.canonical_header headers); cbn [bindO]; [discriminate |].
  intros [= <-]. now apply IH.
Qed.

Lemma getCanonicalRequestHash_throws
  (method path : string) (headers : JS.JSObject JS.member) (qs payload : string)
  (e : exn) :
  AWS.getCanonicalRequestHash method path headers qs payload = Throw e ->
  e = TypeError.
Proof.
  unfold AWS.getCanonicalRequestHash, AWS.headerArrays.
  destruct (mapO AWS.canonical_header headers) eqn:E; cbn [bindO]; [discriminate |].
  intros [= <-]. now apply (mapO_canonical_header_throws headers).
Qed.

(** A default credential is read without harm, or from no [credentials]
    object at all. *)
Lemma nullish_default_throws
  (cfg : AWS.Config.AWSConfig) (explicit : option string)
  (field : AWS.Config.Credentials -> option string) (e : exn) :
  AWS.nullish explicit (AWS.default_credential cfg field) = Throw e ->
  explicit = None /\ AWS.Config.credentials cfg = None /\ e = TypeError.
Proof.
  unfold AWS.nullish, AWS.default_credential.
  destruct explicit; [discriminate |].
  destruct (AWS.Config.credentials cfg); [discriminate |].
  now intros [= <-].
Qed.


Lemma nullish_default_value
  (cfg : AWS.Config.AWSConfig) (explicit : option string)
  (field : AWS.Config.Credentials -> option string) (v : option string) :
  AWS.nullish explicit (AWS.default_credential cfg field) = Ok v <->
  (exists a, explicit = Some a /\ v = Some a)
  \/ (explicit = None
      /\ exists c, AWS.Config.credentials cfg = Some c /\ v = field c).
Proof.
  unfold AWS.nullish, AWS.default_credential. split.
  - destruct explicit as [a |]; [intros [= <-]; left; now exists a |].
    destruct (AWS.Config.credentials cfg) as [c |]; [| discriminate].
    intros [= <-]. right. split; [reflexivity |]. now exists c.
  - intros [(a & -> & ->) | (-> & c & -> & ->)]; reflexivity.
Qed.

(** Before it reaches the transport, [request] throws one of its three
    configuration errors or a [TypeError]. *)
Lemma request_throws_before_sending
  (cfg : AWS.Config.AWSConfig) (params : AWS.RequestParams) (e : exn) :
  AWS.request cfg params = (Throw e, []) ->
  (AWS.request_accessKeyId cfg params = Ok None
   /\ e = error "AWS access key id not specified")
  \/ (AWS.request_secretAccessKey cfg params = Ok None
      /\ e = error "AWS secret access key not specified")
  \/ (AWS.request_region cfg params = None
      /\ e = error "AWS region not specified")
  \/ e = TypeError.
Proof.
  unfold AWS.request, AWS.assert_not_null, AWS.getCurrentDate.
  destruct (AWS.request_accessKeyId cfg params) as [[a |] | e1] eqn:Ea;
    [| intros [= <-]; now left
     | intros [= <-]; do 3 right;
       now apply nullish_default_throws in Ea].
  rewrite !bind_lift.
  destruct (AWS.request_secretAccessKey cfg params) as [[s |] | e1] eqn:Es;
    [| intros [= <-]; right; now left
     | intros [= <-]; do 3 right;
       now apply nullish_default_throws in Es].
  rewrite !bind_lift.
  destruct (AWS.request_region cfg params) as [region |] eqn:Er;
    [| intros [= <-]; right; right; now left].
  intros H.
  do 3 right. revert H.
  rewrite bind_lift. intros H.
  destruct (AWS.getCanonicalFullDate new_Date) as [dateFull | e1] eqn:Ef;
    [| injection H as <-; now apply getCanonicalFullDate_throws in Ef].
  rewrite bind_lift in H.
  destruct (AWS.getCanonicalShortDate new_Date) as [dateShort | e1] eqn:Eh;
    [| injection H as <-; now apply getCanonicalShortDate_throws in Eh].
  rewrite bind_lift in H.
  destruct (AWS.getCanonicalQueryString (AWS.request_query params)) as [qs | e1] eqn:Eq;
    [| injection H as <-; now apply getCanonicalQueryString_throws in Eq].
  rewrite bind_lift in H.
  match type of H with
  | context [match ?o with Ok _ => _ | Throw _ => _ end] =>
      destruct o as [temp | e1] eqn:Et;
        [| injection H as <-; now apply getCanonicalRequestHash_throws in Et]
  end.
  unfold AWS.UrlFetchApp_fetch in H. discriminate H.
Qed.


Lemma authorization_form (a scope signed signature : string) :
  AWS.authorization a scope signed signature
  = AWS.HASH_ALGORITHM ++ " Credential=" ++ a ++ "/" ++ scope
    ++ ", SignedHeaders=" ++ signed ++ ", Signature=" ++ signature.
Proof.
  unfold AWS.authorization, JS.join. cbn [String.concat].
  rewrite !append_assoc. reflexivity.
Qed.

Lemma request_trace (cfg : AWS.Config.AWSConfig) (params : AWS.RequestParams)
  (uri : string) (options : UrlFetchApp.Options) :
  In (uri, options) (fetches (trace (AWS.request cfg params))) ->
  AWS.request cfg params = (fetch uri options, [Fetched uri options]).
Proof.
  destruct (request_cases cfg params)
    as [[e E] | (a & s & region & dF & dS & qs & temp & uri0 & options0 & H)].
  - rewrite E. contradiction.
  - cbv zeta in H. destruct H as (_ & _ & _ & _ & _ & _ & _ & _ & _ & E).
    rewrite E. cbn [trace snd fetches In]. intros [[= <- <-] | []]. reflexivity.
Qed.

(** What [request] hands to the transport is signed as the specification
    says: the signed names, the hash of the canonical request, the derived
    key and the signature are those of the specification's functions. *)
Lemma request_authorization
  (cfg : AWS.Config.AWSConfig) (params : AWS.RequestParams)
  (uri : string) (options : UrlFetchApp.Options) :
  In (uri, options) (fetches (trace (AWS.request cfg params))) ->
  exists a s region dateFull dateShort qs host : string,
    let service := JS.toLowerCase (AWS.service params) in
    let supplied := match AWS.headers params with Some h => h | None => [] end in
    let signed := JS.set (JS.set supplied "Host" host) "X-Amz-Date" dateFull in
    let scope := dateShort ++ "/" ++ region ++ "/" ++ service ++ "/aws4_request" in
    let hash :=
      fst (Spec.canonicalRequestHash (AWS.request_method params)
             (AWS.request_path params) signed qs
             (AWS.request_payloadString params)) in
    let sts := JS.join JS.LF [AWS.HASH_ALGORITHM; dateFull; scope; hash] in
    let signature :=
      Spec.signature sts (Spec.deriveSigningKey s dateShort region service) in
    AWS.request_accessKeyId cfg params = Ok (Some a)
    /\ AWS.request_secretAccessKey cfg params = Ok (Some s)
    /\ AWS.request_region cfg params = Some region
    /\ AWS.getCanonicalFullDate new_Date = Ok dateFull
    /\ AWS.getCanonicalShortDate new_Date = Ok dateShort
    /\ AWS.getCanonicalQueryString (AWS.request_query params) = Ok qs
    /\ AWS.resolve_host service region = JS.Own host
    /\ UrlFetchApp.headers options
       = JS.delete
           (JS.set (Spec.own signed) "Authorization"
              (JS.Own
                 (AWS.HASH_ALGORITHM ++ " Credential=" ++ a ++ "/" ++ scope
                  ++ ", SignedHeaders=" ++ Spec.signedHeaders signed
                  ++ ", Signature=" ++ signature)))
           "Host".
Proof.
  intros Hin.
  destruct (request_cases cfg params)
    as [[e E] | (a & s & region & dF & dS & qs & temp & uri0 & options0 & H)].
  { rewrite E in Hin. contradiction. }
  cbv zeta in H. destruct H as (Ea & Es & Er & Ef & Eh & Eq & Et & Eu & Eo & E).
  rewrite E in Hin. cbn [trace snd fetches In] in Hin.
  destruct Hin as [[= <- <-] | []]. subst options0.
  destruct (AWS.resolve_host (JS.toLowerCase (AWS.service params)) region)
    as [host | name] eqn:Ehost.
  2:{ exfalso.
      rewrite (getCanonicalRequestHash_of_inherited _ _ _ _ _ "Host" name) in Et;
        [discriminate |].
      rewrite get_set. cbn [String.eqb Ascii.eqb Bool.eqb]. rewrite get_set.
      now rewrite String.eqb_refl. }
  exists a, s, region, dF, dS, qs, host. cbv zeta.
  repeat (split; [first [assumption | reflexivity] |]).
  set (supplied := match AWS.headers params with Some h => h | None => [] end) in *.
  assert (Hh : AWS.request_headers params = Spec.own supplied).
  { unfold AWS.request_headers, supplied. now destruct (AWS.headers params). }
  rewrite Hh, !own_set in Et |- *.
  unfold AWS.getCanonicalRequestHash in Et. rewrite headerArrays_of_strings in Et.
  cbn [bindO fst snd] in Et. injection Et as Et. subst temp.
  cbn [UrlFetchApp.headers AWS.signedHeaders AWS.hashedCanonicalRequest].
  rewrite authorization_form, calculateSignature_string. reflexivity.
Qed.

(** C5, as the code has it. With a [credentials] object in the
    configuration, a call for which neither the parameters nor that object
    give the access key id throws the error of the access key id, and a call
    whose access key id is resolved and for which neither gives the secret
    access key throws the error of the secret access key.  Without a
    [credentials] object, a call that lacks one of the two parameters throws
    a [TypeError].  In each case no event occurs: nothing reaches the
    transport.  A credential given in the parameters is the one used,
    whether or not the other one is given there: the call does the same
    under every default for it, and the [Authorization] header of the
    request handed over names the given access key id, and is signed under
    the key derived from the given secret access key. *)
Theorem request_fails_first_without_credentials
  (cfg : AWS.Config.AWSConfig) (params : AWS.RequestParams) :
  (forall c : AWS.Config.Credentials,
     AWS.Config.credentials cfg = Some c ->
     (AWS.accessKeyId params = None -> AWS.Config.accessKeyId c = None ->
      AWS.request cfg params
      = (Throw (error "AWS access key id not specified"), []))
     /\ (forall a : string,
           AWS.request_accessKeyId cfg params = Ok (Some a) ->
           AWS.secretAccessKey params = None ->
           AWS.Config.secretAccessKey c = None ->
           AWS.request cfg params
           = (Throw (error "AWS secret access key not specified"), [])))
  /\ (AWS.Config.credentials cfg = None ->
      AWS.accessKeyId params = None \/ AWS.secretAccessKey params = None ->
      AWS.request cfg params = (Throw TypeError, []))
  /\ (forall a : string,
        AWS.accessKeyId params = Some a ->
        AWS.request_accessKeyId cfg params = Ok (Some a)
        /\ (forall default : option string,
              AWS.request (Spec.with_accessKeyId default cfg) params
              = AWS.request cfg params)
        /\ (forall (uri : string) (options : UrlFetchApp.Options),
              In (uri, options) (fetches (trace (AWS.request cfg params))) ->
              exists rest : string,
                JS.get (UrlFetchApp.headers options) "Authorization"
                = Some (JS.Own (AWS.HASH_ALGORITHM ++ " Credential=" ++ a
                                ++ "/" ++ rest))))
  /\ (forall s : string,
        AWS.secretAccessKey params = Some s ->
        AWS.request_secretAccessKey cfg params = Ok (Some s)
        /\ (forall default : option string,
              AWS.request (Spec.with_secretAccessKey default cfg) params
              = AWS.request cfg params)
        /\ (forall (uri : string) (options : UrlFetchApp.Options),
              In (uri, options) (fetches (trace (AWS.request cfg params))) ->
              exists (a scope names sts dateShort region : string),
                JS.get (UrlFetchApp.headers options) "Authorization"
                = Some (JS.Own
                          (AWS.HASH_ALGORITHM ++ " Credential=" ++ a ++ "/"
                           ++ scope ++ ", SignedHeaders=" ++ names
                           ++ ", Signature="
                           ++ Spec.signature sts
                                (Spec.deriveSigningKey s dateShort region
                                   (JS.toLowerCase (AWS.service params))))))).
Proof.
  split; [| split; [| split]].
  - intros c Hc. split.
    + intros Hp Hd. unfold AWS.request, AWS.request_accessKeyId, AWS.nullish,
        AWS.default_credential. rewrite Hp, Hc, Hd. reflexivity.
    + intros a Ea Hp Hd. unfold AWS.request. rewrite Ea, !bind_lift.
      unfold AWS.request_secretAccessKey, AWS.nullish, AWS.default_credential.
      rewrite Hp, Hc, Hd. cbn [AWS.assert_not_null]. rewrite !bind_lift.
      reflexivity.
  - intros Hc Hp. unfold AWS.request, AWS.request_accessKeyId,
      AWS.request_secretAccessKey, AWS.nullish, AWS.default_credential.
    rewrite Hc. destruct (AWS.accessKeyId params) as [a |]; [| reflexivity].
    destruct Hp as [Hp | Hp]; [discriminate |]. rewrite Hp, !bind_lift.
    cbn [AWS.assert_not_null]. rewrite !bind_lift. reflexivity.
  - intros a Ha.
    assert (Ea : AWS.request_accessKeyId cfg params = Ok (Some a)).
    { unfold AWS.request_accessKeyId. now rewrite Ha. }
    split; [exact Ea |]. split.
    + intros default. unfold AWS.request, AWS.request_accessKeyId,
        AWS.request_secretAccessKey, AWS.request_region, AWS.nullish,
        AWS.default_credential, Spec.with_accessKeyId, Spec.with_credentials.
      rewrite Ha. cbn [AWS.Config.credentials AWS.Config.region].
      destruct (AWS.Config.credentials cfg) as [c |]; reflexivity.
    + intros uri options Hin.
      destruct (request_authorization cfg params uri options Hin)
        as (a' & s & region & dF & dS & qs & host & H).
      cbv zeta in H. destruct H as (Ea' & _ & _ & _ & _ & _ & _ & Hh).
      rewrite Ea in Ea'. injection Ea' as <-.
      eexists. rewrite Hh, get_delete, get_set. reflexivity.
  - intros s Hs.
    assert (Es : AWS.request_secretAccessKey cfg params = Ok (Some s)).
    { unfold AWS.request_secretAccessKey. now rewrite Hs. }
    split; [exact Es |]. split.
    + intros default. unfold AWS.request, AWS.request_accessKeyId,
        AWS.request_secretAccessKey, AWS.request_region, AWS.nullish,
        AWS.default_credential, Spec.with_secretAccessKey, Spec.with_credentials.
      rewrite Hs. cbn [AWS.Config.credentials AWS.Config.region].
      destruct (AWS.Config.credentials cfg) as [c |]; reflexivity.
    + intros uri options Hin.
      destruct (request_authorization cfg params uri options Hin)
        as (a & s' & region & dF & dS & qs & host & H).
      cbv zeta in H. destruct H as (_ & Es' & _ & _ & _ & _ & _ & Hh).
      rewrite Es in Es'. injection Es' as <-.
      eexists a, _, _, _, dS, region. rewrite Hh, get_delete, get_set.
      reflexivity.
Qed.

(** C9. The headers of every request handed to the transport hold
    [X-Amz-Date] with the full date, hold [Authorization] with the value
    "{algorithm} Credential={accessKeyId}/{credentialScope},
    SignedHeaders={signedHeaders}, Signature={signature}" -- the access key
    id the call resolves, the scope of the short date, the region and the
    service, the signed names of the caller's headers with [Host] and
    [X-Amz-Date] set, and the signature the specification computes from the
    secret access key and the canonical request --, hold no [Host], and hold
    every header of the caller but [Host], [X-Amz-Date] and [Authorization]
    with the caller's value. *)
Theorem request_hands_over_signed_headers
  (cfg : AWS.Config.AWSConfig) (params : AWS.RequestParams)
  (uri : string) (options : UrlFetchApp.Options) :
  In (uri, options) (fetches (trace (AWS.request cfg params))) ->
  exists a s region dateFull dateShort qs host : string,
    let service := JS.toLowerCase (AWS.service params) in
    let supplied := match AWS.headers params with Some h => h | None => [] end in
    let signed := JS.set (JS.set supplied "Host" host) "X-Amz-Date" dateFull in
    let scope := AWS.credentialScope dateShort region service in
    let hash :=
      fst (Spec.canonicalRequestHash (AWS.request_method params)
             (AWS.request_path params) signed qs
             (AWS.request_payloadString params)) in
    let sts := JS.join JS.LF [AWS.HASH_ALGORITHM; dateFull; scope; hash] in
    let signature :=
      Spec.signature sts (Spec.deriveSigningKey s dateShort region service) in
    AWS.request_accessKeyId cfg params = Ok (Some a)
    /\ AWS.request_secretAccessKey cfg params = Ok (Some s)
    /\ AWS.request_region cfg params = Some region
    /\ AWS.getCanonicalFullDate new_Date = Ok dateFull
    /\ AWS.getCanonicalShortDate new_Date = Ok dateShort
    /\ AWS.getCanonicalQueryString (AWS.request_query params) = Ok qs
    /\ AWS.resolve_host service region = JS.Own host
    /\ JS.get (UrlFetchApp.headers options) "X-Amz-Date" = Some (JS.Own dateFull)
    /\ JS.get (UrlFetchApp.headers options) "Authorization"
       = Some (JS.Own
                 (AWS.HASH_ALGORITHM ++ " Credential=" ++ a ++ "/" ++ scope
                  ++ ", SignedHeaders=" ++ Spec.signedHeaders signed
                  ++ ", Signature=" ++ signature))
    /\ String.length signature = 64%nat
    /\ JS.hasOwn (UrlFetchApp.headers options) "Host" = false
    /\ (forall k v : string,
          JS.get supplied k = Some v ->
          k <> "Host" -> k <> "X-Amz-Date" -> k <> "Authorization" ->
          JS.get (UrlFetchApp.headers options) k = Some (JS.Own v)).
Proof.
  intros Hin.
  destruct (request_authorization cfg params uri options Hin)
    as (a & s & region & dF & dS & qs & host & H).
  cbv zeta in H. destruct H as (Ea & Es & Er & Ef & Eh & Eq & Ehost & Hh).
  exists a, s, region, dF, dS, qs, host. cbv zeta.
  repeat (split; [assumption |]).
  rewrite Hh.
  split; [rewrite get_delete, get_set, get_own, get_set; reflexivity |].
  split; [rewrite get_delete, get_set; reflexivity |].
  split; [apply signature_length |].
  split; [apply hasOwn_delete |].
  intros k v Hk H1 H2 H3.
  rewrite get_delete, get_set, get_own, !get_set.
  destruct (String.eqb_spec "Host" k); [congruence |].
  destruct (String.eqb_spec "Authorization" k); [congruence |].
  destruct (String.eqb_spec "X-Amz-Date" k); [congruence |].
  cbn [negb]. now rewrite Hk.
Qed.


End RequestFacts.

Lemma request_fails_first_without_credentials_witness :
  @AWS.request Sample.host_200 Sample.unconfigured (Sample.call "iam")
  = (Throw (error "AWS access key id not specified"), [])
  /\ @AWS.request Sample.host_200 Sample.without_credentials (Sample.call "iam")
     = (Throw TypeError, [])
  /\ AWS.request_accessKeyId Sample.without_credentials Sample.signed_call
     = Ok (Some "AKIDEXAMPLE").
Proof.
  split; [| split].
  - destruct (@request_fails_first_without_credentials Sample.host_200
                Sample.unconfigured (Sample.call "iam")) as (H & _).
    destruct (H _ eq_refl) as [Hk _]. apply Hk; reflexivity.
  - destruct (@request_fails_first_without_credentials Sample.host_200
                Sample.without_credentials (Sample.call "iam")) as (_ & H & _).
    apply H; [reflexivity | now left].
  - destruct (@request_fails_first_without_credentials Sample.host_200
                Sample.without_credentials Sample.signed_call) as (_ & _ & H & _).
    apply (H "AKIDEXAMPLE" eq_refl).
Defined.

(** C5, as the claim states it, fails: with no [credentials] object in the
    configuration and no credentials in the parameters, no credential is
    present, and the call throws a [TypeError], which is none of the
    configuration errors. *)
Lemma request_without_a_credentials_object_throws_a_type_error :
  Spec.credential_missing Sample.without_credentials (Sample.call "iam")
  /\ @AWS.request Sample.host_200 Sample.without_credentials (Sample.call "iam")
     = (Throw TypeError, [])
  /\ ~ Spec.credentials_error TypeError.
Proof.
  split; [left; split; reflexivity |]. split; [reflexivity |].
  intros [H | H]; discriminate H.
Qed.

Lemma request_hands_over_signed_headers_witness :
  exists (uri : string) (options : UrlFetchApp.Options),
    fetches (trace (@AWS.request Sample.host_200 AWS.config Sample.signed_call))
    = [(uri, options)]
    /\ JS.hasOwn (UrlFetchApp.headers options) "Host" = false
    /\ JS.get (UrlFetchApp.headers options) "Content-Type"
       = Some (JS.Own "application/json")
    /\ JS.get (UrlFetchApp.headers options) "Authorization"
       = Some (JS.Own
                 ("AWS4-HMAC-SHA256 Credential=AKIDEXAMPLE/20150830/us-west-2/lambda/aws4_request, "
                  ++ "SignedHeaders=content-type;host;x-amz-date, "
                  ++ "Signature=ac798dbe1c769ef796b7fd493432469c56edd785301a4f0ab084ab7a9e65ada5")).
Proof.
  eexists _, _. split; [reflexivity |].
  match goal with
  | |- JS.hasOwn (UrlFetchApp.headers ?o) _ = _ /\ _ =>
      destruct (@request_hands_over_signed_headers Sample.host_200 AWS.config
                  Sample.signed_call _ o (or_introl eq_refl))
        as (a & s & region & dF & dS & qs & host & H)
  end.
  cbv zeta in H.
  destruct H as (Ea & Es & Er & Ef & Eh & Eq & Ehost & _ & Hauth & _ & Hhost & Hkeep).
  injection Ea as <-. injection Es as <-. injection Er as <-.
  injection Ef as <-. injection Eh as <-. injection Eq as <-.
  injection Ehost as <-.
  split; [exact Hhost |].
  split; [apply (Hkeep "Content-Type" "application/json" eq_refl); discriminate |].
  refine (eq_trans Hauth _). vm_compute. reflexivity.
Defined.


(* ------------------------------------------------------------------ *)
(** *** The host name *)

Lemma single_endpoint_truthy (service endpoint : string) :
  JS.get AWS.AWS_SINGLE_ENDPOINT service = Some endpoint ->
  JS.truthy endpoint = true.
Proof.
  unfold AWS.AWS_SINGLE_ENDPOINT. cbn [JS.get].
  repeat (destruct (String.eqb _ service); [intros [= <-]; reflexivity |]).
  discriminate.
Qed.

Lemma single_endpoint_not_inherited (service endpoint : string) :
  JS.get AWS.AWS_SINGLE_ENDPOINT service = Some endpoint ->
  JS.inherited service = false.
Proof.
  intros H. unfold AWS.AWS_SINGLE_ENDPOINT in H. cbn [JS.get] in H.
  repeat match type of H with
         | context [String.eqb ?k service] =>
             destruct (String.eqb_spec k service) as [<- | _]; [reflexivity |]
         end.
  discriminate H.
Qed.

(** A service of the table of single endpoints has its fixed host, whatever
    the region. *)
Lemma resolve_host_single_endpoint (service region endpoint : string) :
  JS.get AWS.AWS_SINGLE_ENDPOINT service = Some endpoint ->
  AWS.resolve_host service region = JS.Own endpoint.
Proof.
  intros H. unfold AWS.resolve_host, JS.lookup. rewrite H.
  cbn [JS.member_truthy]. now rewrite (single_endpoint_truthy service endpoint H).
Qed.

(** A service that is neither in the table nor the name of a member of
    [Object.prototype] has the host of its region. *)
Lemma resolve_host_regional (service region : string) :
  JS.get AWS.AWS_SINGLE_ENDPOINT service = None ->
  JS.inherited service = false ->
  AWS.resolve_host service region
  = JS.Own (service ++ "." ++ region ++ ".amazonaws.com").
Proof.
  intros Hg Hi. unfold AWS.resolve_host, JS.lookup. now rewrite Hg, Hi.
Qed.

(** A service named as a member of [Object.prototype] gets that member for
    its host. *)
Lemma resolve_host_inherited (service region : string) :
  JS.inherited service = true ->
  AWS.resolve_host service region = JS.Inherited service.
Proof.
  intros Hi. unfold AWS.resolve_host, JS.lookup.
  destruct (JS.get AWS.AWS_SINGLE_ENDPOINT service) as [endpoint |] eqn:Hg.
  - apply single_endpoint_not_inherited in Hg. congruence.
  - rewrite Hi. reflexivity.
Qed.

Section HostFacts.
Context {RT : Runtime}.

(** With a service named as a member of [Object.prototype], a configured
    call throws a [TypeError] and nothing is sent. *)
Lemma request_of_inherited_service
  (cfg : AWS.Config.AWSConfig) (params : AWS.RequestParams) (a s region : string) :
  AWS.request_accessKeyId cfg params = Ok (Some a) ->
  AWS.request_secretAccessKey cfg params = Ok (Some s) ->
  AWS.request_region cfg params = Some region ->
  JS.inherited (JS.toLowerCase (AWS.service params)) = true ->
  AWS.request cfg params = (Throw TypeError, []).
Proof.
  intros Ea Es Er Hi.
  destruct (request_cases cfg params)
    as [[e E] | (a' & s' & region' & dF & dS & qs & temp & uri & options & H)].
  - rewrite E. apply request_throws_before_sending in E.
    destruct E as [[H _] | [[H _] | [[H _] | ->]]]; congruence.
  - cbv zeta in H. destruct H as (_ & _ & Er' & _ & _ & _ & Et & _).
    rewrite (getCanonicalRequestHash_of_inherited _ _ _ _ _ "Host"
               (JS.toLowerCase (AWS.service params))) in Et; [discriminate |].
    rewrite get_set. cbn [String.eqb Ascii.eqb Bool.eqb]. rewrite get_set.
    rewrite String.eqb_refl. f_equal. now apply resolve_host_inherited.
Qed.

End HostFacts.

(** C8 at the service name [constructor], which is not in the table of
    single endpoints: the host is the member [constructor] of
    [Object.prototype], not "constructor.us-west-1.amazonaws.com", and the
    call throws a [TypeError] before anything is sent. *)
Lemma request_of_service_constructor_throws :
  AWS.resolve_host "constructor" "us-west-1" = JS.Inherited "constructor"
  /\ @AWS.request Sample.host_200 AWS.config (Sample.call "constructor")
     = (Throw TypeError, []).
Proof. split; vm_compute; reflexivity. Qed.

(* ------------------------------------------------------------------ *)
(** *** [Lambda.invoke] *)

Lemma is_2xx_test (code : Z) :
  ((code <? 200) || (code >? 299))%Z = negb (Spec.is_2xx code).
Proof.
  unfold Spec.is_2xx.
  destruct (Z.ltb_spec code 200), (Z.leb_spec 200 code), (Z.leb_spec code 299);
    rewrite ?Z.gtb_ltb; destruct (Z.ltb_spec 299 code); cbn; try reflexivity; lia.
Qed.

Section InvokeFacts.
Context {RT : Runtime}.

(** What [decode_log] gives for the header [X-Amz-Log-Result]. *)
Lemma decode_log_cases (header : option string) :
  match header with
  | Some (String c text) =>
      AWS.Lambda.decode_log header
      = (bytes <~ base64Decode (String c text) ;; Ok (Some bytes))
  | _ => AWS.Lambda.decode_log header = Ok None
  end.
Proof. destruct header as [[|c text] |]; reflexivity. Qed.

(** X26. When the transport answers the request of [invoke] and the body of
    the response is JSON text: if the response has a header
    [X-Amz-Log-Result] that is not empty and [Utilities.base64Decode]
    throws on it, [invoke] throws the same; otherwise the log tail is the
    decoded header, or [undefined] when the header is absent or empty, and
    with a status code within 200..299 [invoke] returns the status code,
    the header [X-Amz-Executed-Version], the log tail and the parsed body,
    while with another status code it logs this record and throws an
    [Error] made from the [errorMessage] of the body, or from its [message]
    when [errorMessage] is absent or falsy. *)
Theorem invoke_interprets_a_json_response
  (cfg : AWS.Config.AWSConfig) (params : AWS.Lambda.LambdaInvokeParams)
  (response : UrlFetchApp.HTTPResponse) (t : list Event) (body : json) :
  AWS.request cfg (AWS.Lambda.requestParams cfg params) = (Ok response, t) ->
  JSONParse.parse (UrlFetchApp.getContentText response) = Ok body ->
  let result log :=
    {| InvokeResult.StatusCode := UrlFetchApp.getResponseCode response;
       InvokeResult.ExecutedVersion :=
         JS.get (UrlFetchApp.getAllHeaders response) "X-Amz-Executed-Version";
       InvokeResult.LogResult := log;
       InvokeResult.Payload := body |} in
  let answer log :=
    if Spec.is_2xx (UrlFetchApp.getResponseCode response)
    then (Ok (result log), t)
    else (Throw (Error (JSON.or_else (JSON.member body "errorMessage")
                                     (JSON.member body "message"))),
          (t ++ [ConsoleError (result log)])%list) in
  match JS.get (UrlFetchApp.getAllHeaders response) "X-Amz-Log-Result" with
  | Some (String c text) =>
      match base64Decode (String c text) with
      | Ok bytes => AWS.Lambda.invoke cfg params = answer (Some bytes)
      | Throw e => AWS.Lambda.invoke cfg params = (Throw e, t)
      end
  | _ => AWS.Lambda.invoke cfg params = answer None
  end.
Proof.
  intros Hr Hp result answer.
  assert (G : forall log,
             AWS.Lambda.decode_log
               (JS.get (UrlFetchApp.getAllHeaders response) "X-Amz-Log-Result")
             = Ok log ->
             AWS.Lambda.invoke cfg params = answer log).
  { intros log Hl. unfold AWS.Lambda.invoke.
    rewrite Hr, bind_ok. rewrite bind_lift, Hp, bind_lift, Hl.
    cbn [InvokeResult.StatusCode InvokeResult.Payload].
    rewrite is_2xx_test. unfold answer, result.
    destruct (Spec.is_2xx (UrlFetchApp.getResponseCode response)); cbn [negb].
    - cbn [ret outcome trace fst snd]. now rewrite app_nil_r.
    - cbn [AWS.Lambda.console_error bind lift outcome trace fst snd app].
      reflexivity. }
  pose proof (decode_log_cases
                (JS.get (UrlFetchApp.getAllHeaders response) "X-Amz-Log-Result"))
    as Hd.
  destruct (JS.get (UrlFetchApp.getAllHeaders response) "X-Amz-Log-Result")
    as [[|c text] |] eqn:Eh; try (apply G; exact Hd).
  destruct (base64Decode (String c text)) as [bytes | e] eqn:Eb.
  - apply G. rewrite Hd. reflexivity.
  - unfold AWS.Lambda.invoke.
    rewrite Hr, bind_ok. rewrite bind_lift, Hp, bind_lift, Eh, Hd.
    cbn [bindO outcome trace fst snd]. now rewrite app_nil_r.
Qed.

End InvokeFacts.

Lemma invoke_interprets_a_json_response_witness :
  (exists (uri : string) (options : UrlFetchApp.Options),
     @AWS.Lambda.invoke Sample.host_404 AWS.config Sample.invocation
     = (Throw (error "not found"),
        [Fetched uri options;
         ConsoleError
           {| InvokeResult.StatusCode := 404;
              InvokeResult.ExecutedVersion := Some "$LATEST";
              InvokeResult.LogResult := None;
              InvokeResult.Payload :=
                JObject [(units "errorMessage", JString (units "not found"))] |}]))
  /\ outcome (@AWS.Lambda.invoke Sample.host_200 AWS.config Sample.invocation)
     = Ok {| InvokeResult.StatusCode := 200;
             InvokeResult.ExecutedVersion := Some "7";
             InvokeResult.LogResult := Some [104; 105]%Z;
             InvokeResult.Payload := JObject [(units "ok", JBool true)] |}.
Proof.
  split.
  - eexists _, _.
    refine (eq_trans
              (@invoke_interprets_a_json_response Sample.host_404 AWS.config
                 Sample.invocation
                 (Sample.response 404 [("X-Amz-Executed-Version", "$LATEST")]
                    Sample.not_found_body)
                 _ _ eq_refl eq_refl) _).
    reflexivity.
  - unfold outcome.
    rewrite (@invoke_interprets_a_json_response Sample.host_200 AWS.config
               Sample.invocation
               (Sample.response 200
                  [("X-Amz-Executed-Version", "7"); ("X-Amz-Log-Result", "aGk=")]
                  ("{" ++ Sample.dq ++ "ok" ++ Sample.dq ++ ":true}"))
               _ _ eq_refl eq_refl).
    reflexivity.
Defined.

(** C6 at an invocation of type [Event], which the service answers with the
    status 202 and an empty body: [invoke] hands the request over with
    [InvocationType=Event], the transport answers 202 with no body, and
    [invoke] throws a [SyntaxError], where the claim has it return the
    record of the status code 202. *)
Lemma invoke_of_an_event_throws_on_the_empty_answer :
  Spec.is_2xx 202 = true
  /\ (exists options : UrlFetchApp.Options,
        @AWS.Lambda.invoke Sample.host_202 AWS.config Sample.event_invocation
        = (Throw SyntaxError,
           [Fetched
              "https://lambda.us-west-1.amazonaws.com/2015-03-31/functions/foo/invocations?InvocationType=Event"
              options])
        /\ @fetch Sample.host_202
             "https://lambda.us-west-1.amazonaws.com/2015-03-31/functions/foo/invocations?InvocationType=Event"
             options
           = Ok (Sample.response 202 [] EmptyString)).
Proof.
  split; [reflexivity |]. eexists. split; [vm_compute; reflexivity | reflexivity].
Qed.

Lemma headers_keep_one_entry_per_key_and_collapse_runs_witness :
  exists pairs : list (string * string),
    AWS.headerArrays (Spec.own [("Host", "a  b"); ("host", " c ")])
    = Ok (map Spec.header_line pairs, map fst pairs)
    /\ List.length pairs = 2%nat
    /\ JS.replace_space_runs ("a" ++ "  " ++ "b") = "a b".
Proof.
  destruct (headers_keep_one_entry_per_key_and_collapse_runs
              [("Host", "a  b"); ("host", " c ")])
    as (pairs & H1 & _ & _ & H4 & _ & _ & H7).
  exists pairs. split; [exact H1 |]. split; [exact H4 |].
  apply (H7 "a" "  " "b"); [reflexivity | split; [reflexivity | apply le_n] | reflexivity].
Defined.

(* ------------------------------------------------------------------ *)
(** *** The date strings *)

Lemma digits_of_prefix (n : nat) (x rest : string) :
  Spec.digits_of_length n x -> AWS.digits n (x ++ rest) = Some (x, rest).
Proof.
  revert x. induction n as [|n IH]; intros x [Hlen Hd].
  - destruct x; [reflexivity | discriminate].
  - destruct x as [|c x]; [discriminate |].
    cbn [JS.sforall] in Hd. apply andb_true_iff in Hd. destruct Hd as [Hc Hx].
    cbn [append AWS.digits]. rewrite Hc, (IH x); [reflexivity |].
    split; [now injection Hlen | exact Hx].
Qed.

Lemma digits_result (n : nat) (s x rest : string) :
  AWS.digits n s = Some (x, rest) ->
  Spec.digits_of_length n x /\ s = x ++ rest.
Proof.
  revert s x. induction n as [|n IH]; intros s x; cbn [AWS.digits].
  - intros [= <- <-]. repeat split.
  - destruct s as [|c s]; [discriminate |].
    destruct (JS.is_digit c) eqn:Hc; [| discriminate].
    destruct (AWS.digits n s) as [[ds r] |] eqn:E; [| discriminate].
    intros [= <- <-]. destruct (IH s ds E) as [[Hlen Hd] ->].
    repeat split; cbn; [now rewrite Hlen | now rewrite Hc, Hd].
Qed.

Lemma lit_result (c : ascii) (s rest : string) :
  AWS.lit c s = Some rest <-> s = String c rest.
Proof.
  destruct s as [|d s]; cbn; [split; discriminate |].
  destruct (Ascii.eqb_spec c d) as [-> | Hne]; split; congruence.
Qed.

(** What a match of [DATE_VALUES_REGEX] at the head of a string is. *)
Lemma match_here_result (s : string) (groups : list string) :
  AWS.match_here s = Some groups <->
  exists y mo d h mi sec rest,
    groups = [y; mo; d; h; mi; sec]
    /\ Spec.digits_of_length 4 y /\ Spec.digits_of_length 2 mo
    /\ Spec.digits_of_length 2 d /\ Spec.digits_of_length 2 h
    /\ Spec.digits_of_length 2 mi /\ Spec.digits_of_length 2 sec
    /\ s = y ++ "-" ++ mo ++ "-" ++ d ++ "T" ++ h ++ ":" ++ mi ++ ":" ++ sec ++ rest.
Proof.
  split.
  - unfold AWS.match_here, AWS.bindOpt.
    destruct (AWS.digits 4 s) as [[y s1] |] eqn:E1; [| discriminate].
    destruct (AWS.lit "-" s1) as [s2 |] eqn:L1; [| discriminate].
    destruct (AWS.digits 2 s2) as [[mo s3] |] eqn:E2; [| discriminate].
    destruct (AWS.lit "-" s3) as [s4 |] eqn:L2; [| discriminate].
    destruct (AWS.digits 2 s4) as [[d s5] |] eqn:E3; [| discriminate].
    destruct (AWS.lit "T" s5) as [s6 |] eqn:L3; [| discriminate].
    destruct (AWS.digits 2 s6) as [[h s7] |] eqn:E4; [| discriminate].
    destruct (AWS.lit ":" s7) as [s8 |] eqn:L4; [| discriminate].
    destruct (AWS.digits 2 s8) as [[mi s9] |] eqn:E5; [| discriminate].
    destruct (AWS.lit ":" s9) as [s10 |] eqn:L5; [| discriminate].
    destruct (AWS.digits 2 s10) as [[sec s11] |] eqn:E6; [| discriminate].
    intros [= <-].
    apply digits_result in E1, E2, E3, E4, E5, E6.
    apply lit_result in L1, L2, L3, L4, L5.
    destruct E1 as [H1 ->], E2 as [H2 ->], E3 as [H3 ->], E4 as [H4 ->],
             E5 as [H5 ->], E6 as [H6 ->].
    subst. exists y, mo, d, h, mi, sec, s11.
    repeat (split; [assumption || reflexivity |]). reflexivity.
  - intros (y & mo & d & h & mi & sec & rest & -> & H1 & H2 & H3 & H4 & H5 & H6 & ->).
    unfold AWS.match_here, AWS.bindOpt.
    rewrite (digits_of_prefix 4 y _ H1). cbn [append AWS.lit Ascii.eqb Bool.eqb].
    rewrite (digits_of_prefix 2 mo _ H2). cbn [append AWS.lit Ascii.eqb Bool.eqb].
    rewrite (digits_of_prefix 2 d _ H3). cbn [append AWS.lit Ascii.eqb Bool.eqb].
    rewrite (digits_of_prefix 2 h _ H4). cbn [append AWS.lit Ascii.eqb Bool.eqb].
    rewrite (digits_of_prefix 2 mi _ H5). cbn [append AWS.lit Ascii.eqb Bool.eqb].
    rewrite (digits_of_prefix 2 sec _ H6). reflexivity.
Qed.

Lemma exec_groups (s : string) (groups : list string) :
  AWS.DATE_VALUES_REGEX_exec s = Some groups ->
  exists y mo d h mi sec,
    groups = [y; mo; d; h; mi; sec]
    /\ Spec.digits_of_length 4 y /\ Spec.digits_of_length 2 mo
    /\ Spec.digits_of_length 2 d /\ Spec.digits_of_length 2 h
    /\ Spec.digits_of_length 2 mi /\ Spec.digits_of_length 2 sec.
Proof.
  induction s as [|c s IH]; cbn [AWS.DATE_VALUES_REGEX_exec].
  - destruct (AWS.match_here "") eqn:E; [| discriminate].
    intros [= <-]. apply match_here_result in E.
    destruct E as (y & mo & d & h & mi & sec & rest & E & H).
    destruct H as (H1 & H2 & H3 & H4 & H5 & H6 & _).
    exists y, mo, d, h, mi, sec. auto 10.
  - destruct (AWS.match_here (String c s)) eqn:E; [| exact IH].
    intros [= <-]. apply match_here_result in E.
    destruct E as (y & mo & d & h & mi & sec & rest & E & H).
    destruct H as (H1 & H2 & H3 & H4 & H5 & H6 & _).
    exists y, mo, d, h, mi, sec. auto 10.
Qed.

(** X1. The two date strings are read from the same match of
    [DATE_VALUES_REGEX]: [getCanonicalFullDate] returns for a date exactly
    when [getCanonicalShortDate] does, and then the short date is eight
    digits and the full date is the short date, a [T], six digits and a
    [Z]. *)
Theorem canonical_dates_go_together (date : Date) :
  ((exists full, AWS.getCanonicalFullDate date = Ok full)
   <-> (exists day, AWS.getCanonicalShortDate date = Ok day))
  /\ (forall full day : string,
        AWS.getCanonicalFullDate date = Ok full ->
        AWS.getCanonicalShortDate date = Ok day ->
        Spec.digits_of_length 8 day
        /\ exists time : string,
             Spec.digits_of_length 6 time
             /\ full = day ++ "T" ++ time ++ "Z").
Proof.
  unfold AWS.getCanonicalFullDate, AWS.getCanonicalShortDate.
  destruct (AWS.DATE_VALUES_REGEX_exec (toISOString date)) as [groups |] eqn:E.
  - apply exec_groups in E.
    destruct E as (y & mo & d & h & mi & sec & -> & Hy & Hmo & Hd & Hh & Hmi & Hsec).
    cbn [AWS.group Nat.sub nth bindO]. split.
    + split; intros _; eexists; reflexivity.
    + intros full day [= <-] [= <-].
      unfold Spec.digits_of_length in *.
      destruct Hy as [Ly Dy], Hmo as [Lmo Dmo], Hd as [Ld Dd], Hh as [Lh Dh],
               Hmi as [Lmi Dmi], Hsec as [Lsec Dsec].
      split.
      * rewrite !length_append, !sforall_append, Ly, Lmo, Ld, Dy, Dmo, Dd.
        now split.
      * exists (h ++ mi ++ sec). split.
        -- rewrite !length_append, !sforall_append, Lh, Lmi, Lsec, Dh, Dmi, Dsec.
           now split.
        -- now rewrite !append_assoc.
  - cbn [AWS.group bindO]. split.
    + split; intros [x H]; discriminate H.
    + intros full day H. discriminate H.
Qed.

(** X2. When the ISO string of the date starts with YYYY-MM-DDTHH:mm:ss,
    whatever follows, [getCanonicalFullDate] returns YYYYMMDDTHHmmssZ and
    [getCanonicalShortDate] returns YYYYMMDD. *)
Theorem canonical_dates_of_iso_string
  (date : Date) (y mo d h mi sec rest : string) :
  Spec.digits_of_length 4 y -> Spec.digits_of_length 2 mo ->
  Spec.digits_of_length 2 d -> Spec.digits_of_length 2 h ->
  Spec.digits_of_length 2 mi -> Spec.digits_of_length 2 sec ->
  toISOString date
  = y ++ "-" ++ mo ++ "-" ++ d ++ "T" ++ h ++ ":" ++ mi ++ ":" ++ sec ++ rest ->
  AWS.getCanonicalFullDate date = Ok (y ++ mo ++ d ++ "T" ++ h ++ mi ++ sec ++ "Z")
  /\ AWS.getCanonicalShortDate date = Ok (y ++ mo ++ d).
Proof.
  intros Hy Hmo Hd Hh Hmi Hsec E.
  assert (M : AWS.DATE_VALUES_REGEX_exec (toISOString date)
              = Some [y; mo; d; h; mi; sec]).
  { assert (M : AWS.match_here (toISOString date) = Some [y; mo; d; h; mi; sec]).
    { apply match_here_result. exists y, mo, d, h, mi, sec, rest. auto 10. }
    destruct (toISOString date); cbn [AWS.DATE_VALUES_REGEX_exec]; now rewrite M. }
  unfold AWS.getCanonicalFullDate, AWS.getCanonicalShortDate. rewrite M.
  split; reflexivity.
Qed.

Lemma canonical_dates_of_iso_string_witness :
  AWS.getCanonicalFullDate {| toISOString := "2015-08-30T12:36:00.000Z" |}
  = Ok "20150830T123600Z"
  /\ AWS.getCanonicalShortDate {| toISOString := "2015-08-30T12:36:00.000Z" |}
     = Ok "20150830".
Proof.
  apply (canonical_dates_of_iso_string {| toISOString := "2015-08-30T12:36:00.000Z" |}
           "2015" "08" "30" "12" "36" "00" ".000Z");
    try (split; reflexivity); reflexivity.
Defined.

(* ------------------------------------------------------------------ *)
(** *** More on the canonical query string *)




(** X4. Two query mappings with distinct keys and the same pairs, enumerated
    in different orders, give the same result of [getCanonicalQueryString]. *)
Theorem canonical_query_string_ignores_the_enumeration_order
  (q1 q2 : JS.JSObject AWS.qvalue) :
  NoDup (JS.keys q1) -> Permutation q1 q2 ->
  AWS.getCanonicalQueryString q1 = AWS.getCanonicalQueryString q2.
Proof. apply getCanonicalQueryString_permutation. Qed.

Lemma canonical_query_string_ignores_the_enumeration_order_witness :
  AWS.getCanonicalQueryString [("b", AWS.QNumber (JS.number 2 eq_refl)); ("a", AWS.QNumber (JS.number 1 eq_refl))]
  = AWS.getCanonicalQueryString [("a", AWS.QNumber (JS.number 1 eq_refl)); ("b", AWS.QNumber (JS.number 2 eq_refl))].
Proof.
  apply canonical_query_string_ignores_the_enumeration_order.
  - repeat constructor; cbn; intuition discriminate.
  - apply perm_swap.
Defined.

(** X5. [getCanonicalQueryString] throws a [TypeError] exactly on the
    mappings that have an own key named [hasOwnProperty]. *)
Theorem canonical_query_string_throws_a_type_error_on_one_key_only
  (query : JS.JSObject AWS.qvalue) :
  AWS.getCanonicalQueryString query = Throw TypeError
  <-> JS.hasOwn query "hasOwnProperty" = true.
Proof.
  split.
  - intros He. destruct (JS.hasOwn query "hasOwnProperty") eqn:Hno; [reflexivity |].
    unfold AWS.getCanonicalQueryString in He.
    rewrite (queryParts_own query (JS.keys query) Hno) in He by auto.
    discriminate He.
  - apply getCanonicalQueryString_hasOwnProperty.
Qed.

(* ------------------------------------------------------------------ *)
(** *** More on [request] *)

Section RequestExtras.
Context {RT : Runtime}.

(** X6. A call of [request] throws with nothing handed to the transport, or
    hands it exactly one request and returns or throws what
    [UrlFetchApp.fetch] returns or throws for it. *)
Theorem request_calls_the_transport_at_most_once
  (cfg : AWS.Config.AWSConfig) (params : AWS.RequestParams) :
  (exists e, AWS.request cfg params = (Throw e, []))
  \/ (exists uri options,
        AWS.request cfg params = (fetch uri options, [Fetched uri options])).
Proof.
  destruct (request_cases cfg params)
    as [H | (a & s & region & dF & dS & qs & temp & uri & options & H)];
    [now left | right].
  exists uri, options. cbv zeta in H. apply H.
Qed.

(** What the configuration decides of a call, step by step. *)
Lemma request_by_configuration
  (cfg : AWS.Config.AWSConfig) (params : AWS.RequestParams) :
  match AWS.request_accessKeyId cfg params with
  | Throw e => AWS.request cfg params = (Throw e, []) /\ e = TypeError
  | Ok None =>
      AWS.request cfg params
      = (Throw (error "AWS access key id not specified"), [])
  | Ok (Some a) =>
      match AWS.request_secretAccessKey cfg params with
      | Throw e => AWS.request cfg params = (Throw e, []) /\ e = TypeError
      | Ok None =>
          AWS.request cfg params
          = (Throw (error "AWS secret access key not specified"), [])
      | Ok (Some s) =>
          match AWS.request_region cfg params with
          | None =>
              AWS.request cfg params
              = (Throw (error "AWS region not specified"), [])
          | Some region =>
              forall e, AWS.request cfg params = (Throw e, []) -> e = TypeError
          end
      end
  end.
Proof.
  destruct (AWS.request_accessKeyId cfg params) as [[a |] | e1] eqn:Ea.
  - destruct (AWS.request_secretAccessKey cfg params) as [[s |] | e1] eqn:Es.
    + destruct (AWS.request_region cfg params) as [region |] eqn:Er.
      * intros e He. apply request_throws_before_sending in He.
        destruct He as [[H _] | [[H _] | [[H _] | H]]]; congruence.
      * unfold AWS.request. rewrite Ea, Es, Er. cbn [AWS.assert_not_null].
        rewrite !bind_lift. reflexivity.
    + unfold AWS.request. rewrite Ea, Es. cbn [AWS.assert_not_null].
      rewrite !bind_lift. reflexivity.
    + split; [| now apply nullish_default_throws in Es].
      unfold AWS.request. rewrite Ea, Es. cbn [AWS.assert_not_null].
      rewrite !bind_lift. reflexivity.
  - unfold AWS.request. rewrite Ea. reflexivity.
  - split; [| now apply nullish_default_throws in Ea].
    unfold AWS.request. rewrite Ea. reflexivity.
Qed.

Ltac config_case H :=
  split; [| split];
  (split; intros Hx;
   [ first [ rewrite H in Hx;
             first [ vm_compute in Hx; discriminate Hx
                   | repeat split; eauto ]
           | apply H in Hx; vm_compute in Hx; discriminate Hx ]
   | first [ exact H
           | exfalso; decompose [and ex] Hx; congruence ] ]).

(** X7. Each configuration error of [request] has one cause.  A call
    throws the error of the access key id, with nothing sent, exactly when
    the access key id resolves to [null] or [undefined]; the error of the
    secret access key exactly when the access key id is resolved and the
    secret access key resolves to [null] or [undefined]; the error of the
    region exactly when both are resolved and the region is [null] or
    [undefined]. *)
Theorem request_errors_before_the_transport
  (cfg : AWS.Config.AWSConfig) (params : AWS.RequestParams) :
  (AWS.request cfg params
   = (Throw (error "AWS access key id not specified"), [])
   <-> AWS.request_accessKeyId cfg params = Ok None)
  /\ (AWS.request cfg params
      = (Throw (error "AWS secret access key not specified"), [])
      <-> (exists a, AWS.request_accessKeyId cfg params = Ok (Some a))
          /\ AWS.request_secretAccessKey cfg params = Ok None)
  /\ (AWS.request cfg params
      = (Throw (error "AWS region not specified"), [])
      <-> (exists a, AWS.request_accessKeyId cfg params = Ok (Some a))
          /\ (exists s, AWS.request_secretAccessKey cfg params = Ok (Some s))
          /\ AWS.request_region cfg params = None).
Proof.
  pose proof (request_by_configuration cfg params) as H.
  destruct (AWS.request_accessKeyId cfg params) as [[a |] | e1].
  - destruct (AWS.request_secretAccessKey cfg params) as [[s |] | e1].
    + destruct (AWS.request_region cfg params) as [region |].
      * config_case H.
      * config_case H.
    + config_case H.
    + destruct H as [H ->]. config_case H.
  - config_case H.
  - destruct H as [H ->]. config_case H.
Qed.

(** X8. With credentials, no default region and a region parameter absent or
    empty, [request] throws the error of the missing region and sends
    nothing. *)
Theorem request_without_a_region_fails
  (cfg : AWS.Config.AWSConfig) (params : AWS.RequestParams) (a s : string) :
  AWS.request_accessKeyId cfg params = Ok (Some a) ->
  AWS.request_secretAccessKey cfg params = Ok (Some s) ->
  AWS.Config.region cfg = None ->
  AWS.region params = None \/ AWS.region params = Some "" ->
  AWS.request cfg params = (Throw (error "AWS region not specified"), []).
Proof.
  intros Ea Es Hc Hp.
  assert (Er : AWS.request_region cfg params = None).
  { unfold AWS.request_region. destruct Hp as [-> | ->]; exact Hc. }
  unfold AWS.request, AWS.assert_not_null. rewrite Ea, Es, Er.
  rewrite !bind_lift. reflexivity.
Qed.

(** X9. A request for a service of [AWS_SINGLE_ENDPOINT] goes to the
    endpoint of the table, whatever the region: the URI is https://, the
    endpoint, the path and the query part. *)
Theorem request_of_a_single_endpoint_service
  (cfg : AWS.Config.AWSConfig) (params : AWS.RequestParams)
  (endpoint uri : string) (options : UrlFetchApp.Options) :
  JS.get AWS.AWS_SINGLE_ENDPOINT (JS.toLowerCase (AWS.service params)) = Some endpoint ->
  In (uri, options) (fetches (trace (AWS.request cfg params))) ->
  exists qs : string,
    AWS.getCanonicalQueryString (AWS.request_query params) = Ok qs
    /\ uri = "https://" ++ endpoint ++ AWS.request_path params
             ++ (if JS.truthy qs then "?" ++ qs else "").
Proof.
  intros He Hin.
  destruct (request_cases cfg params)
    as [[e E] | (a & s & region & dF & dS & qs & temp & uri0 & options0 & H)].
  - rewrite E in Hin. contradiction.
  - cbv zeta in H. destruct H as (_ & _ & _ & _ & _ & Eq & _ & Eu & _ & E).
    rewrite E in Hin. cbn [trace snd fetches In] in Hin.
    destruct Hin as [[= <- <-] | []].
    exists qs. split; [exact Eq |]. rewrite Eu.
    rewrite (resolve_host_single_endpoint _ region endpoint He). reflexivity.
Qed.

(** X10. A request for a service that is no key of [AWS_SINGLE_ENDPOINT]
    goes to service.region.amazonaws.com, and the service is then no member
    name of [Object.prototype]. *)
Theorem request_of_a_regional_service
  (cfg : AWS.Config.AWSConfig) (params : AWS.RequestParams)
  (uri : string) (options : UrlFetchApp.Options) :
  JS.get AWS.AWS_SINGLE_ENDPOINT (JS.toLowerCase (AWS.service params)) = None ->
  In (uri, options) (fetches (trace (AWS.request cfg params))) ->
  exists region qs : string,
    AWS.request_region cfg params = Some region
    /\ AWS.getCanonicalQueryString (AWS.request_query params) = Ok qs
    /\ JS.inherited (JS.toLowerCase (AWS.service params)) = false
    /\ uri = "https://" ++ JS.toLowerCase (AWS.service params) ++ "." ++ region
             ++ ".amazonaws.com" ++ AWS.request_path params
             ++ (if JS.truthy qs then "?" ++ qs else "").
Proof.
  intros He Hin.
  destruct (request_cases cfg params)
    as [[e E] | (a & s & region & dF & dS & qs & temp & uri0 & options0 & H)].
  - rewrite E in Hin. contradiction.
  - cbv zeta in H. destruct H as (Ea & Es & Er & _ & _ & Eq & _ & Eu & _ & E).
    assert (Hi : JS.inherited (JS.toLowerCase (AWS.service params)) = false).
    { destruct (JS.inherited (JS.toLowerCase (AWS.service params))) eqn:Hi;
        [| reflexivity].
      rewrite (request_of_inherited_service cfg params a s region Ea Es Er Hi) in E.
      discriminate E. }
    rewrite E in Hin. cbn [trace snd fetches In] in Hin.
    destruct Hin as [[= <- <-] | []].
    exists region, qs. repeat (split; [assumption |]). rewrite Eu.
    rewrite (resolve_host_regional _ region He Hi).
    unfold AWS.request_uri. cbn [JS.member_toString].
    now rewrite !append_assoc.
Qed.


Lemma request_path_slash (params : AWS.RequestParams) :
  exists rest, AWS.request_path params = String "/" rest.
Proof.
  unfold AWS.request_path.
  destruct (AWS.path params) as [[|c p] |]; cbn [substring]; try (eexists; reflexivity).
  destruct p; cbn [substring];
    (destruct (String.eqb_spec (String c EmptyString) "/") as [E | _]; cbn [negb];
     [injection E as ->; eexists; reflexivity | eexists; reflexivity]).
Qed.

Lemma request_path_given (params : AWS.RequestParams) (p : string) :
  AWS.path params = Some (String "/" p) ->
  AWS.request_path params = String "/" p.
Proof.
  intros H. unfold AWS.request_path. rewrite H. now destruct p.
Qed.

Lemma request_method_known (params : AWS.RequestParams) :
  In (AWS.request_method params) Spec.methods.
Proof.
  unfold AWS.request_method, Spec.methods.
  destruct (AWS.method params) as [[] |]; cbn; auto 6.
Qed.

(** X12. Every request handed to the transport has one of the five methods
    in upper case ([GET] when none is given), [muteHttpExceptions] set, the
    payload string as its body (empty when no payload is given) and the URI
    https://host/rest with the query part, where rest is what follows the
    leading slash of the given path. *)
Theorem request_hands_over_method_payload_and_uri
  (cfg : AWS.Config.AWSConfig) (params : AWS.RequestParams)
  (uri : string) (options : UrlFetchApp.Options) :
  In (uri, options) (fetches (trace (AWS.request cfg params))) ->
  In (UrlFetchApp.method options) Spec.methods
  /\ (AWS.method params = None -> UrlFetchApp.method options = "GET")
  /\ UrlFetchApp.muteHttpExceptions options = true
  /\ (forall text, AWS.payload params = Some (AWS.PString text) ->
                   UrlFetchApp.payload options = text)
  /\ (AWS.payload params = None -> UrlFetchApp.payload options = "")
  /\ exists host rest qs : string,
       AWS.getCanonicalQueryString (AWS.request_query params) = Ok qs
       /\ uri = "https://" ++ host ++ "/" ++ rest
                ++ (if JS.is_empty qs then "" else "?" ++ qs)
       /\ (forall p, AWS.path params = Some (String "/" p) -> rest = p)
       /\ (AWS.path params = None -> rest = "").
Proof.
  intros Hin.
  destruct (request_cases cfg params)
    as [[e E] | (a & s & region & dF & dS & qs & temp & uri0 & options0 & H)].
  - rewrite E in Hin. contradiction.
  - cbv zeta in H. destruct H as (Ea & Es & Er & _ & _ & Eq & Et & Eu & Eo & E).
    rewrite E in Hin. cbn [trace snd fetches In] in Hin.
    destruct Hin as [[= <- <-] | []]. subst options0.
    cbn [UrlFetchApp.method UrlFetchApp.muteHttpExceptions UrlFetchApp.payload].
    split; [apply request_method_known |].
    split; [intros Hm; unfold AWS.request_method; now rewrite Hm |].
    split; [reflexivity |].
    split; [intros text Hp; unfold AWS.request_payloadString; now rewrite Hp |].
    split; [intros Hp; unfold AWS.request_payloadString; now rewrite Hp |].
    destruct (AWS.resolve_host (JS.toLowerCase (AWS.service params)) region)
      as [host | name] eqn:Eh.
    + destruct (request_path_slash params) as [rest Hrest].
      exists host, rest, qs. split; [exact Eq |].
      split.
      * rewrite Eu. unfold AWS.request_uri, JS.truthy. rewrite Hrest.
        cbn [JS.member_toString]. destruct (JS.is_empty qs); reflexivity.
      * split.
        -- intros p Hp. rewrite (request_path_given params p Hp) in Hrest.
           now injection Hrest.
        -- intros Hp. unfold AWS.request_path in Hrest. rewrite Hp in Hrest.
           cbn in Hrest. now injection Hrest.
    + exfalso.
      rewrite (getCanonicalRequestHash_of_inherited _ _ _ _ _ "Host" name) in Et;
        [discriminate |].
      rewrite get_set. cbn [String.eqb Ascii.eqb Bool.eqb]. rewrite get_set.
      now rewrite String.eqb_refl.
Qed.

End RequestExtras.

Lemma request_errors_before_the_transport_witness :
  AWS.request_region Sample.regionless (Sample.call "iam") = None
  /\ @AWS.request Sample.host_200 Sample.regionless (Sample.call "iam")
     = (Throw (error "AWS region not specified"), []).
Proof.
  destruct (@request_errors_before_the_transport Sample.host_200 Sample.regionless
              (Sample.call "iam"))
    as (_ & _ & [Hto Hfrom]).
  assert (E : @AWS.request Sample.host_200 Sample.regionless (Sample.call "iam")
              = (Throw (error "AWS region not specified"), [])).
  { apply Hfrom. split; [now exists "AKIDEXAMPLE" |].
    split; [now exists "secret" | reflexivity]. }
  destruct (Hto E) as (_ & _ & Hr). split; [exact Hr | exact E].
Defined.

Lemma request_without_a_region_fails_witness :
  @AWS.request Sample.host_200 Sample.regionless (Sample.call "lambda")
  = (Throw (error "AWS region not specified"), []).
Proof.
  apply (@request_without_a_region_fails Sample.host_200 Sample.regionless
           (Sample.call "lambda") "AKIDEXAMPLE" "secret");
    try reflexivity.
  now left.
Defined.

Lemma request_of_a_single_endpoint_service_witness :
  exists (uri : string) (options : UrlFetchApp.Options),
    fetches (trace (@AWS.request Sample.host_200 AWS.config (Sample.call "IAM")))
    = [(uri, options)]
    /\ uri = "https://iam.amazonaws.com/".
Proof.
  eexists _, _. split; [reflexivity |].
  match goal with
  | |- ?u = _ =>
      destruct (@request_of_a_single_endpoint_service Sample.host_200 AWS.config
                  (Sample.call "IAM") "iam.amazonaws.com" u _ eq_refl
                  (or_introl eq_refl))
        as (qs & Eq & Eu)
  end.
  injection Eq as <-. exact Eu.
Defined.

Lemma request_of_a_regional_service_witness :
  exists (uri : string) (options : UrlFetchApp.Options),
    fetches (trace (@AWS.request Sample.host_200 AWS.config Sample.signed_call))
    = [(uri, options)]
    /\ uri = "https://lambda.us-west-2.amazonaws.com/2015-03-31/functions/foo/invocations?a=1&b=2".
Proof.
  eexists _, _. split; [reflexivity |].
  match goal with
  | |- ?u = _ =>
      destruct (@request_of_a_regional_service Sample.host_200 AWS.config
                  Sample.signed_call u _ eq_refl (or_introl eq_refl))
        as (region & qs & Er & Eq & _ & Eu)
  end.
  injection Er as <-. injection Eq as <-. exact Eu.
Defined.


Lemma request_hands_over_method_payload_and_uri_witness :
  exists (uri : string) (options : UrlFetchApp.Options),
    fetches (trace (@AWS.request Sample.host_200 AWS.config Sample.signed_call))
    = [(uri, options)]
    /\ UrlFetchApp.muteHttpExceptions options = true
    /\ UrlFetchApp.payload options = "{}".
Proof.
  eexists _, _. split; [reflexivity |].
  match goal with
  | |- UrlFetchApp.muteHttpExceptions ?o = _ /\ _ =>
      destruct (@request_hands_over_method_payload_and_uri Sample.host_200
                  AWS.config Sample.signed_call _ o (or_introl eq_refl))
        as (_ & _ & Hmute & Hpayload & _)
  end.
  split; [exact Hmute | exact (Hpayload "{}" eq_refl)].
Defined.

(* ------------------------------------------------------------------ *)
(** *** More on the canonical headers and the path *)

Lemma mapO_canonical_header_In
  (headers : JS.JSObject JS.member) (pairs : list (string * string))
  (k v : string) :
  mapO AWS.canonical_header headers = Ok pairs ->
  In (k, JS.Own v) headers ->
  In (JS.toLowerCase (JS.trim k), JS.replace_space_runs (JS.trim v)) pairs.
Proof.
  revert pairs. induction headers as [|[k0 v0] headers IH]; intros pairs;
    [contradiction |].
  cbn [mapO]. destruct (AWS.canonical_header (k0, v0)) as [p | e] eqn:E;
    cbn [bindO]; [| discriminate].
  destruct (mapO AWS.canonical_header headers) as [ps | e]; cbn [bindO];
    [| discriminate].
  intros [= <-] [[= -> ->] | Hin].
  - cbn in E. injection E as <-. now left.
  - right. now apply IH.
Qed.

Lemma headerArrays_In
  (headers : JS.JSObject JS.member) (block names : list string) (k v : string) :
  AWS.headerArrays headers = Ok (block, names) ->
  In (k, JS.Own v) headers ->
  In (JS.toLowerCase (JS.trim k)) names
  /\ In (JS.toLowerCase (JS.trim k) ++ ":" ++ JS.replace_space_runs (JS.trim v) ++ JS.LF)
        block.
Proof.
  unfold AWS.headerArrays.
  destruct (mapO AWS.canonical_header headers) as [pairs | e] eqn:E; cbn [bindO];
    [| discriminate].
  intros [= <- <-] Hin.
  pose proof (mapO_canonical_header_In headers pairs k v E Hin) as Hp.
  apply (Permutation_in _ (Permutation_sym (sort_permutation AWS.compare_headers pairs)))
    in Hp.
  split.
  - apply in_map_iff. eexists. split; [| exact Hp]. reflexivity.
  - apply in_map_iff. eexists. split; [| exact Hp]. reflexivity.
Qed.

(** X13. Whatever the caller's headers are, once [Host] and [X-Amz-Date] are
    set the signed names hold [host] and [x-amz-date], and the canonical
    headers hold their two lines with the values set. *)
Theorem host_and_date_are_signed
  (headers : JS.JSObject JS.member) (host date : string)
  (block names : list string) :
  AWS.headerArrays
    (JS.set (JS.set headers "Host" (JS.Own host)) "X-Amz-Date" (JS.Own date))
  = Ok (block, names) ->
  In "host" names /\ In "x-amz-date" names
  /\ In ("host:" ++ JS.replace_space_runs (JS.trim host) ++ JS.LF) block
  /\ In ("x-amz-date:" ++ JS.replace_space_runs (JS.trim date) ++ JS.LF) block.
Proof.
  intros H.
  assert (Hh : In ("Host", JS.Own host)
                  (JS.set (JS.set headers "Host" (JS.Own host)) "X-Amz-Date" (JS.Own date))).
  { apply get_In. rewrite !get_set. reflexivity. }
  assert (Hd : In ("X-Amz-Date", JS.Own date)
                  (JS.set (JS.set headers "Host" (JS.Own host)) "X-Amz-Date" (JS.Own date))).
  { apply get_In. rewrite !get_set. reflexivity. }
  destruct (headerArrays_In _ _ _ _ _ H Hh) as [H1 H2].
  destruct (headerArrays_In _ _ _ _ _ H Hd) as [H3 H4].
  repeat split; assumption.
Qed.

Lemma host_and_date_are_signed_witness :
  exists block names : list string,
    AWS.headerArrays
      (JS.set (JS.set [("host", JS.Own "other.example")] "Host"
                 (JS.Own "iam.amazonaws.com"))
         "X-Amz-Date" (JS.Own "20150830T123600Z"))
    = Ok (block, names)
    /\ In "host" names /\ In "x-amz-date" names.
Proof.
  eexists _, _. split; [reflexivity |].
  match goal with
  | |- In _ ?names /\ _ =>
      destruct (host_and_date_are_signed [("host", JS.Own "other.example")]
                  "iam.amazonaws.com" "20150830T123600Z" _ names eq_refl)
        as (H1 & H2 & _)
  end.
  split; assumption.
Defined.

Lemma no_space_run_cons (c d : ascii) (t : string) :
  Spec.no_space_run (String c (String d t))
  = negb (JS.is_space c && JS.is_space d) && Spec.no_space_run (String d t).
Proof. reflexivity. Qed.

Lemma trimStart_head (s : string) (e : ascii) (t : string) :
  JS.trimStart s = String e t -> JS.is_space e = false.
Proof.
  induction s as [|c s IH]; [discriminate |].
  cbn [JS.trimStart]. destruct (JS.is_space c) eqn:Hc; [exact IH |].
  now intros [= <- _].
Qed.

Lemma rsr_no_run (s : string) :
  Spec.no_space_run (JS.replace_space_runs s) = true.
Proof.
  remember (String.length s) as n eqn:En.
  assert (Hn : (String.length s <= n)%nat) by lia. clear En.
  revert s Hn. induction n as [|n IH]; intros s Hn.
  - destruct s; [reflexivity | simpl in Hn; lia].
  - destruct s as [|c s]; [reflexivity |]. simpl in Hn.
    destruct (JS.is_space c) eqn:Hc.
    + destruct s as [|d s]; [now rewrite rsr_last |].
      destruct (JS.is_space d) eqn:Hd.
      * rewrite (rsr_run c d s Hc Hd).
        assert (Ht : Spec.no_space_run (JS.replace_space_runs (JS.trimStart s)) = true).
        { apply IH. pose proof (trimStart_length s). simpl in Hn. lia. }
        destruct (JS.trimStart s) as [|e t] eqn:Et; [reflexivity |].
        pose proof (trimStart_head s e t Et) as He.
        rewrite (rsr_nonspace e t He) in *.
        rewrite no_space_run_cons, He, andb_false_r. exact Ht.
      * rewrite (rsr_single c d s Hc Hd).
        assert (Ht : Spec.no_space_run (JS.replace_space_runs (String d s)) = true)
          by (apply IH; simpl in Hn |- *; lia).
        rewrite (rsr_nonspace d s Hd) in *.
        rewrite no_space_run_cons, Hd, andb_false_r. exact Ht.
    + rewrite (rsr_nonspace c s Hc).
      assert (Ht : Spec.no_space_run (JS.replace_space_runs s) = true)
        by (apply IH; lia).
      destruct (JS.replace_space_runs s) as [|e t]; [reflexivity |].
      rewrite no_space_run_cons, Hc. exact Ht.
Qed.

Lemma rsr_fixed (s : string) :
  Spec.no_space_run s = true -> JS.replace_space_runs s = s.
Proof.
  induction s as [|c s IH]; [reflexivity |]. intros H.
  destruct s as [|d s]; [apply rsr_last |].
  rewrite no_space_run_cons in H. apply andb_true_iff in H. destruct H as [Hcd Hs].
  destruct (JS.is_space c) eqn:Hc.
  - destruct (JS.is_space d) eqn:Hd; [discriminate |].
    rewrite (rsr_single c d s Hc Hd). now rewrite (IH Hs).
  - rewrite (rsr_nonspace c _ Hc). now rewrite (IH Hs).
Qed.

(** X14. A header value, trimmed and with its runs collapsed, holds no two
    adjacent white space characters; collapsing it again changes nothing;
    and a value without adjacent white space characters is only trimmed. *)
Theorem collapsed_value_has_no_run_of_white_space (value : string) :
  Spec.no_space_run (JS.replace_space_runs (JS.trim value)) = true
  /\ JS.replace_space_runs (JS.replace_space_runs (JS.trim value))
     = JS.replace_space_runs (JS.trim value)
  /\ (Spec.no_space_run value = true ->
      JS.replace_space_runs (JS.trim value) = JS.trim value).
Proof.
  split; [apply rsr_no_run |]. split; [apply rsr_fixed, rsr_no_run |].
  intros H. apply rsr_fixed.
  assert (Hs : forall s, Spec.no_space_run s = true ->
                         Spec.no_space_run (JS.trimStart s) = true).
  { induction s as [|c s IHs]; [reflexivity |]. intros Hs.
    cbn [JS.trimStart]. destruct (JS.is_space c); [| exact Hs].
    apply IHs. destruct s; [reflexivity |].
    rewrite no_space_run_cons in Hs. now apply andb_true_iff in Hs. }
  assert (He : forall s, Spec.no_space_run s = true ->
                         Spec.no_space_run (JS.trimEnd s) = true).
  { induction s as [|c s IHs]; [reflexivity |]. intros Hs'.
    cbn [JS.trimEnd].
    destruct (JS.is_space c && JS.is_empty (JS.trimEnd s)); [reflexivity |].
    destruct s as [|d s]; [reflexivity |].
    rewrite no_space_run_cons in Hs'. apply andb_true_iff in Hs'.
    destruct Hs' as [Hcd Hds]. specialize (IHs Hds).
    cbn [JS.trimEnd] in *.
    destruct (JS.is_space d && JS.is_empty (JS.trimEnd s)); [reflexivity |].
    rewrite no_space_run_cons. now rewrite Hcd, IHs. }
  unfold JS.trim. now apply He, Hs.
Qed.

Lemma lower_char_idempotent (c : ascii) :
  JS.lower_char (JS.lower_char c) = JS.lower_char c.
Proof. each_char c; reflexivity. Qed.

Lemma toLowerCase_idempotent (s : string) :
  JS.toLowerCase (JS.toLowerCase s) = JS.toLowerCase s.
Proof.
  unfold JS.toLowerCase. induction s as [|c s IH]; [reflexivity |].
  cbn [JS.smap]. now rewrite lower_char_idempotent, IH.
Qed.

Lemma trim_idempotent (s : string) : JS.trim (JS.trim s) = JS.trim s.
Proof.
  destruct (trim_tight s) as [Hl Ht].
  unfold JS.trim at 1. unfold Spec.no_leading_space in Hl. rewrite Hl. exact Ht.
Qed.

Lemma sorted_names (l : list (string * string)) :
  Sorted Spec.name_le l ->
  Sorted (fun a b => String.compare a b <> Gt) (map fst l).
Proof.
  induction 1 as [|p l _ IH Hd]; [constructor |].
  cbn [map]. constructor; [exact IH |].
  destruct Hd as [|q l Hpq]; constructor. exact Hpq.
Qed.

Lemma sort_of_sorted {A : Type} (cmp : A -> A -> Z) (l : list A) :
  Sorted (cmp_le cmp) l -> JS.sort cmp l = l.
Proof.
  induction 1 as [|x l _ IH Hd]; [reflexivity |].
  cbn [JS.sort]. rewrite IH.
  destruct Hd as [|y l Hxy]; [reflexivity |].
  cbn [JS.insert]. unfold cmp_le in Hxy.
  now destruct (Z.leb_spec (cmp x y) 0); [| lia].
Qed.

Lemma trimStart_fixed_head (c : ascii) (s : string) :
  JS.trimStart (String c s) = String c s -> JS.is_space c = false.
Proof. apply trimStart_head. Qed.

Lemma rsr_no_leading (s : string) :
  Spec.no_leading_space s -> Spec.no_leading_space (JS.replace_space_runs s).
Proof.
  unfold Spec.no_leading_space. destruct s as [|c s]; [trivial |]. intros H.
  pose proof (trimStart_fixed_head c s H) as Hc.
  rewrite (rsr_nonspace c s Hc). cbn [JS.trimStart]. now rewrite Hc.
Qed.

Lemma trimEnd_cons_nonempty (c : ascii) (s : string) :
  JS.trimEnd s = s -> s <> EmptyString -> JS.trimEnd (String c s) = String c s.
Proof.
  intros H Hne. cbn [JS.trimEnd]. rewrite H.
  destruct s; [congruence |]. cbn [JS.is_empty]. now rewrite andb_false_r.
Qed.

Lemma trimEnd_cons_nonspace (c : ascii) (s : string) :
  JS.trimEnd s = s -> JS.is_space c = false -> JS.trimEnd (String c s) = String c s.
Proof. intros H Hc. cbn [JS.trimEnd]. now rewrite H, Hc. Qed.

Lemma rsr_no_trailing (s : string) :
  Spec.no_trailing_space s -> Spec.no_trailing_space (JS.replace_space_runs s).
Proof.
  unfold Spec.no_trailing_space.
  remember (String.length s) as n eqn:En.
  assert (Hn : (String.length s <= n)%nat) by lia. clear En.
  revert s Hn. induction n as [|n IH]; intros s Hn Hs.
  - destruct s; [reflexivity | simpl in Hn; lia].
  - destruct s as [|c s]; [reflexivity |]. simpl in Hn.
    destruct (no_trailing_cons c s Hs) as [Hs' Hne].
    destruct (JS.is_space c) eqn:Hc.
    + destruct s as [|d s]; [now exfalso; apply Hne |].
      destruct (JS.is_space d) eqn:Hd.
      * rewrite (rsr_run c d s Hc Hd).
        destruct (no_trailing_cons d s Hs') as [Hs'' Hne'].
        pose proof (no_trailing_trimStart s Hs'') as Ht.
        pose proof (no_trailing_trimStart_nonempty s Hs'' (Hne' Hd)) as Hte.
        assert (Hr : JS.trimEnd (JS.replace_space_runs (JS.trimStart s))
                     = JS.replace_space_runs (JS.trimStart s)).
        { apply IH; [| exact Ht].
          pose proof (trimStart_length s). simpl in Hn. lia. }
        apply trimEnd_cons_nonempty; [exact Hr |].
        destruct (JS.trimStart s) as [|e t] eqn:Et; [congruence |].
        rewrite (rsr_nonspace e t (trimStart_head s e t Et)). discriminate.
      * rewrite (rsr_single c d s Hc Hd).
        assert (Hr : JS.trimEnd (JS.replace_space_runs (String d s))
                     = JS.replace_space_runs (String d s))
          by (apply IH; [simpl in Hn |- *; lia | exact Hs']).
        apply trimEnd_cons_nonempty; [exact Hr |].
        rewrite (rsr_nonspace d s Hd). discriminate.
    + rewrite (rsr_nonspace c s Hc).
      apply trimEnd_cons_nonspace; [| exact Hc].
      apply IH; [lia | exact Hs'].
Qed.

Lemma canonical_pair_idempotent (header : string * string) :
  Spec.canonical_pair (Spec.canonical_pair header) = Spec.canonical_pair header.
Proof.
  destruct header as [k v]. unfold Spec.canonical_pair. cbn [fst snd]. f_equal.
  - rewrite (trim_lower k), toLowerCase_idempotent, (trim_lower (JS.trim k)).
    now rewrite trim_idempotent.
  - destruct (trim_tight v) as [Hl Ht].
    pose proof (rsr_no_leading _ Hl) as Hl'. pose proof (rsr_no_trailing _ Ht) as Ht'.
    unfold Spec.no_leading_space, Spec.no_trailing_space in Hl', Ht'.
    unfold JS.trim at 1. rewrite Hl', Ht'.
    apply rsr_fixed, rsr_no_run.
Qed.

Lemma sorted_pairs_cmp_sorted (headers : JS.JSObject string) :
  Sorted (cmp_le (fun a b => Spec.bytewise (fst a) (fst b))) (Spec.sorted_pairs headers).
Proof.
  apply sort_sorted. intros a b.
  destruct (string_le_total (fst a) (fst b)) as [H | H]; [left | right];
    apply bytewise_le in H; exact H.
Qed.

(** X15. Canonical headers are a fixed point: the canonical pairs of a
    header mapping, given back as a header mapping, give the same canonical
    lines and signed names. Every canonical name is in lower case and
    trimmed, every canonical value is trimmed and without adjacent white
    space characters. *)
Theorem canonical_headers_are_a_fixed_point (headers : JS.JSObject string) :
  let pairs := Spec.sorted_pairs headers in
  AWS.headerArrays (Spec.own headers)
  = Ok (map Spec.header_line pairs, map fst pairs)
  /\ AWS.headerArrays (Spec.own pairs)
     = Ok (map Spec.header_line pairs, map fst pairs)
  /\ forall name value : string, In (name, value) pairs ->
       JS.toLowerCase name = name /\ JS.trim name = name
       /\ JS.trim value = value /\ Spec.no_space_run value = true.
Proof.
  intros pairs. split; [apply headerArrays_of_strings |].
  assert (Hfix : forall p, In p pairs -> Spec.canonical_pair p = p).
  { intros p Hin.
    apply (Permutation_in _ (sorted_pairs_permutation headers)) in Hin.
    apply in_map_iff in Hin. destruct Hin as (kv & <- & _).
    apply canonical_pair_idempotent. }
  split.
  - rewrite headerArrays_of_strings.
    assert (E : Spec.sorted_pairs pairs = pairs).
    { unfold Spec.sorted_pairs at 1. rewrite (map_fixed _ _ (proj2 (Forall_forall _ _) Hfix)).
      apply sort_of_sorted, sorted_pairs_cmp_sorted. }
    now rewrite E.
  - intros name value Hin. specialize (Hfix _ Hin).
    unfold Spec.canonical_pair in Hfix. cbn [fst snd] in Hfix.
    injection Hfix as Hn Hv.
    assert (Hname : JS.trim name = name).
    { pose proof (f_equal JS.trim Hn) as H1.
      rewrite trim_idempotent, Hn in H1. now symmetry. }
    assert (Hvalue : Spec.no_space_run value = true).
    { rewrite <- Hv. apply rsr_no_run. }
    repeat split.
    + pose proof (f_equal JS.toLowerCase Hn) as H1.
      rewrite (trim_lower name), toLowerCase_idempotent, <- trim_lower, Hn in H1.
      now symmetry.
    + exact Hname.
    + rewrite <- Hv.
      destruct (trim_tight (snd (name, value))) as [Hl Ht]. cbn [snd] in *.
      pose proof (rsr_no_leading _ Hl) as Hl'. pose proof (rsr_no_trailing _ Ht) as Ht'.
      unfold Spec.no_leading_space, Spec.no_trailing_space in Hl', Ht'.
      unfold JS.trim at 1. now rewrite Hl', Ht'.
    + exact Hvalue.
Qed.

(* ------------------------------------------------------------------ *)
(** *** The path, character by character *)


Lemma path_escape_component (c : ascii) :
  Ascii.eqb c "/" = false ->
  path_escape c
  = (if JS.uri_unescaped c then String c EmptyString else JS.escape_char c)
  /\ JS.sforall (fun x => negb (Ascii.eqb x "/")) (path_escape c) = true.
Proof. each_char c; vm_compute; intros H; first [now split | discriminate H]. Qed.

Lemma path_escape_length (c : ascii) :
  (1 <= String.length (path_escape c))%nat
  /\ (String.length (path_escape c) = 1%nat -> path_kept c = true)
  /\ (JS.sforall path_kept (path_escape c) = true -> path_kept c = true).
Proof.
  each_char c; vm_compute; (split; [lia |]); split; intros H;
    first [reflexivity | discriminate H].
Qed.

Lemma concat_cons (sep x : string) (y : string) (l : list string) :
  String.concat sep (x :: y :: l) = x ++ sep ++ String.concat sep (y :: l).
Proof. reflexivity. Qed.

Lemma encodeURIComponent_cons (c : ascii) (s : string) :
  JS.encodeURIComponent (String c s)
  = (if JS.uri_unescaped c then String c EmptyString else JS.escape_char c)
    ++ JS.encodeURIComponent s.
Proof. reflexivity. Qed.

Lemma normalizedPath_sflat (p : string) :
  AWS.normalizedPath p = JS.sflat path_escape p.
Proof.
  unfold AWS.normalizedPath, JS.join.
  induction p as [|c p IH]; [reflexivity |].
  pose proof (split_not_empty "/" p) as Hne.
  cbn [JS.split JS.sflat]. destruct (Ascii.eqb c "/") eqn:Ec.
  - apply Ascii.eqb_eq in Ec. subst c.
    destruct (JS.split "/" p) as [|seg segs]; [contradiction |].
    cbn [map] in *. rewrite concat_cons, IH. reflexivity.
  - destruct (path_escape_component c Ec) as [-> _].
    destruct (JS.split "/" p) as [|seg segs]; [contradiction |].
    cbn [map] in *. rewrite encodeURIComponent_cons, <- IH.
    destruct segs as [|seg' segs]; cbn [map]; [reflexivity |].
    rewrite !concat_cons, append_assoc. reflexivity.
Qed.





Lemma sflat_length_fixed (s : string) :
  String.length (JS.sflat path_escape s) = String.length s ->
  JS.sforall path_kept s = true.
Proof.
  induction s as [|c s IH]; [reflexivity |].
  cbn [JS.sflat JS.sforall]. rewrite length_append. cbn [String.length]. intros H.
  destruct (path_escape_length c) as (H1 & H2 & _).
  assert (Hs : (String.length s <= String.length (JS.sflat path_escape s))%nat).
  { clear. induction s as [|c s IH]; [apply Nat.le_refl |].
    cbn [JS.sflat]. rewrite length_append. cbn [String.length].
    pose proof (path_escape_length c) as [H _]. lia. }
  rewrite H2 by lia. apply IH. lia.
Qed.

Lemma sflat_kept (s : string) :
  JS.sforall path_kept (JS.sflat path_escape s) = true ->
  JS.sforall path_kept s = true.
Proof.
  induction s as [|c s IH]; [reflexivity |].
  cbn [JS.sflat JS.sforall]. rewrite sforall_append. intros H.
  apply andb_true_iff in H. destruct H as [Hc Hs].
  destruct (path_escape_length c) as (_ & _ & H3).
  now rewrite (H3 Hc), (IH Hs).
Qed.

(** X17. Normalising a path twice gives the same as normalising it once
    exactly when the path is made of slashes and characters that
    [encodeURIComponent] leaves alone, which is exactly when normalising
    changes nothing. *)
Theorem normalizedPath_idempotent_only_on_kept_characters (p : string) :
  (AWS.normalizedPath (AWS.normalizedPath p) = AWS.normalizedPath p
   <-> JS.sforall path_kept p = true)
  /\ (AWS.normalizedPath p = p <-> JS.sforall path_kept p = true).
Proof.
  assert (Hfix : forall s, JS.sforall path_kept s = true -> AWS.normalizedPath s = s)
    by (intros s; apply normalizedPath_unescaped).
  assert (Hback : forall s, AWS.normalizedPath s = s -> JS.sforall path_kept s = true).
  { intros s H. apply sflat_length_fixed. rewrite <- normalizedPath_sflat.
    now rewrite H. }
  split; split.
  - intros H. apply Hback in H. rewrite normalizedPath_sflat in H.
    now apply sflat_kept.
  - intros H. now rewrite !(Hfix p H).
  - apply Hback.
  - apply Hfix.
Qed.

(* ------------------------------------------------------------------ *)
(** *** More on [Lambda.invoke] *)

Lemma fetches_app (a b : list Event) :
  fetches (a ++ b) = (fetches a ++ fetches b)%list.
Proof.
  induction a as [|[uri options | result] a IH]; cbn [app fetches];
    [reflexivity | now rewrite IH | exact IH].
Qed.

Lemma parse_throws (s : string) (e : exn) :
  JSONParse.parse s = Throw e -> e = SyntaxError.
Proof.
  unfold JSONParse.parse.
  destruct (JSONParse.value _ s) as [[v r] |]; [destruct (JS.is_empty _) |];
    congruence.
Qed.


Section InvokeExtras.
Context {RT : Runtime}.

Lemma invoke_before
  (cfg : AWS.Config.AWSConfig) (params : AWS.Lambda.LambdaInvokeParams)
  (e : exn) (t : list Event) :
  AWS.request cfg (AWS.Lambda.requestParams cfg params) = (Throw e, t) ->
  AWS.Lambda.invoke cfg params = (Throw e, t).
Proof. intros H. unfold AWS.Lambda.invoke. now rewrite H. Qed.

Lemma invoke_after
  (cfg : AWS.Config.AWSConfig) (params : AWS.Lambda.LambdaInvokeParams)
  (response : UrlFetchApp.HTTPResponse) (t : list Event) :
  AWS.request cfg (AWS.Lambda.requestParams cfg params) = (Ok response, t) ->
  AWS.Lambda.invoke cfg params
  = match JSONParse.parse (UrlFetchApp.getContentText response) with
    | Throw e => (Throw e, t)
    | Ok body =>
        match AWS.Lambda.decode_log
                (JS.get (UrlFetchApp.getAllHeaders response) "X-Amz-Log-Result") with
        | Throw e => (Throw e, t)
        | Ok log =>
            let result :=
              {| InvokeResult.StatusCode := UrlFetchApp.getResponseCode response;
                 InvokeResult.ExecutedVersion :=
                   JS.get (UrlFetchApp.getAllHeaders response) "X-Amz-Executed-Version";
                 InvokeResult.LogResult := log;
                 InvokeResult.Payload := body |} in
            if Spec.is_2xx (UrlFetchApp.getResponseCode response)
            then (Ok result, t)
            else (Throw (Error (JSON.or_else (JSON.member body "errorMessage")
                                             (JSON.member body "message"))),
                  (t ++ [ConsoleError result])%list)
        end
    end.
Proof.
  intros Hr. unfold AWS.Lambda.invoke. rewrite Hr, bind_ok, bind_lift.
  destruct (JSONParse.parse (UrlFetchApp.getContentText response)) as [body | e].
  - rewrite bind_lift.
    destruct (AWS.Lambda.decode_log _) as [log | e].
    + cbn [InvokeResult.StatusCode InvokeResult.Payload]. rewrite is_2xx_test.
      destruct (Spec.is_2xx (UrlFetchApp.getResponseCode response)); cbn [negb].
      * cbn [ret outcome trace fst snd]. now rewrite app_nil_r.
      * cbn [AWS.Lambda.console_error bind lift outcome trace fst snd app].
        reflexivity.
    + cbn [outcome trace fst snd]. now rewrite app_nil_r.
  - cbn [outcome trace fst snd]. now rewrite app_nil_r.
Qed.

(** [invoke] hands to the transport what its call of [request] hands to
    it. *)
Lemma invoke_fetches
  (cfg : AWS.Config.AWSConfig) (params : AWS.Lambda.LambdaInvokeParams) :
  fetches (trace (AWS.Lambda.invoke cfg params))
  = fetches (trace (AWS.request cfg (AWS.Lambda.requestParams cfg params))).
Proof.
  destruct (AWS.request cfg (AWS.Lambda.requestParams cfg params))
    as [[response | e] t] eqn:E.
  - rewrite (invoke_after cfg params response t E).
    destruct (JSONParse.parse _); [| reflexivity].
    destruct (AWS.Lambda.decode_log _); [| reflexivity].
    cbv zeta. destruct (Spec.is_2xx _); [reflexivity |].
    cbn [trace snd]. rewrite fetches_app. cbn [fetches]. apply app_nil_r.
  - now rewrite (invoke_before cfg params e t E).
Qed.

(** What [invoke] does once its request is handed over. *)
Lemma invoke_sent
  (cfg : AWS.Config.AWSConfig) (params : AWS.Lambda.LambdaInvokeParams)
  (uri : string) (options : UrlFetchApp.Options) :
  In (uri, options) (fetches (trace (AWS.Lambda.invoke cfg params))) ->
  AWS.request cfg (AWS.Lambda.requestParams cfg params)
  = (fetch uri options, [Fetched uri options]).
Proof. rewrite invoke_fetches. apply request_trace. Qed.

(** X18. When the transport throws on the request of [invoke], [invoke]
    throws the same, after that one request and with nothing logged. *)
Theorem invoke_passes_on_a_transport_error
  (cfg : AWS.Config.AWSConfig) (params : AWS.Lambda.LambdaInvokeParams)
  (uri : string) (options : UrlFetchApp.Options) (e : exn) :
  In (uri, options) (fetches (trace (AWS.Lambda.invoke cfg params))) ->
  fetch uri options = Throw e ->
  AWS.Lambda.invoke cfg params = (Throw e, [Fetched uri options]).
Proof.
  intros Hin He. apply invoke_sent in Hin. rewrite He in Hin.
  now apply invoke_before.
Qed.

(** X19. When the body of the response is no JSON text, [invoke] throws a
    [SyntaxError] whatever the status code, and logs nothing. *)
Theorem invoke_throws_a_syntax_error_on_other_bodies
  (cfg : AWS.Config.AWSConfig) (params : AWS.Lambda.LambdaInvokeParams)
  (uri : string) (options : UrlFetchApp.Options)
  (response : UrlFetchApp.HTTPResponse) (e : exn) :
  In (uri, options) (fetches (trace (AWS.Lambda.invoke cfg params))) ->
  fetch uri options = Ok response ->
  JSONParse.parse (UrlFetchApp.getContentText response) = Throw e ->
  AWS.Lambda.invoke cfg params = (Throw SyntaxError, [Fetched uri options]).
Proof.
  intros Hin Hr Hp. apply invoke_sent in Hin. rewrite Hr in Hin.
  rewrite (invoke_after cfg params response _ Hin), Hp.
  now rewrite (parse_throws _ e Hp).
Qed.

(** X20. When [invoke] returns a result, one request was sent and nothing
    logged, the status code of the response is within 200..299 and is the
    result's, the payload is the parsed body, the executed version is the
    header [X-Amz-Executed-Version], and the log tail is what
    [Utilities.base64Decode] gives for the header [X-Amz-Log-Result], or
    [undefined] when that header is absent or empty. *)
Theorem invoke_returns_only_a_success
  (cfg : AWS.Config.AWSConfig) (params : AWS.Lambda.LambdaInvokeParams)
  (result : InvokeResult.t) :
  outcome (AWS.Lambda.invoke cfg params) = Ok result ->
  exists (uri : string) (options : UrlFetchApp.Options)
         (response : UrlFetchApp.HTTPResponse),
    trace (AWS.Lambda.invoke cfg params) = [Fetched uri options]
    /\ fetch uri options = Ok response
    /\ Spec.is_2xx (InvokeResult.StatusCode result) = true
    /\ InvokeResult.StatusCode result = UrlFetchApp.getResponseCode response
    /\ JSONParse.parse (UrlFetchApp.getContentText response)
       = Ok (InvokeResult.Payload result)
    /\ InvokeResult.ExecutedVersion result
       = JS.get (UrlFetchApp.getAllHeaders response) "X-Amz-Executed-Version"
    /\ match JS.get (UrlFetchApp.getAllHeaders response) "X-Amz-Log-Result" with
       | Some (String c text) =>
           exists bytes : list Z,
             base64Decode (String c text) = Ok bytes
             /\ InvokeResult.LogResult result = Some bytes
       | _ => InvokeResult.LogResult result = None
       end.
Proof.
  destruct (request_cases cfg (AWS.Lambda.requestParams cfg params))
    as [[e E] | (a & s & region & dF & dS & qs & temp & uri & options & H)].
  - rewrite (invoke_before cfg params e [] E). discriminate.
  - cbv zeta in H. destruct H as (_ & _ & _ & _ & _ & _ & _ & _ & _ & E).
    destruct (fetch uri options) as [response | e] eqn:Ef.
    + rewrite (invoke_after cfg params response _ E).
      destruct (JSONParse.parse _) as [body | e] eqn:Ep; [| discriminate].
      destruct (AWS.Lambda.decode_log _) as [log | e] eqn:El; [| discriminate].
      cbv zeta. destruct (Spec.is_2xx _) eqn:E2; [| discriminate].
      cbn [outcome trace fst snd]. intros [= <-].
      exists uri, options, response.
      cbn [InvokeResult.StatusCode InvokeResult.Payload InvokeResult.ExecutedVersion
           InvokeResult.LogResult].
      repeat (split; [first [reflexivity | assumption] |]).
      pose proof (decode_log_cases
                    (JS.get (UrlFetchApp.getAllHeaders response) "X-Amz-Log-Result"))
        as Hd.
      destruct (JS.get (UrlFetchApp.getAllHeaders response) "X-Amz-Log-Result")
        as [[|c text] |]; try congruence.
      rewrite El in Hd.
      destruct (base64Decode (String c text)) as [bytes | e]; [| discriminate].
      injection Hd as ->. now exists bytes.
    + rewrite (invoke_before cfg params e _ E). discriminate.
Qed.

(** X21. When [invoke] logs a result, the status code of that result is
    outside 200..299, the events are one request followed by that one log
    entry, and [invoke] throws the [Error] made from the [errorMessage] of
    the body, or else from its [message]. *)
Theorem invoke_logs_only_with_the_service_error
  (cfg : AWS.Config.AWSConfig) (params : AWS.Lambda.LambdaInvokeParams)
  (result : InvokeResult.t) :
  In (ConsoleError result) (trace (AWS.Lambda.invoke cfg params)) ->
  Spec.is_2xx (InvokeResult.StatusCode result) = false
  /\ outcome (AWS.Lambda.invoke cfg params)
     = Throw (Error (JSON.or_else
                       (JSON.member (InvokeResult.Payload result) "errorMessage")
                       (JSON.member (InvokeResult.Payload result) "message")))
  /\ exists (uri : string) (options : UrlFetchApp.Options)
            (response : UrlFetchApp.HTTPResponse),
       trace (AWS.Lambda.invoke cfg params)
       = [Fetched uri options; ConsoleError result]
       /\ fetch uri options = Ok response
       /\ InvokeResult.StatusCode result = UrlFetchApp.getResponseCode response
       /\ JSONParse.parse (UrlFetchApp.getContentText response)
          = Ok (InvokeResult.Payload result).
Proof.
  destruct (request_cases cfg (AWS.Lambda.requestParams cfg params))
    as [[e E] | (a & s & region & dF & dS & qs & temp & uri & options & H)].
  - rewrite (invoke_before cfg params e [] E). contradiction.
  - cbv zeta in H. destruct H as (_ & _ & _ & _ & _ & _ & _ & _ & _ & E).
    destruct (fetch uri options) as [response | e] eqn:Ef.
    + rewrite (invoke_after cfg params response _ E).
      destruct (JSONParse.parse _) as [body | e] eqn:Ep;
        [| cbn; intros [H | []]; discriminate H].
      destruct (AWS.Lambda.decode_log _) as [log | e] eqn:El;
        [| cbn; intros [H | []]; discriminate H].
      cbv zeta. destruct (Spec.is_2xx _) eqn:E2;
        [cbn; intros [H | []]; discriminate H |].
      cbn [outcome trace fst snd app In].
      intros [H | [H | []]]; [discriminate H |]. injection H as <-.
      cbn [InvokeResult.StatusCode InvokeResult.Payload].
      split; [exact E2 |]. split; [reflexivity |].
      exists uri, options, response. auto.
    + rewrite (invoke_before cfg params e _ E).
      cbn. intros [H | []]; discriminate H.
Qed.


End InvokeExtras.

Section InvokeRequest.
Context {RT : Runtime}.

(** The query of [invoke], entry by entry. *)
Lemma invoke_query_entries (params : AWS.Lambda.LambdaInvokeParams) :
  AWS.Lambda.invoke_query params
  = ((match AWS.Lambda.ClientContext params with
      | Some context =>
          [("ClientContext", base64Encode (AWS.JSON_stringify context))]
      | None => []
      end)
     ++ (match AWS.Lambda.InvocationType params with
         | Some t => [("InvocationType", AWS.Lambda.InvocationType_string t)]
         | None => []
         end)
     ++ (match AWS.Lambda.LogType params with
         | Some t => [("LogType", AWS.Lambda.LogType_string t)]
         | None => []
         end)
     ++ (match AWS.Lambda.Qualifier params with
         | Some q => if JS.is_empty q then [] else [("Qualifier", q)]
         | None => []
         end))%list.
Proof.
  unfold AWS.Lambda.invoke_query.
  destruct (AWS.Lambda.ClientContext params) as [context |];
    destruct (AWS.Lambda.InvocationType params) as [[] |];
    destruct (AWS.Lambda.LogType params) as [[] |];
    destruct (AWS.Lambda.Qualifier params) as [[|c q] |];
    reflexivity.
Qed.

Lemma invoke_query_plain (params : AWS.Lambda.LambdaInvokeParams) :
  let query :=
    map (fun kv => (fst kv, AWS.QString (snd kv))) (AWS.Lambda.invoke_query params) in
  NoDup (JS.keys (AWS.Lambda.invoke_query params))
  /\ incl (JS.keys (AWS.Lambda.invoke_query params))
          ["ClientContext"; "InvocationType"; "LogType"; "Qualifier"]
  /\ NoDup (JS.keys query)
  /\ JS.hasOwn query "hasOwnProperty" = false.
Proof.
  cbv zeta. rewrite invoke_query_entries.
  destruct (AWS.Lambda.ClientContext params) as [context |];
    destruct (AWS.Lambda.InvocationType params) as [t |];
    destruct (AWS.Lambda.LogType params) as [l |];
    destruct (AWS.Lambda.Qualifier params) as [[|c q] |];
    cbn [app map fst snd JS.keys JS.is_empty JS.hasOwn];
    (split; [repeat constructor; cbn; intuition discriminate |]);
    (split; [intros k Hk; cbn in Hk |- *; intuition |]);
    (split; [repeat constructor; cbn; intuition discriminate | reflexivity]).
Qed.


(** X23. The query of [invoke] holds [ClientContext], [InvocationType] and
    [LogType] when they are given, [Qualifier] when it is given and not
    empty, no other key and none twice; it is the query of the request, with
    strings for values. *)
Theorem invoke_query_holds_what_is_given
  (cfg : AWS.Config.AWSConfig) (params : AWS.Lambda.LambdaInvokeParams) :
  let query := AWS.Lambda.invoke_query params in
  JS.get query "ClientContext"
  = option_map (fun context => base64Encode (AWS.JSON_stringify context))
      (AWS.Lambda.ClientContext params)
  /\ JS.get query "InvocationType"
     = option_map AWS.Lambda.InvocationType_string (AWS.Lambda.InvocationType params)
  /\ JS.get query "LogType"
     = option_map AWS.Lambda.LogType_string (AWS.Lambda.LogType params)
  /\ JS.get query "Qualifier"
     = match AWS.Lambda.Qualifier params with
       | Some q => if JS.is_empty q then None else Some q
       | None => None
       end
  /\ NoDup (JS.keys query)
  /\ incl (JS.keys query) ["ClientContext"; "InvocationType"; "LogType"; "Qualifier"]
  /\ AWS.request_query (AWS.Lambda.requestParams cfg params)
     = map (fun kv => (fst kv, AWS.QString (snd kv))) query.
Proof.
  cbv zeta.
  destruct (invoke_query_plain params) as (Hnd & Hincl & _ & _).
  split; [| split; [| split; [| split; [| split; [exact Hnd | split;
    [exact Hincl | reflexivity]]]]]].
  - rewrite invoke_query_entries.
    destruct (AWS.Lambda.ClientContext params), (AWS.Lambda.InvocationType params),
      (AWS.Lambda.LogType params), (AWS.Lambda.Qualifier params) as [[|c q] |];
      reflexivity.
  - rewrite invoke_query_entries.
    destruct (AWS.Lambda.ClientContext params), (AWS.Lambda.InvocationType params),
      (AWS.Lambda.LogType params), (AWS.Lambda.Qualifier params) as [[|c q] |];
      reflexivity.
  - rewrite invoke_query_entries.
    destruct (AWS.Lambda.ClientContext params), (AWS.Lambda.InvocationType params),
      (AWS.Lambda.LogType params), (AWS.Lambda.Qualifier params) as [[|c q] |];
      reflexivity.
  - rewrite invoke_query_entries.
    destruct (AWS.Lambda.ClientContext params), (AWS.Lambda.InvocationType params),
      (AWS.Lambda.LogType params), (AWS.Lambda.Qualifier params) as [[|c q] |];
      reflexivity.
Qed.



End InvokeRequest.

Lemma invoke_passes_on_a_transport_error_witness :
  exists (uri : string) (options : UrlFetchApp.Options),
    @AWS.Lambda.invoke Sample.host_down AWS.config Sample.invocation
    = (Throw (HostError "Address unavailable"), [Fetched uri options]).
Proof.
  eexists _, _.
  apply (@invoke_passes_on_a_transport_error Sample.host_down AWS.config
           Sample.invocation);
    [left; reflexivity | reflexivity].
Defined.

Lemma invoke_throws_a_syntax_error_on_other_bodies_witness :
  exists (uri : string) (options : UrlFetchApp.Options),
    @AWS.Lambda.invoke Sample.host_502 AWS.config Sample.invocation
    = (Throw SyntaxError, [Fetched uri options]).
Proof.
  eexists _, _.
  apply (@invoke_throws_a_syntax_error_on_other_bodies Sample.host_502 AWS.config
           Sample.invocation _ _
           (Sample.response 502 [] "<html>Bad Gateway</html>") SyntaxError);
    [left; reflexivity | reflexivity | reflexivity].
Defined.

Lemma invoke_returns_only_a_success_witness :
  exists result : InvokeResult.t,
    outcome (@AWS.Lambda.invoke Sample.host_200 AWS.config Sample.invocation)
    = Ok result
    /\ InvokeResult.StatusCode result = 200%Z
    /\ Spec.is_2xx (InvokeResult.StatusCode result) = true.
Proof.
  eexists. split; [reflexivity |]. split; [reflexivity |].
  match goal with
  | |- Spec.is_2xx (InvokeResult.StatusCode ?r) = true =>
      destruct (@invoke_returns_only_a_success Sample.host_200 AWS.config
                  Sample.invocation r eq_refl)
        as (uri & options & response & _ & _ & H & _)
  end.
  exact H.
Defined.

Lemma invoke_logs_only_with_the_service_error_witness :
  (exists result : InvokeResult.t,
     In (ConsoleError result)
        (trace (@AWS.Lambda.invoke Sample.host_404 AWS.config Sample.invocation))
     /\ InvokeResult.StatusCode result = 404%Z
     /\ outcome (@AWS.Lambda.invoke Sample.host_404 AWS.config Sample.invocation)
        = Throw (error "not found"))
  /\ (exists result : InvokeResult.t,
        In (ConsoleError result)
           (trace (@AWS.Lambda.invoke Sample.host_500 AWS.config Sample.invocation))
        /\ outcome (@AWS.Lambda.invoke Sample.host_500 AWS.config Sample.invocation)
           = Throw (error "m")).
Proof.
  split.
  - eexists. split; [right; left; reflexivity |]. split; [reflexivity |].
    match goal with
    | |- outcome ?m = _ =>
        destruct (@invoke_logs_only_with_the_service_error Sample.host_404
                    AWS.config Sample.invocation _ (or_intror (or_introl eq_refl)))
          as (_ & H & _)
    end.
    exact H.
  - eexists. split; [right; left; reflexivity |].
    match goal with
    | |- outcome ?m = _ =>
        destruct (@invoke_logs_only_with_the_service_error Sample.host_500
                    AWS.config Sample.invocation _ (or_intror (or_introl eq_refl)))
          as (_ & H & _)
    end.
    refine (eq_trans H _). vm_compute. reflexivity.
Defined.



(* ------------------------------------------------------------------ *)
(** *** The pipeline, end to end *)

Section EndToEnd.
Context {RT : Runtime}.

(** X25. End to end. The [Authorization] header of every request handed to
    the transport carries the credential scope, the signed names of the
    caller's headers with [Host] and [X-Amz-Date] set, and the signature of
    the specification: the hex HMAC-SHA256, under the derived signing key,
    of algorithm, full date, scope and hash of the canonical request; it has
    64 characters. *)
Theorem request_signs_the_canonical_request
  (cfg : AWS.Config.AWSConfig) (params : AWS.RequestParams)
  (uri : string) (options : UrlFetchApp.Options) :
  In (uri, options) (fetches (trace (AWS.request cfg params))) ->
  exists a s region dateFull dateShort qs host : string,
    let service := JS.toLowerCase (AWS.service params) in
    let supplied := match AWS.headers params with Some h => h | None => [] end in
    let signed := JS.set (JS.set supplied "Host" host) "X-Amz-Date" dateFull in
    let scope := dateShort ++ "/" ++ region ++ "/" ++ service ++ "/aws4_request" in
    let hash :=
      fst (Spec.canonicalRequestHash (AWS.request_method params)
             (AWS.request_path params) signed qs
             (AWS.request_payloadString params)) in
    let sts := JS.join JS.LF [AWS.HASH_ALGORITHM; dateFull; scope; hash] in
    let signature :=
      Spec.signature sts (Spec.deriveSigningKey s dateShort region service) in
    AWS.request_accessKeyId cfg params = Ok (Some a)
    /\ AWS.request_secretAccessKey cfg params = Ok (Some s)
    /\ AWS.request_region cfg params = Some region
    /\ AWS.getCanonicalFullDate new_Date = Ok dateFull
    /\ AWS.getCanonicalShortDate new_Date = Ok dateShort
    /\ AWS.getCanonicalQueryString (AWS.request_query params) = Ok qs
    /\ AWS.resolve_host service region = JS.Own host
    /\ JS.get (UrlFetchApp.headers options) "Authorization"
       = Some (JS.Own
                 (AWS.HASH_ALGORITHM ++ " Credential=" ++ a ++ "/" ++ scope
                  ++ ", SignedHeaders=" ++ Spec.signedHeaders signed
                  ++ ", Signature=" ++ signature))
    /\ String.length signature = 64%nat.
Proof.
  intros Hin.
  destruct (request_authorization cfg params uri options Hin)
    as (a & s & region & dF & dS & qs & host & H).
  cbv zeta in H. destruct H as (Ea & Es & Er & Ef & Eh & Eq & Ehost & Hh).
  exists a, s, region, dF, dS, qs, host. cbv zeta.
  repeat (split; [assumption |]).
  split; [| apply signature_length].
  rewrite Hh, get_delete, get_set. reflexivity.
Qed.

End EndToEnd.

Lemma request_signs_the_canonical_request_witness :
  exists (uri : string) (options : UrlFetchApp.Options),
    fetches (trace (@AWS.request Sample.host_200 AWS.config Sample.signed_call))
    = [(uri, options)]
    /\ JS.get (UrlFetchApp.headers options) "Authorization"
       = Some (JS.Own
                 ("AWS4-HMAC-SHA256 Credential=AKIDEXAMPLE/20150830/us-west-2/lambda/aws4_request, SignedHeaders=content-type;host;x-amz-date, Signature="
                  ++ "ac798dbe1c769ef796b7fd493432469c56edd785301a4f0ab084ab7a9e65ada5")).
Proof.
  eexists _, _. split; [reflexivity |].
  match goal with
  | |- JS.get (UrlFetchApp.headers ?o) _ = _ =>
      destruct (@request_signs_the_canonical_request Sample.host_200 AWS.config
                  Sample.signed_call _ o (or_introl eq_refl))
        as (a & s & region & dF & dS & qs & host & H)
  end.
  cbv zeta in H. destruct H as (Ea & Es & Er & Ef & Eh & Eq & Ehost & Hauth & _).
  injection Ea as <-. injection Es as <-. injection Er as <-.
  injection Ef as <-. injection Eh as <-. injection Eq as <-.
  injection Ehost as <-.
  refine (eq_trans Hauth _). vm_compute. reflexivity.
Defined.
